(** * inferb: inferring a byte through cache timing (src/main.c)

    A shallow embedding of [main.c] and the properties of its specification.

    - C integers are [Z] with their wrap-around written out ([wrap64],
      [wrap32], [wrap8]); a [uint8_t] held in memory is a [Byte.byte].
    - A C [double] is an IEEE 754 binary64 value: [spec_float] of the
      Standard Library with [prec = 53] and [emax = 1024], rounded to nearest
      even as the C code is (default rounding mode).
    - Memory is a list of blocks, CompCert style: a pointer is [Null] or a
      block index with a byte offset; [calloc] and [malloc] append a block.
    - What the program cannot compute is read from a [world]: the successive
      values of [mach_absolute_time()], the time base of
      [mach_timebase_info()], whether each allocation succeeds, and the
      indeterminate initial value of the local [bestIndex].
    - A function of the program is a computation [M A]: it takes the machine
      state and returns a value with the next state, or crashes on an invalid
      memory access.
    - Memory that is not an object of the program is not in the heap: what
      an access finds there (a byte, or no mapping) is read from the
      [world] too. *)

From Stdlib Require Import ZArith List Bool Lia.
From Stdlib Require Import Strings.Byte.
From Stdlib Require Import Floats.SpecFloat.
From stdpp Require Import base list.

Local Open Scope Z_scope.

(** ** Tunables and layout constants of [main.c] *)

Definition VALUE : Z := 42.
Definition SPACING : Z := 16 * 1024.
Definition ITERATIONS : nat := 20.
Definition RETRIES_IF_ZERO : nat := 50.
Definition CACHE_LINE_SIZE : Z := 64.
Definition UINT8_MAX : Z := 255.

(** [struct cache_line { uint8_t cacheLine; uint8_t padding[SPACING - 1]; }]:
    every member has alignment 1, so there is no padding between or after the
    members. *)
Definition offsetof_cacheLine : Z := 0.
Definition sizeof_cache_line_t : Z := 1 + (SPACING - 1).

Definition NUM_CACHE_LINES : Z := UINT8_MAX + 1.
Definition ARRAY_SIZE : Z := NUM_CACHE_LINES * sizeof_cache_line_t.

(** Calls of [mach_absolute_time] in one attempt: two for every slot of
    every iteration. *)
Definition reads_per_attempt : Z := Z.of_nat ITERATIONS * (2 * NUM_CACHE_LINES).

(** Byte offset of [array[i].cacheLine] from [array]. *)
Definition slot_offset (i : Z) : Z := i * sizeof_cache_line_t + offsetof_cacheLine.

(** The cache line an address falls in. *)
Definition cache_line_of (a : Z) : Z := a / CACHE_LINE_SIZE.

(** ** Machine integers *)

Definition wrap64 (n : Z) : Z := n mod 2 ^ 64.
Definition wrap32 (n : Z) : Z := n mod 2 ^ 32.
Definition wrap8 (n : Z) : Z := n mod 2 ^ 8.

Definition byte_val (b : byte) : Z := Z.of_N (Byte.to_N b).

(** ** Doubles *)

Definition double : Type := spec_float.
Definition dprec : Z := 53.
Definition demax : Z := 1024.

Definition fadd : double -> double -> double := SFadd dprec demax.
Definition fmul : double -> double -> double := SFmul dprec demax.
Definition fdiv : double -> double -> double := SFdiv dprec demax.
Definition flt : double -> double -> bool := SFltb.
Definition fle : double -> double -> bool := SFleb.
Definition DBL_MAX : double := SFmax_float dprec demax.
Definition dzero : double := S754_zero false.

(** Conversion of an integer to [double] (round to nearest even). *)
Definition double_of_Z (n : Z) : double := binary_normalize dprec demax n 0 false.

Definition is_nan (x : double) : bool :=
  match x with S754_nan => true | _ => false end.

Definition is_finite (x : double) : bool :=
  match x with S754_zero _ | S754_finite _ _ _ => true | _ => false end.

(** ** Memory *)

Inductive object : Type :=
| OBytes (bs : list byte)        (* an array of [uint8_t] of the caller *)
| ODoubles (ds : list double)    (* an array of [double] *)
| ORaw (size : Z).               (* [size] uninitialised bytes from [malloc] *)

Inductive pointer : Type :=
| Null
| Ptr (b : nat) (ofs : Z).

Inductive fault : Type :=
| NullDeref        (* access through a null pointer *)
| BadAccess        (* access to an address that is not mapped; for the typed
                      accesses of the program, outside the live object *)
| NoReturn.        (* no fault, but the call never returns *)

(** How a call of [flush_cache_relaxed] ends when its range is not inside
    a live object, where the heap has no addresses to follow the loop on:
    the loop ends after [n] instructions, or its instruction [n + 1] aborts
    on an address that is not mapped, or, [start + len] having wrapped
    around in [uint64_t], the loop never ends. *)
Inductive flush_end : Type :=
| FlushDone (n : Z)
| FlushFault (n : Z)
| FlushHang.

(** The outside world, as far as the program observes it. *)
Record world : Type := {
  ticks : Z -> Z;          (* value of the k-th call of [mach_absolute_time] *)
  tb_numer : Z;            (* [mach_timebase_info]: numerator *)
  tb_denom : Z;            (* [mach_timebase_info]: denominator *)
  alloc_ok : nat -> bool;  (* does the k-th call of calloc/malloc succeed *)
  junk : byte;             (* indeterminate value of the local [bestIndex] *)
  peek : list object -> nat -> Z -> option byte;
                           (* a byte read at offset [ofs] of block [b] that
                              is not a byte of a byte object: the byte found
                              there, if the address is mapped *)
  stray_flush : list object -> nat -> Z -> Z -> flush_end
                           (* the flush of [len] bytes from offset [ofs] of
                              block [b], when that is not inside a live
                              object *)
}.

(** The machine state. [decisions] is an observation log, not program state:
    the value of [bestIndex] at the end of every attempt, oldest first.
    [dc_ops] counts the [DC CIVAC] instructions executed. *)
Record state : Type := {
  heap : list object;
  clock_reads : Z;
  alloc_calls : nat;
  dc_ops : Z;
  decisions : list Z
}.

Definition set_heap (h : list object) (s : state) : state :=
  {| heap := h; clock_reads := clock_reads s; alloc_calls := alloc_calls s;
     dc_ops := dc_ops s; decisions := decisions s |}.

Definition tick (s : state) : state :=
  {| heap := heap s; clock_reads := clock_reads s + 1;
     alloc_calls := alloc_calls s; dc_ops := dc_ops s;
     decisions := decisions s |}.

Definition count_alloc (s : state) : state :=
  {| heap := heap s; clock_reads := clock_reads s;
     alloc_calls := S (alloc_calls s); dc_ops := dc_ops s;
     decisions := decisions s |}.

Definition add_dc (n : Z) (s : state) : state :=
  {| heap := heap s; clock_reads := clock_reads s;
     alloc_calls := alloc_calls s; dc_ops := dc_ops s + n;
     decisions := decisions s |}.

Definition log (d : Z) (s : state) : state :=
  {| heap := heap s; clock_reads := clock_reads s;
     alloc_calls := alloc_calls s; dc_ops := dc_ops s;
     decisions := decisions s ++ [d] |}.

(** ** The computation monad *)

Inductive outcome (A : Type) : Type :=
| Ret (a : A) (s : state)
| Crash (f : fault) (s : state).
Arguments Ret {A} a s.
Arguments Crash {A} f s.

Definition M (A : Type) : Type := state -> outcome A.

Definition final_state {A} (o : outcome A) : state :=
  match o with Ret _ s => s | Crash _ s => s end.

Definition ret {A} (a : A) : M A := fun s => Ret a s.

Definition bind {A B} (m : M A) (k : A -> M B) : M B :=
  fun s => match m s with
           | Ret a s' => k a s'
           | Crash f s' => Crash f s'
           end.

Declare Scope prog_scope.
Delimit Scope prog_scope with prog.
Notation "x <- c1 ;; c2" := (bind c1 (fun x => c2))
  (at level 100, c1 at next level, right associativity) : prog_scope.
Notation "c1 ;;; c2" := (bind c1 (fun _ => c2))
  (at level 100, right associativity) : prog_scope.
Local Open Scope prog_scope.

(** [for (unsigned i = 0; i < n; i++) body], with the variables the body
    updates threaded as [a]. *)
Fixpoint for_from {A} (i : nat) (n : nat) (body : nat -> A -> M A) (a : A) : M A :=
  match n with
  | O => ret a
  | S n' => a' <- body i a ;; for_from (S i) n' body a'
  end.

Definition for_loop {A} (n : nat) (body : nat -> A -> M A) (a : A) : M A :=
  for_from 0 n body a.

(** ** Library calls and memory accesses *)

(** [calloc(n, sizeof(double))]: zero-filled storage reads as [+0.0]. *)
Definition calloc_doubles (w : world) (n : Z) : M pointer :=
  fun s =>
    if alloc_ok w (alloc_calls s)
    then Ret (Ptr (length (heap s)) 0)
             (set_heap (heap s ++ [ODoubles (repeat dzero (Z.to_nat n))])
                       (count_alloc s))
    else Ret Null (count_alloc s).

Definition malloc (w : world) (size : Z) : M pointer :=
  fun s =>
    if alloc_ok w (alloc_calls s)
    then Ret (Ptr (length (heap s)) 0)
             (set_heap (heap s ++ [ORaw size]) (count_alloc s))
    else Ret Null (count_alloc s).

(** A byte read outside the byte objects of the heap: the byte the world
    has there, or a fault when the address is not mapped. *)
Definition stray_read (w : world) (b : nat) (ofs : Z) : M byte :=
  fun s =>
    match peek w (heap s) b ofs with
    | Some v => Ret v s
    | None => Crash BadAccess s
    end.

(** [*addr] for [uint8_t *addr]. A byte of a byte object is read from the
    heap. The null pointer is not mapped (page zero). At every other
    address (a byte of a [double] or of a probe array, the byte past the
    end of an object, an address outside every object) the read returns
    the byte that is there when the address is mapped, and faults
    otherwise. *)
Definition load_byte (w : world) (p : pointer) : M byte :=
  fun s =>
    match p with
    | Null => Crash NullDeref s
    | Ptr b ofs =>
        match heap s !! b with
        | Some (OBytes bs) =>
            if 0 <=? ofs
            then match bs !! Z.to_nat ofs with
                 | Some v => Ret v s
                 | None => stray_read w b ofs s
                 end
            else stray_read w b ofs s
        | _ => stray_read w b ofs s
        end
    end.

(** [array[i].cacheLine;] on a [volatile cache_line_t *array]: the byte is
    read and its value, which is indeterminate, is discarded. *)
Definition probe_read (array : pointer) (i : Z) : M unit :=
  fun s =>
    match array with
    | Null => Crash NullDeref s
    | Ptr b ofs =>
        match heap s !! b with
        | Some (ORaw size) =>
            if (0 <=? ofs + slot_offset i) && (ofs + slot_offset i <? size)
            then Ret tt s
            else Crash BadAccess s
        | _ => Crash BadAccess s
        end
    end.

(** [p[i]] for [double *p]. *)
Definition load_double (p : pointer) (i : nat) : M double :=
  fun s =>
    match p with
    | Null => Crash NullDeref s
    | Ptr b ofs =>
        match heap s !! b with
        | Some (ODoubles ds) =>
            if ofs =? 0
            then match ds !! i with
                 | Some v => Ret v s
                 | None => Crash BadAccess s
                 end
            else Crash BadAccess s
        | _ => Crash BadAccess s
        end
    end.

(** [p[i] = x] for [double *p]. *)
Definition store_double (p : pointer) (i : nat) (x : double) : M unit :=
  fun s =>
    match p with
    | Null => Crash NullDeref s
    | Ptr b ofs =>
        match heap s !! b with
        | Some (ODoubles ds) =>
            if (ofs =? 0) && (Nat.ltb i (length ds))
            then Ret tt (set_heap (<[b := ODoubles (<[i := x]> ds)]> (heap s)) s)
            else Crash BadAccess s
        | _ => Crash BadAccess s
        end
    end.

Definition mach_absolute_time (w : world) : M Z :=
  fun s => Ret (wrap64 (ticks w (clock_reads s))) (tick s).

Definition log_decision (d : Z) : M unit :=
  fun s => Ret tt (log d s).

(** ** The program *)

(** [flush_cache_relaxed(start, len)]: [addr] runs from [(uint64_t)start]
    in steps of [CACHE_LINE_SIZE] while it is below [limit = addr + len],
    and one [DC CIVAC] is executed at each step. [DC CIVAC] is an access by
    address: it aborts on an address that is not mapped.

    - [start] is the null pointer: [addr] is 0 and [limit] is [len] (as a
      [uint64_t]); unless [limit] is 0 the first instruction is executed at
      address 0, which is not mapped, and the call ends there.
    - [start, start + len) lies inside a live object (for this program:
      the result of a [malloc] that succeeded, with [len = ARRAY_SIZE]):
      the addresses of an object do not wrap around and are mapped, so the
      loop executes one instruction per step and returns. Cache residency
      is not part of the state a C program can read (it shows only in the
      [ticks] the world returns), so the loop is modelled by the number of
      instructions it executes, counted by [flush_lines] on the offset
      [addr - start].
    - Any other range: how far the loop gets depends on addresses and
      mappings the heap does not have ([stray_flush]). *)
Fixpoint flush_lines (fuel : nat) (ofs len : Z) (n : Z) : Z :=
  match fuel with
  | O => n
  | S fuel' =>
      if ofs <? len
      then flush_lines fuel' (ofs + CACHE_LINE_SIZE) len (n + 1)
      else n
  end.

(** Size of an object in bytes. *)
Definition size_of (o : object) : Z :=
  match o with
  | OBytes bs => Z.of_nat (length bs)
  | ODoubles ds => 8 * Z.of_nat (length ds)
  | ORaw size => size
  end.

Definition stray_flushed (w : world) (b : nat) (ofs len : Z) : M unit :=
  fun s =>
    match stray_flush w (heap s) b ofs len with
    | FlushDone n => Ret tt (add_dc n s)
    | FlushFault n => Crash BadAccess (add_dc n s)
    | FlushHang => Crash NoReturn s
    end.

Definition flush_cache_relaxed (w : world) (start : pointer) (len : Z) : M unit :=
  fun s =>
    match start with
    | Null => if 0 <? wrap64 len then Crash NullDeref s else Ret tt s
    | Ptr b ofs =>
        match heap s !! b with
        | Some o =>
            if (0 <=? ofs) && (0 <=? len) && (ofs + len <=? size_of o)
            then Ret tt (add_dc (flush_lines (Z.to_nat (len / CACHE_LINE_SIZE + 1))
                                             0 len 0) s)
            else stray_flushed w b ofs len s
        | None => stray_flushed w b ofs len s
        end
    end.

(** [struct timer { uint64_t start; double rate; }] *)
Record timer_t : Type := {
  start : Z;
  rate : double
}.

(** [startTimer()]: [rate = (double)tbi.numer / tbi.denom] with the
    [uint32_t] fields of [mach_timebase_info_data_t]. *)
Definition startTimer (w : world) : M timer_t :=
  let numer := wrap32 (tb_numer w) in
  let denom := wrap32 (tb_denom w) in
  now <- mach_absolute_time w ;;
  ret {| start := now;
         rate := fdiv (double_of_Z numer) (double_of_Z denom) |}.

(** [timeElapsed(const timer_t *t)]: the subtraction is in [uint64_t], its
    result is converted to [double] and multiplied by the rate. *)
Definition timeElapsed (w : world) (t : timer_t) : M double :=
  now <- mach_absolute_time w ;;
  ret (fmul (double_of_Z (wrap64 (now - start t))) (rate t)).

Definition nslots : nat := Z.to_nat NUM_CACHE_LINES.

(** The timing loop of one iteration (main.c, lines 153-157). *)
Definition time_slot (w : world) (sum array : pointer) (i : nat) : M unit :=
  t <- startTimer w ;;
  probe_read array (Z.of_nat i) ;;;
  e <- timeElapsed w t ;;
  v <- load_double sum i ;;
  store_double sum i (fadd v e).

Definition time_slots (w : world) (sum array : pointer) : M unit :=
  for_loop nslots (fun i _ => time_slot w sum array i) tt.

(** One iteration of the measurement (main.c, lines 141-157). *)
Definition iteration (w : world) (addr sum : pointer) : M unit :=
  array <- malloc w ARRAY_SIZE ;;
  flush_cache_relaxed w array ARRAY_SIZE ;;;
  v <- load_byte w addr ;;
  probe_read array (byte_val v) ;;;
  time_slots w sum array.

Definition measure (w : world) (addr sum : pointer) : M unit :=
  for_loop ITERATIONS (fun _ _ => iteration w addr sum) tt.

(** The decision (main.c, lines 164-170); the local variables [bestIndex]
    and [best] are the pair threaded through the loop. *)
Definition consider (sum : pointer) (i : nat) (acc : Z * double) : M (Z * double) :=
  v <- load_double sum i ;;
  if flt v (snd acc) then ret (wrap8 (Z.of_nat i), v) else ret acc.

Definition find_best (sum : pointer) (bestIndex : Z) : M Z :=
  acc <- for_loop nslots (consider sum) (bestIndex, DBL_MAX) ;;
  ret (fst acc).

(** The body of the retry loop up to the test of [bestIndex]. *)
Definition attempt (w : world) (addr sum : pointer) (bestIndex : Z) : M Z :=
  measure w addr sum ;;;
  bi <- find_best sum bestIndex ;;
  log_decision bi ;;;
  ret bi.

(** [for (try = 0; try < RETRIES_IF_ZERO; try++) { ...; if (bestIndex != 0)
    break; }] with [n] the number of tries left. *)
Fixpoint try_loop (w : world) (addr sum : pointer) (n : nat) (bestIndex : Z) : M Z :=
  match n with
  | O => ret bestIndex
  | S n' =>
      bi <- attempt w addr sum bestIndex ;;
      if bi =? 0 then try_loop w addr sum n' bi else ret bi
  end.

Definition inferb (w : world) (addr : pointer) : M Z :=
  sum <- calloc_doubles w NUM_CACHE_LINES ;;
  try_loop w addr sum RETRIES_IF_ZERO (byte_val (junk w)).

(** The state in which [main] calls [inferb(&theByte)]: the caller's objects
    and nothing else. *)
Definition initial (objs : list object) : state :=
  {| heap := objs; clock_reads := 0; alloc_calls := 0; dc_ops := 0;
     decisions := [] |}.

(** The decision loop read as a function of the sample vector: [scan_from i
    ds acc] is the pair ([bestIndex], [best]) after the slots [i], [i+1], ...
    holding [ds] have been considered, starting from [acc]. *)
Fixpoint scan_from (i : nat) (ds : list double) (acc : Z * double) : Z * double :=
  match ds with
  | [] => acc
  | v :: ds' =>
      scan_from (S i) ds' (if flt v (snd acc) then (wrap8 (Z.of_nat i), v) else acc)
  end.

(** A sample vector in which slots 5 and 9 are tied at the minimum. *)
Definition tie_5_9 : list double :=
  map (fun i => if (i =? 5)%nat || (i =? 9)%nat
                then double_of_Z 10 else double_of_Z 1000)
      (seq 0 nslots).

Definition tie_state : state :=
  initial [OBytes [x2a]; ODoubles tie_5_9].

(** ** Vocabulary of the proofs *)

(** [addr] points to a byte of value [v] in the heap [h]. *)
Definition holds_byte (addr : pointer) (v : byte) (h : list object) : Prop :=
  match addr with
  | Null => False
  | Ptr b ofs =>
      exists bs, h !! b = Some (OBytes bs) /\ 0 <= ofs /\ bs !! Z.to_nat ofs = Some v
  end.

(** Block [sumb] of [h] is a sample vector of [nslots] doubles. *)
Definition sum_block (sumb : nat) (h : list object) : Prop :=
  exists ds, h !! sumb = Some (ODoubles ds) /\ length ds = nslots.

(** [h'] is [h] with blocks added at the end and block [sumb], if it is a
    sample vector, holding other samples; every other block is as in [h]. *)
Definition heap_step (sumb : nat) (h h' : list object) : Prop :=
  (length h <= length h')%nat /\
  (forall b, b <> sumb -> (b < length h)%nat -> h' !! b = h !! b) /\
  (sum_block sumb h -> sum_block sumb h').

(** The block a pointer stores to, if any, is [sumb]. *)
Definition targets (p : pointer) (sumb : nat) : Prop :=
  match p with Null => True | Ptr b _ => b = sumb end.

(** Whatever the outcome of [m], returned or crashed, the state it ends in
    is related to the state it started in by [R]. *)
Definition respects {A} (R : state -> state -> Prop) (m : M A) : Prop :=
  forall s, match m s with Ret _ s' => R s s' | Crash _ s' => R s s' end.

(** Clock reads, allocation calls and logged decisions between two states. *)
Definition counts (dr : Z) (da : nat) (dl : list Z) (s s' : state) : Prop :=
  clock_reads s' = clock_reads s + dr /\
  alloc_calls s' = (alloc_calls s + da)%nat /\
  decisions s' = decisions s ++ dl.

(** Between [s] and [s'] at most [n] decisions were logged. *)
Definition logged (n : nat) (s s' : state) : Prop :=
  exists l, decisions s' = decisions s ++ l /\ (length l <= n)%nat.

(** The caller of [main]: one byte object holding [VALUE]. *)
Definition main_state : state := initial [OBytes [x2a]].
Definition the_byte : pointer := Ptr 0 0.

(** A world in which the clock stands still and nothing fails. *)
Definition still : world :=
  {| ticks := fun _ => 1000; tb_numer := 125; tb_denom := 3;
     alloc_ok := fun _ => true; junk := x07;
     peek := fun _ _ _ => None; stray_flush := fun _ _ _ _ => FlushFault 0 |}.

(** A clock for the examples: the timer of the k-th timed access starts at
    tick [1000 * k] and is read [elapsed a i] ticks later, for slot [i] in
    attempt [a] (both counted from 0). *)
Definition paced (elapsed : Z -> Z -> Z) (r : Z) : Z :=
  let k := r / 2 in
  if Z.even r then 1000 * k
  else 1000 * k + elapsed (k / (Z.of_nat ITERATIONS * NUM_CACHE_LINES))
                          (k mod NUM_CACHE_LINES).

(** Attempt 1 finds slot 0 the fastest; later attempts find slot 200 so much
    faster that it has the smallest total after attempt 2. *)
Definition early : world :=
  {| ticks := paced (fun a i => if a =? 0 then (if i =? 0 then 40 else 100)
                                else (if i =? 200 then 10 else 100));
     tb_numer := 125; tb_denom := 3;
     alloc_ok := fun _ => true; junk := x07;
     peek := fun _ _ _ => None; stray_flush := fun _ _ _ _ => FlushFault 0 |}.

(** Attempt 1 finds slot 0 much the fastest; later attempts find slot 200
    the fastest, but by less. *)
Definition carry : world :=
  {| ticks := paced (fun a i => if a =? 0 then (if i =? 0 then 10 else 100)
                                else (if i =? 200 then 40 else 100));
     tb_numer := 125; tb_denom := 3;
     alloc_ok := fun _ => true; junk := x07;
     peek := fun _ _ _ => None; stray_flush := fun _ _ _ _ => FlushFault 0 |}.

(** [calloc] succeeds and the first [malloc] fails. *)
Definition nomem : world :=
  {| ticks := fun _ => 1000; tb_numer := 125; tb_denom := 3;
     alloc_ok := fun k => (k =? 0)%nat; junk := x07;
     peek := fun _ _ _ => None; stray_flush := fun _ _ _ _ => FlushFault 0 |}.

(** What a run shows: the value returned, if any, the decisions logged, and
    the numbers of allocation calls and of clock reads. *)
Definition report (o : outcome Z) : option Z * list Z * nat * Z :=
  (match o with Ret b _ => Some b | Crash _ _ => None end,
   decisions (final_state o), alloc_calls (final_state o),
   clock_reads (final_state o)).

(** The sample vector cleared, as at the start of the first attempt. *)
Definition zero_sum (sumb : nat) (s : state) : state :=
  set_heap (<[sumb := ODoubles (repeat dzero nslots)]> (heap s)) s.

(** The first two attempts of [inferb] in the world [carry], and the second
    one again from a cleared sample vector: the decision of attempt 1, the
    total of slot 1 at the start of attempt 2, the decision of attempt 2,
    and the decision attempt 2 would take on its own measurements. *)
Definition carry_report :=
  match calloc_doubles carry NUM_CACHE_LINES main_state
        return option (Z * option double * option Z * option Z) with
  | Ret sum s0 =>
      match attempt carry the_byte sum (byte_val (junk carry)) s0
            return option (Z * option double * option Z * option Z) with
      | Ret d1 s1 =>
          Some (d1,
                match load_double sum 1 s1 return option double with
                | Ret x _ => Some x
                | Crash _ _ => None
                end,
                match attempt carry the_byte sum d1 s1 return option Z with
                | Ret d2 _ => Some d2
                | Crash _ _ => None
                end,
                match attempt carry the_byte sum d1 (zero_sum 1 s1)
                      return option Z with
                | Ret d2 _ => Some d2
                | Crash _ _ => None
                end)
      | Crash _ _ => None
      end
  | Crash _ _ => None
  end.

(** ** Rounding to nearest even, as arithmetic

    What [binary_round_aux] of the Standard Library computes bit by bit, for
    a positive value [M * 2 ^ E] in binary64: the exponent [dfexp] of the
    format, the mantissa [rne] rounded to nearest even at that exponent, the
    carry into the next binade ([round_pair]) and the overflow to infinity
    ([pack]). *)

Definition femin : Z := 3 - demax - dprec.
Definition dfexp (L : Z) : Z := Z.max (L - dprec) femin.
Definition ndigits (M : Z) : Z := Z.log2 M + 1.

Definition rne (M n : Z) : Z :=
  if n <=? 0 then M * 2 ^ (- n)
  else
    let q := M / 2 ^ n in
    if Z.testbit M (n - 1)
    then (if M mod 2 ^ (n - 1) =? 0
          then (if Z.even q then q else q + 1)
          else q + 1)
    else q.

Definition round_pair (M E : Z) : Z * Z :=
  let eps := dfexp (ndigits M + E) in
  let q := rne M (eps - E) in
  if q =? 2 ^ dprec then (2 ^ (dprec - 1), eps + 1) else (q, eps).

Definition pack (p : Z * Z) : double :=
  match fst p with
  | Z0 => S754_zero false
  | Zpos m =>
      if snd p <=? demax - dprec then S754_finite false m (snd p)
      else S754_infinity false
  | Zneg _ => S754_nan
  end.

(** Order of the results of [round_pair]. *)
Definition ple (p1 p2 : Z * Z) : Prop :=
  (fst p1 = 0 /\ 0 <= fst p2) \/
  (0 < fst p1 /\ 0 < fst p2 /\
   (snd p1 < snd p2 \/ (snd p1 = snd p2 /\ fst p1 <= fst p2))).

(** A rate that is a number and is not below zero. *)
Definition nonneg_rate (x : double) : bool :=
  is_finite x && negb (flt x dzero).

(** A handle started at tick 100 on a machine with a 125/3 time base. *)
Definition handle_100 : timer_t :=
  {| start := 100; rate := fdiv (double_of_Z 125) (double_of_Z 3) |}.

(** A clock that shows 350 and then 900. *)
Definition two_reads : world :=
  {| ticks := fun k => if k =? 0 then 350 else 900;
     tb_numer := 125; tb_denom := 3;
     alloc_ok := fun _ => true; junk := x07;
     peek := fun _ _ _ => None; stray_flush := fun _ _ _ _ => FlushFault 0 |}.

(** The sample vector holds only zeros. *)
Definition zero_sums (sumb : nat) (h : list object) : Prop :=
  h !! sumb = Some (ODoubles (repeat dzero nslots)).

(** ** The flush loop on addresses *)

(** The loop of [flush_cache_relaxed] on the addresses themselves
    ([uint64_t addr], [uint64_t limit]): the addresses at which [DC CIVAC]
    is executed, in order. *)
Fixpoint flush_addrs (fuel : nat) (addr limit : Z) : list Z :=
  match fuel with
  | O => []
  | S fuel' =>
      if addr <? limit
      then addr :: flush_addrs fuel' (wrap64 (addr + CACHE_LINE_SIZE)) limit
      else []
  end.

Definition flushed (start len : Z) : list Z :=
  flush_addrs (Z.to_nat (len / CACHE_LINE_SIZE + 1))
              (wrap64 start) (wrap64 (wrap64 start + len)).

(** Number of cache lines of [len] bytes, the last one possibly partial. *)
Definition lines_of (len : Z) : Z := (len + (CACHE_LINE_SIZE - 1)) / CACHE_LINE_SIZE.

(** ** The order of doubles *)

(** The order of the doubles that are not NaN, as a lexicographic order on
    integers: the class (negative infinity, negative, zero, positive,
    positive infinity), then the exponent, then the mantissa. *)
Definition order_key (x : double) : Z * Z * Z :=
  match x with
  | S754_infinity true => (-2, 0, 0)
  | S754_finite true m e => (-1, - e, - Zpos m)
  | S754_zero _ => (0, 0, 0)
  | S754_finite false m e => (1, e, Zpos m)
  | S754_infinity false => (2, 0, 0)
  | S754_nan => (0, 0, 0)
  end.

Definition key_lt (p q : Z * Z * Z) : Prop :=
  fst (fst p) < fst (fst q) \/
  (fst (fst p) = fst (fst q) /\
   (snd (fst p) < snd (fst q) \/
    (snd (fst p) = snd (fst q) /\ snd p < snd q))).

(** A total that can never be selected: positive infinity or NaN. *)
Definition no_time (x : double) : bool :=
  match x with
  | S754_infinity false | S754_nan => true
  | _ => false
  end.

(** ** The measurement as a function of the clock

    What the timing loops compute, read as functions of the tick source:
    [rate_of w] is the rate every handle of [startTimer] gets, [sample w c]
    the elapsed time [timeElapsed] returns when the handle was started at
    clock read [c] and is queried at clock read [c + 1], [add_samples] the
    sample vector after the loop of lines 153-157 started at clock read [c],
    and [sums_after w n c ds] the sample vector after [n] iterations. *)
Definition rate_of (w : world) : double :=
  fdiv (double_of_Z (wrap32 (tb_numer w))) (double_of_Z (wrap32 (tb_denom w))).

Definition sample (w : world) (c : Z) : double :=
  fmul (double_of_Z (wrap64 (wrap64 (ticks w (c + 1)) - wrap64 (ticks w c))))
       (rate_of w).

Definition add_samples (w : world) (c : Z) (ds : list double) : list double :=
  imap (fun i v => fadd v (sample w (c + 2 * Z.of_nat i))) ds.

Fixpoint sums_after (w : world) (n : nat) (c : Z) (ds : list double) : list double :=
  match n with
  | O => ds
  | S n' =>
      add_samples w (c + Z.of_nat n' * (2 * NUM_CACHE_LINES)) (sums_after w n' c ds)
  end.

(** The decision of attempt [k + 1] of a retry loop entered at clock read
    [c] with the sample vector [ds] and with [bestIndex = bi]: the result
    of the decision loop on the totals after [(k + 1) * ITERATIONS] passes.
    In attempt 1 [bestIndex] starts as [bi]; a later attempt is only made
    after a decision of 0, which [bestIndex] then holds. *)
Definition decision_from (w : world) (c : Z) (ds : list double) (bi : Z) (k : nat) : Z :=
  fst (scan_from 0 (sums_after w (S k * ITERATIONS) c ds)
         (match k with O => bi | S _ => 0 end, DBL_MAX)).

(** The decision of attempt [k + 1] of a call of [inferb] made at clock
    read [c]. *)
Definition decision_of (w : world) (c : Z) (k : nat) : Z :=
  decision_from w c (repeat dzero nslots) (byte_val (junk w)) k.

(** The state after a run that read the clock [dr] times, made [da]
    allocation calls, executed [dd] cache-maintenance instructions, logged
    nothing and left the heap [h]. *)
Definition advanced (dr : Z) (da : nat) (dd : Z) (h : list object) (s s' : state) : Prop :=
  heap s' = h /\
  clock_reads s' = clock_reads s + dr /\
  alloc_calls s' = (alloc_calls s + da)%nat /\
  dc_ops s' = dc_ops s + dd /\
  decisions s' = decisions s.

(** A world whose time base has denominator 0. *)
Definition no_rate : world :=
  {| ticks := fun k => 1000 + 7 * k; tb_numer := 125; tb_denom := 0;
     alloc_ok := fun _ => true; junk := x07;
     peek := fun _ _ _ => None; stray_flush := fun _ _ _ _ => FlushFault 0 |}.

(** [calloc] fails and [malloc] succeeds. *)
Definition nosum : world :=
  {| ticks := fun _ => 1000; tb_numer := 125; tb_denom := 3;
     alloc_ok := fun k => negb (k =? 0)%nat; junk := x07;
     peek := fun _ _ _ => None; stray_flush := fun _ _ _ _ => FlushFault 0 |}.

(** A sample vector of zeros and a probe array, as in the first iteration. *)
Definition first_pass : state :=
  initial [ODoubles (repeat dzero nslots); ORaw ARRAY_SIZE].

(** ** [main]

    What [main] hands to [printf] (main.c, lines 193-198): [result] is
    [true] for the check mark and [false] for the cross; the formatting of
    the line is not modelled. *)
Record printed : Type := {
  result : bool;
  inferredValue : Z;
  secs : double;
  shown_spacing : Z;
  shown_iterations : Z;
  shown_retries : Z
}.

(** [main] (main.c, lines 185-199), to be run from [main_state], where
    [theByte] holds [VALUE]. *)
Definition main (w : world) : M printed :=
  t0 <- startTimer w ;;
  b <- inferb w the_byte ;;
  timeTaken <- timeElapsed w t0 ;;
  cur <- load_byte w the_byte ;;
  ret {| result := b =? byte_val cur;
         inferredValue := b;
         secs := fdiv timeTaken (double_of_Z (1000 * 1000 * 1000));
         shown_spacing := SPACING;
         shown_iterations := Z.of_nat ITERATIONS;
         shown_retries := Z.of_nat RETRIES_IF_ZERO |}.

(** * Properties *)

(** ** Layout of the probe array *)

Lemma sizeof_cache_line_t_eq : sizeof_cache_line_t = SPACING.
Proof. reflexivity. Qed.

Lemma byte_val_range (b : byte) : 0 <= byte_val b < NUM_CACHE_LINES.
Proof.
  unfold byte_val, NUM_CACHE_LINES, UINT8_MAX.
  pose proof (Byte.to_N_bounded b) as Hb.
  apply N2Z.inj_le in Hb. simpl in Hb. lia.
Qed.

Lemma slot_offset_in_bounds (i : Z) :
  0 <= i < NUM_CACHE_LINES ->
  0 <= slot_offset i /\ slot_offset i + 1 <= ARRAY_SIZE.
Proof.
  unfold slot_offset, ARRAY_SIZE, NUM_CACHE_LINES, UINT8_MAX,
    sizeof_cache_line_t, offsetof_cacheLine, SPACING. lia.
Qed.

Lemma cache_line_of_far (a b : Z) :
  CACHE_LINE_SIZE <= b - a -> cache_line_of a <> cache_line_of b.
Proof.
  unfold cache_line_of, CACHE_LINE_SIZE. intros Hfar Heq.
  pose proof (Z.div_mod a 64 ltac:(lia)) as Ha.
  pose proof (Z.div_mod b 64 ltac:(lia)) as Hb.
  pose proof (Z.mod_pos_bound a 64 ltac:(lia)).
  pose proof (Z.mod_pos_bound b 64 ltac:(lia)).
  rewrite Heq in Ha. lia.
Qed.

(** C6. The probe array has [NUM_CACHE_LINES = 256] slots and is exactly that
    many [cache_line_t]; the distinguishing byte of slot [i] is at offset
    [i * SPACING]; for two different slots these bytes are at least [SPACING]
    apart, the slots' byte ranges do not overlap, and wherever the array is
    placed the two bytes fall in different cache lines. *)
Theorem C6_probe_array_layout :
  NUM_CACHE_LINES = 256 /\
  ARRAY_SIZE = NUM_CACHE_LINES * SPACING /\
  forall i j : Z,
    0 <= i < NUM_CACHE_LINES -> 0 <= j < NUM_CACHE_LINES -> i <> j ->
    slot_offset i = i * SPACING /\
    SPACING <= Z.abs (slot_offset i - slot_offset j) /\
    (slot_offset i + sizeof_cache_line_t <= slot_offset j \/
     slot_offset j + sizeof_cache_line_t <= slot_offset i) /\
    slot_offset i + sizeof_cache_line_t <= ARRAY_SIZE /\
    forall base : Z,
      cache_line_of (base + slot_offset i) <> cache_line_of (base + slot_offset j).
Proof.
  split; [reflexivity|]. split; [reflexivity|].
  intros i j Hi Hj Hij.
  assert (Hs : sizeof_cache_line_t = 16384) by reflexivity.
  assert (Hn : NUM_CACHE_LINES = 256) by reflexivity.
  assert (Hsp : SPACING = 16384) by reflexivity.
  assert (Ha : ARRAY_SIZE = 4194304) by reflexivity.
  unfold slot_offset, offsetof_cacheLine. rewrite Hs, Hsp, Ha.
  rewrite Hn in Hi, Hj.
  repeat split; try lia.
  intros base.
  destruct (Z_lt_le_dec i j).
  - apply cache_line_of_far. unfold CACHE_LINE_SIZE. lia.
  - intros Heq. symmetry in Heq. revert Heq.
    apply cache_line_of_far. unfold CACHE_LINE_SIZE. lia.
Qed.

(** The hypotheses of C6 hold of slots 0 and 255. *)
Lemma C6_probe_array_layout_witness :
  0 <= 0 < NUM_CACHE_LINES /\ 0 <= 255 < NUM_CACHE_LINES /\ 0 <> 255 /\
  SPACING <= Z.abs (slot_offset 0 - slot_offset 255).
Proof.
  assert (H0 : 0 <= 0 < NUM_CACHE_LINES)
    by (unfold NUM_CACHE_LINES, UINT8_MAX; lia).
  assert (H1 : 0 <= 255 < NUM_CACHE_LINES)
    by (unfold NUM_CACHE_LINES, UINT8_MAX; lia).
  assert (H2 : 0 <> 255) by lia.
  split; [exact H0|]. split; [exact H1|]. split; [exact H2|].
  destruct C6_probe_array_layout as (_ & _ & H).
  exact (proj1 (proj2 (H 0 255 H0 H1 H2))).
Defined.

(** ** The timer *)

Lemma startTimer_eq (w : world) (s : state) :
  startTimer w s =
  Ret {| start := wrap64 (ticks w (clock_reads s));
         rate := fdiv (double_of_Z (wrap32 (tb_numer w)))
                      (double_of_Z (wrap32 (tb_denom w))) |}
      (tick s).
Proof. reflexivity. Qed.

Lemma timeElapsed_eq (w : world) (t : timer_t) (s : state) :
  timeElapsed w t s =
  Ret (fmul (double_of_Z (wrap64 (wrap64 (ticks w (clock_reads s)) - start t)))
            (rate t))
      (tick s).
Proof. reflexivity. Qed.

(** C7. [timeElapsed] on a handle [h] returns
    [(currentTicks - h.start) * h.rate], the subtraction in [uint64_t] and the
    product in [double]; the rate of a handle made by [startTimer] is the
    platform's [numer / denom] and its start the tick count of that moment.
    The query only reads the clock: the handle can be queried again, and the
    second query is computed from the same [start] and [rate]. *)
Theorem C7_timeElapsed_formula (w : world) (h : timer_t) (s : state) :
  let now1 := wrap64 (ticks w (clock_reads s)) in
  let now2 := wrap64 (ticks w (clock_reads s + 1)) in
  timeElapsed w h s =
    Ret (fmul (double_of_Z (wrap64 (now1 - start h))) (rate h)) (tick s) /\
  (e1 <- timeElapsed w h ;; e2 <- timeElapsed w h ;; ret (e1, e2)) s =
    Ret (fmul (double_of_Z (wrap64 (now1 - start h))) (rate h),
         fmul (double_of_Z (wrap64 (now2 - start h))) (rate h))
        (tick (tick s)) /\
  heap (tick s) = heap s /\
  (h' <- startTimer w ;; ret (start h', rate h')) s =
    Ret (now1, fdiv (double_of_Z (wrap32 (tb_numer w)))
                    (double_of_Z (wrap32 (tb_denom w))))
        (tick s).
Proof. repeat split. Qed.

(** 250 ticks after the start, on a 125/3 time base: 10416.67 ns. *)
Example elapsed_250_ticks :
  timeElapsed two_reads handle_100 (initial []) =
  Ret (S754_finite false 5726623061333333 (-39)) (tick (initial [])).
Proof. reflexivity. Qed.

(** ** Comparison of doubles *)

Lemma SFcompare_antisym (x y : double) :
  SFcompare y x = option_map CompOpp (SFcompare x y).
Proof.
  destruct x as [sx|sx| |sx mx ex], y as [sy|sy| |sy my ey]; simpl;
    try reflexivity;
    try (destruct sx; reflexivity); try (destruct sy; reflexivity);
    try (destruct sx, sy; reflexivity).
  destruct sx, sy; simpl; try reflexivity;
    rewrite (Z.compare_antisym ex ey);
    destruct (ex ?= ey); simpl; try reflexivity;
    change (PosDef.Pos.compare_cont Eq mx my) with (Pos.compare_cont Eq mx my);
    rewrite (Pos.compare_cont_antisym mx my Eq); reflexivity.
Qed.

Lemma flt_not_nan (x y : double) :
  flt x y = true -> is_nan x = false /\ is_nan y = false.
Proof.
  unfold flt, SFltb. destruct x, y; simpl; intros H; try discriminate; auto.
Qed.

Lemma SFcompare_defined (x y : double) :
  is_nan x = false -> is_nan y = false -> exists c, SFcompare x y = Some c.
Proof.
  destruct x, y; simpl; intros; try discriminate; eauto.
Qed.

(** An entry that is neither below nor tied with [m] is above it, unless it
    is a NaN. *)
Lemma fle_false_flt (v m : double) :
  fle v m = false -> is_nan v = false -> is_nan m = false -> flt m v = true.
Proof.
  intros Hle Hv Hm. unfold fle, SFleb in Hle. unfold flt, SFltb.
  rewrite (SFcompare_antisym v m).
  destruct (SFcompare_defined v m Hv Hm) as [c Hc]. rewrite Hc in *.
  destruct c; simpl; congruence.
Qed.

(** ** The decision step *)

Lemma load_double_ok (b : nat) (ds : list double) (i : nat) (v : double) (s : state) :
  heap s !! b = Some (ODoubles ds) -> ds !! i = Some v ->
  load_double (Ptr b 0) i s = Ret v s.
Proof. intros Hb Hv. unfold load_double. rewrite Hb. simpl. rewrite Hv. reflexivity. Qed.

Lemma for_consider (b : nat) (ds : list double) (s : state) :
  heap s !! b = Some (ODoubles ds) ->
  forall (tl : list double) (i : nat) (acc : Z * double),
    drop i ds = tl ->
    for_from i (length tl) (consider (Ptr b 0)) acc s = Ret (scan_from i tl acc) s.
Proof.
  intros Hb tl. induction tl as [|v tl IH]; intros i acc Hdrop; [reflexivity|].
  assert (Hv : ds !! i = Some v).
  { rewrite <- (Nat.add_0_r i), <- lookup_drop, Hdrop. reflexivity. }
  assert (Htl : drop (S i) ds = tl).
  { rewrite (drop_S _ _ _ Hv) in Hdrop. congruence. }
  simpl. unfold bind at 1. unfold consider at 1. unfold bind at 1.
  rewrite (load_double_ok b ds i v s Hb Hv).
  destruct (flt v (snd acc)); unfold ret at 1; apply IH; exact Htl.
Qed.

Lemma find_best_scan (b : nat) (ds : list double) (bi : Z) (s : state) :
  heap s !! b = Some (ODoubles ds) -> length ds = nslots ->
  find_best (Ptr b 0) bi s = Ret (fst (scan_from 0 ds (bi, DBL_MAX))) s.
Proof.
  intros Hb Hlen. unfold find_best, for_loop, bind.
  rewrite <- Hlen, (for_consider b ds s Hb ds 0 (bi, DBL_MAX) (drop_0 ds)).
  reflexivity.
Qed.

(** Entries that are not below the current best leave it in place. *)
Lemma scan_from_keep (m : double) (tl : list double) :
  (forall v, In v tl -> flt v m = false) ->
  forall (i : nat) (k : Z), scan_from i tl (k, m) = (k, m).
Proof.
  induction tl as [|v tl IH]; intros Hall i k; [reflexivity|].
  simpl. rewrite (Hall v (or_introl eq_refl)). apply IH.
  intros v' Hin. apply Hall. right. exact Hin.
Qed.

(** Entries above [m] keep the current best above [m]. *)
Lemma scan_from_above (m : double) (pre : list double) :
  is_nan m = false ->
  (forall v, In v pre -> fle v m = false) ->
  forall (i : nat) (acc : Z * double),
    flt m (snd acc) = true -> flt m (snd (scan_from i pre acc)) = true.
Proof.
  intros Hm. induction pre as [|v pre IH]; intros Hall i acc Hacc; [exact Hacc|].
  simpl. apply IH.
  - intros v' Hin. apply Hall. right. exact Hin.
  - destruct (flt v (snd acc)) eqn:Hlt; [|exact Hacc].
    simpl. apply fle_false_flt; [apply Hall; left; reflexivity | | exact Hm].
    apply (flt_not_nan _ _ Hlt).
Qed.

Lemma scan_from_app (pre post : list double) :
  forall (i : nat) (acc : Z * double),
    scan_from i (pre ++ post) acc =
    scan_from (i + length pre) post (scan_from i pre acc).
Proof.
  induction pre as [|v pre IH]; intros i acc; simpl.
  - rewrite Nat.add_0_r. reflexivity.
  - rewrite IH. f_equal. lia.
Qed.

Lemma scan_from_first_min (ds : list double) (k : nat) (m : double) (bi : Z) :
  (k < nslots)%nat ->
  ds !! k = Some m ->
  flt m DBL_MAX = true ->
  (forall j v, ds !! j = Some v -> flt v m = false) ->
  (forall j v, (j < k)%nat -> ds !! j = Some v -> fle v m = false) ->
  scan_from 0 ds (bi, DBL_MAX) = (Z.of_nat k, m).
Proof.
  intros Hk Hm Hmax Hmin Hfirst.
  rewrite <- (take_drop_middle ds k m Hm).
  assert (Hlen : length (take k ds) = k).
  { rewrite length_take. apply lookup_lt_Some in Hm. lia. }
  rewrite scan_from_app. simpl. rewrite Hlen.
  assert (Habove : flt m (snd (scan_from 0 (take k ds) (bi, DBL_MAX))) = true).
  { apply scan_from_above; [apply (flt_not_nan _ _ Hmax) | | exact Hmax].
    intros v Hin. apply list_elem_of_In, list_elem_of_lookup in Hin.
    destruct Hin as [j Hj]. apply lookup_take_Some in Hj.
    destruct Hj as [Hj Hjk]. apply (Hfirst j v Hjk Hj). }
  rewrite Habove.
  assert (Hw : wrap8 (Z.of_nat k) = Z.of_nat k).
  { unfold wrap8. apply Z.mod_small. unfold nslots in Hk. 
    change (Z.to_nat NUM_CACHE_LINES) with 256%nat in Hk. lia. }
  rewrite Hw. apply scan_from_keep.
  intros v Hin. apply list_elem_of_In, list_elem_of_lookup in Hin.
  destruct Hin as [j Hj]. rewrite lookup_drop in Hj. apply (Hmin _ _ Hj).
Qed.

(** C3. The decision step returns the index of the first entry that holds
    the minimum of the sample vector: if entry [k] is below [DBL_MAX] (the
    initial [best]), no entry is strictly below it, and no entry before [k]
    is below or tied with it, then [find_best] returns [k] whatever
    [bestIndex] held before; every entry tied with it has an index of at
    least [k]. With slots 5 and 9 tied at the minimum the result is 5. *)
Theorem C3_decision_first_minimum
    (b k : nat) (ds : list double) (m : double) (bi : Z) (s : state) :
  heap s !! b = Some (ODoubles ds) ->
  length ds = nslots ->
  ds !! k = Some m ->
  flt m DBL_MAX = true ->
  Forall (fun v => flt v m = false) ds ->
  Forall (fun v => fle v m = false) (take k ds) ->
  find_best (Ptr b 0) bi s = Ret (Z.of_nat k) s /\
  forall j v, ds !! j = Some v -> SFeqb v m = true -> (k <= j)%nat.
Proof.
  intros Hb Hlen Hk Hmax Hmin Hfirst.
  assert (Hkn : (k < nslots)%nat) by (rewrite <- Hlen; eapply lookup_lt_Some; eauto).
  split.
  - rewrite (find_best_scan b ds bi s Hb Hlen).
    rewrite (scan_from_first_min ds k m bi Hkn Hk Hmax); [reflexivity| |].
    + intros j v Hj. rewrite Forall_forall in Hmin. apply Hmin.
      apply list_elem_of_lookup. eauto.
    + intros j v Hjk Hj. rewrite Forall_forall in Hfirst. apply Hfirst.
      apply list_elem_of_lookup. exists j.
      apply lookup_take_Some. auto.
  - intros j v Hj Htie. destruct (le_lt_dec k j) as [|Hjk]; [assumption|].
    exfalso. rewrite Forall_forall in Hfirst.
    assert (Hle : fle v m = false).
    { apply Hfirst. apply list_elem_of_lookup. exists j.
      apply lookup_take_Some. auto. }
    unfold fle, SFleb in Hle. unfold SFeqb in Htie.
    destruct (SFcompare v m) as [[| |]|]; discriminate.
Qed.

(** C3 at a vector with slots 5 and 9 tied at the minimum: slot 5 is chosen. *)
Lemma C3_decision_first_minimum_witness :
  tie_5_9 !! 5%nat = tie_5_9 !! 9%nat /\
  find_best (Ptr 1 0) 77 tie_state = Ret 5 tie_state.
Proof.
  split; [reflexivity|].
  refine (proj1 (C3_decision_first_minimum 1 5 tie_5_9 (double_of_Z 10) 77
                   tie_state _ _ _ _ _ _)).
  - reflexivity.
  - reflexivity.
  - reflexivity.
  - reflexivity.
  - apply (bool_decide_unpack _). vm_compute. exact I.
  - apply (bool_decide_unpack _). vm_compute. exact I.
Defined.

(** ** Effects on memory, whatever the outcome *)

Section Respects.
Variable R : state -> state -> Prop.
Hypothesis R_refl : forall s, R s s.
Hypothesis R_trans : forall s1 s2 s3, R s1 s2 -> R s2 s3 -> R s1 s3.

Lemma respects_ret {A} (a : A) : respects R (ret a).
Proof. intros s. apply R_refl. Qed.

Lemma respects_bind {A B} (m : M A) (k : A -> M B) :
  respects R m -> (forall a, respects R (k a)) -> respects R (bind m k).
Proof.
  intros Hm Hk s. unfold bind. specialize (Hm s).
  destruct (m s) as [a s1|f s1]; [|exact Hm].
  specialize (Hk a s1). destruct (k a s1); eapply R_trans; eauto.
Qed.

Lemma respects_for_from {A} (body : nat -> A -> M A) :
  (forall i a, respects R (body i a)) ->
  forall n i a, respects R (for_from i n body a).
Proof.
  intros Hbody n. induction n as [|n IH]; intros i a; simpl.
  - apply respects_ret.
  - apply respects_bind; auto.
Qed.
End Respects.

Lemma heap_step_refl (sumb : nat) (h : list object) : heap_step sumb h h.
Proof. repeat split; auto. Qed.

Lemma heap_step_trans (sumb : nat) (h1 h2 h3 : list object) :
  heap_step sumb h1 h2 -> heap_step sumb h2 h3 -> heap_step sumb h1 h3.
Proof.
  intros (L1 & K1 & S1) (L2 & K2 & S2). repeat split.
  - lia.
  - intros b Hb Hlt. rewrite K2, K1; auto. lia.
  - auto.
Qed.

Lemma heap_step_app (sumb : nat) (h : list object) (o : object) :
  heap_step sumb h (h ++ [o]).
Proof.
  repeat split.
  - rewrite length_app. lia.
  - intros b _ Hlt. apply lookup_app_l. exact Hlt.
  - intros (ds & Hds & Hlen). exists ds. split; [|exact Hlen].
    rewrite lookup_app_l; [exact Hds|]. eapply lookup_lt_Some; eauto.
Qed.

Lemma heap_step_store (sumb : nat) (h : list object) (ds : list double) (i : nat) (x : double) :
  h !! sumb = Some (ODoubles ds) ->
  heap_step sumb h (<[sumb := ODoubles (<[i := x]> ds)]> h).
Proof.
  intros Hds. repeat split.
  - rewrite length_insert. lia.
  - intros b Hb _. apply list_lookup_insert_ne. congruence.
  - intros (ds' & Hds' & Hlen). exists (<[i := x]> ds). split.
    + apply list_lookup_insert_eq. eapply lookup_lt_Some; eauto.
    + rewrite length_insert. congruence.
Qed.

Definition steps (sumb : nat) (s s' : state) : Prop :=
  heap_step sumb (heap s) (heap s').

Lemma steps_refl (sumb : nat) (s : state) : steps sumb s s.
Proof. apply heap_step_refl. Qed.

Lemma steps_trans (sumb : nat) (s1 s2 s3 : state) :
  steps sumb s1 s2 -> steps sumb s2 s3 -> steps sumb s1 s3.
Proof. apply heap_step_trans. Qed.

Lemma steps_sum_block (sumb : nat) (s s' : state) :
  steps sumb s s' -> sum_block sumb (heap s) -> sum_block sumb (heap s').
Proof. intros (_ & _ & H). exact H. Qed.

Lemma respects_malloc (sumb : nat) (w : world) (size : Z) :
  respects (steps sumb) (malloc w size).
Proof.
  intros s. unfold malloc. destruct (alloc_ok w (alloc_calls s)); simpl.
  - apply heap_step_app.
  - apply heap_step_refl.
Qed.

Lemma respects_stray_flushed (sumb : nat) (w : world) (b : nat) (ofs len : Z) :
  respects (steps sumb) (stray_flushed w b ofs len).
Proof.
  intros s. unfold stray_flushed.
  destruct (stray_flush w (heap s) b ofs len); apply heap_step_refl.
Qed.

Lemma respects_flush_cache_relaxed (sumb : nat) (w : world) (p : pointer) (len : Z) :
  respects (steps sumb) (flush_cache_relaxed w p len).
Proof.
  intros s. unfold flush_cache_relaxed.
  destruct p as [|b ofs].
  - destruct (0 <? wrap64 len); apply heap_step_refl.
  - destruct (heap s !! b) as [o|]; [|apply respects_stray_flushed].
    destruct ((0 <=? ofs) && (0 <=? len) && (ofs + len <=? size_of o));
      [apply heap_step_refl | apply respects_stray_flushed].
Qed.

Lemma respects_stray_read (sumb : nat) (w : world) (b : nat) (ofs : Z) :
  respects (steps sumb) (stray_read w b ofs).
Proof.
  intros s. unfold stray_read.
  destruct (peek w (heap s) b ofs); apply heap_step_refl.
Qed.

Lemma respects_load_byte (sumb : nat) (w : world) (p : pointer) :
  respects (steps sumb) (load_byte w p).
Proof.
  intros s. unfold load_byte.
  destruct p as [|b ofs]; [apply heap_step_refl|].
  destruct (heap s !! b) as [[bs|ds|sz]|]; try apply respects_stray_read.
  destruct (0 <=? ofs); [|apply respects_stray_read].
  destruct (bs !! Z.to_nat ofs); [apply heap_step_refl | apply respects_stray_read].
Qed.

Lemma respects_probe_read (sumb : nat) (p : pointer) (i : Z) :
  respects (steps sumb) (probe_read p i).
Proof.
  intros s. unfold probe_read.
  destruct p as [|b ofs]; [apply heap_step_refl|].
  destruct (heap s !! b) as [[bs|ds|sz]|]; try apply heap_step_refl.
  destruct ((0 <=? ofs + slot_offset i) && (ofs + slot_offset i <? sz));
    apply heap_step_refl.
Qed.

Lemma respects_load_double (sumb : nat) (p : pointer) (i : nat) :
  respects (steps sumb) (load_double p i).
Proof.
  intros s. unfold load_double.
  destruct p as [|b ofs]; [apply heap_step_refl|].
  destruct (heap s !! b) as [[bs|ds|sz]|]; try apply heap_step_refl.
  destruct (ofs =? 0); [|apply heap_step_refl].
  destruct (ds !! i); apply heap_step_refl.
Qed.

Lemma respects_store_double (sumb : nat) (p : pointer) (i : nat) (x : double) :
  targets p sumb -> respects (steps sumb) (store_double p i x).
Proof.
  intros Ht s. unfold store_double.
  destruct p as [|b ofs]; [apply heap_step_refl|]. simpl in Ht. subst b.
  destruct (heap s !! sumb) as [[bs|ds|sz]|] eqn:Hb; try apply heap_step_refl.
  destruct ((ofs =? 0) && (i <? length ds)%nat); [|apply heap_step_refl].
  simpl. unfold steps. simpl. apply heap_step_store. exact Hb.
Qed.

Lemma respects_mach_absolute_time (sumb : nat) (w : world) :
  respects (steps sumb) (mach_absolute_time w).
Proof. intros s. apply heap_step_refl. Qed.

Lemma respects_log_decision (sumb : nat) (d : Z) :
  respects (steps sumb) (log_decision d).
Proof. intros s. apply heap_step_refl. Qed.

Ltac respects_step :=
  lazymatch goal with
  | |- respects _ (bind _ _) =>
      simple apply respects_bind; [apply steps_trans | | intros ?]
  | |- respects _ (for_from _ _ _ _) =>
      simple apply respects_for_from;
      [apply steps_refl | apply steps_trans | intros ? ?]
  | |- respects _ (ret _) => simple apply respects_ret; apply steps_refl
  | |- respects _ (malloc _ _) => simple apply respects_malloc
  | |- respects _ (flush_cache_relaxed _ _ _) =>
      simple apply respects_flush_cache_relaxed
  | |- respects _ (load_byte _ _) => simple apply respects_load_byte
  | |- respects _ (probe_read _ _) => simple apply respects_probe_read
  | |- respects _ (load_double _ _) => simple apply respects_load_double
  | |- respects _ (store_double _ _ _) =>
      simple apply respects_store_double; assumption
  | |- respects _ (mach_absolute_time _) =>
      simple apply respects_mach_absolute_time
  | |- respects _ (log_decision _) => simple apply respects_log_decision
  end.

Lemma respects_time_slot (sumb : nat) (w : world) (sum array : pointer) (i : nat) :
  targets sum sumb -> respects (steps sumb) (time_slot w sum array i).
Proof.
  intros Ht. unfold time_slot, startTimer, timeElapsed. repeat respects_step.
Qed.

Lemma respects_iteration (sumb : nat) (w : world) (addr sum : pointer) :
  targets sum sumb -> respects (steps sumb) (iteration w addr sum).
Proof.
  intros Ht. unfold iteration, time_slots, for_loop.
  repeat respects_step. apply respects_time_slot. exact Ht.
Qed.

Lemma respects_attempt (sumb : nat) (w : world) (addr sum : pointer) (bi : Z) :
  targets sum sumb -> respects (steps sumb) (attempt w addr sum bi).
Proof.
  intros Ht. unfold attempt, measure, find_best, for_loop.
  apply respects_bind; [apply steps_trans | | intros ?].
  - apply respects_for_from; [apply steps_refl | apply steps_trans | intros ? ?].
    apply respects_iteration. exact Ht.
  - apply respects_bind; [apply steps_trans | | intros ?].
    + apply respects_bind; [apply steps_trans | | intros ?].
      * apply respects_for_from; [apply steps_refl | apply steps_trans | intros ? ?].
        unfold consider. apply respects_bind; [apply steps_trans | | intros ?].
        -- apply respects_load_double.
        -- destruct (flt _ _); apply respects_ret, steps_refl.
      * apply respects_ret, steps_refl.
    + repeat respects_step.
Qed.

Lemma respects_try_loop (sumb : nat) (w : world) (addr sum : pointer) :
  targets sum sumb ->
  forall n bi, respects (steps sumb) (try_loop w addr sum n bi).
Proof.
  intros Ht n. induction n as [|n IH]; intros bi; simpl.
  - apply respects_ret, steps_refl.
  - apply respects_bind; [apply steps_trans | apply respects_attempt; exact Ht |].
    intros b. destruct (b =? 0); [apply IH | apply respects_ret, steps_refl].
Qed.

(** ** The secret address *)

(** [main] passes the address of a byte that holds [VALUE]. *)
Example the_byte_is_VALUE :
  (forall w, load_byte w the_byte main_state = Ret x2a main_state) /\
  byte_val x2a = VALUE.
Proof. split; [intros w|]; reflexivity. Qed.

Lemma load_byte_ok (w : world) (addr : pointer) (v : byte) (s : state) :
  holds_byte addr v (heap s) -> load_byte w addr s = Ret v s.
Proof.
  destruct addr as [|b ofs]; simpl; [tauto|].
  intros (bs & Hb & Hofs & Hv). rewrite Hb.
  apply Z.leb_le in Hofs. rewrite Hofs, Hv. reflexivity.
Qed.

Lemma holds_byte_kept (addr : pointer) (v : byte) (h h' : list object) :
  holds_byte addr v h ->
  (forall k, (k < length h)%nat -> h' !! k = h !! k) ->
  holds_byte addr v h'.
Proof.
  destruct addr as [|b ofs]; simpl; [tauto|].
  intros (bs & Hb & Hofs & Hv) Hkeep. exists bs. split; [|auto].
  rewrite Hkeep; [exact Hb|]. eapply lookup_lt_Some; eauto.
Qed.

Lemma final_state_bind {A B} (m : M A) (k : A -> M B) (s : state) :
  final_state (bind m k s) =
  match m s with
  | Ret a s1 => final_state (k a s1)
  | Crash _ s1 => s1
  end.
Proof. unfold bind. destruct (m s); reflexivity. Qed.

Lemma respects_final {A} (R : state -> state -> Prop) (m : M A) (s : state) :
  respects R m -> R s (final_state (m s)).
Proof. intros H. specialize (H s). destruct (m s); exact H. Qed.

Lemma inferb_keeps_caller_memory (w : world) (addr : pointer) (s : state) :
  forall k, (k < length (heap s))%nat ->
    heap (final_state (inferb w addr s)) !! k = heap s !! k.
Proof.
  intros k Hk. unfold inferb. rewrite final_state_bind. unfold calloc_doubles.
  set (n0 := length (heap s)).
  set (bi := byte_val (junk w)).
  destruct (alloc_ok w (alloc_calls s)).
  - set (st := set_heap _ _).
    destruct (respects_final _ _ st
                (respects_try_loop n0 w addr (Ptr n0 0) eq_refl
                   RETRIES_IF_ZERO bi)) as (_ & Hkeep & _).
    rewrite Hkeep.
    + subst st. simpl. apply lookup_app_l. exact Hk.
    + subst n0. lia.
    + subst st. simpl. rewrite length_app. lia.
  - destruct (respects_final _ _ (count_alloc s)
                (respects_try_loop n0 w addr Null I
                   RETRIES_IF_ZERO bi)) as (_ & Hkeep & _).
    rewrite Hkeep.
    + reflexivity.
    + subst n0. lia.
    + simpl. exact Hk.
Qed.

(** C9. [inferb] does not write to the caller's memory: whatever the world
    does, every block that existed before the call holds the same contents
    in the state [inferb] ends in; the byte at the secret address is the
    byte that was there before the call, and reading it again gives it. *)
Theorem C9_secret_unchanged (w : world) (addr : pointer) (v : byte) (s : state) :
  holds_byte addr v (heap s) ->
  holds_byte addr v (heap (final_state (inferb w addr s))) /\
  load_byte w addr (final_state (inferb w addr s)) =
    Ret v (final_state (inferb w addr s)) /\
  forall k, (k < length (heap s))%nat ->
    heap (final_state (inferb w addr s)) !! k = heap s !! k.
Proof.
  intros Hv.
  assert (Hkept : holds_byte addr v (heap (final_state (inferb w addr s)))).
  { eapply holds_byte_kept; [exact Hv|]. apply inferb_keeps_caller_memory. }
  split; [exact Hkept|]. split; [apply load_byte_ok; exact Hkept|].
  apply inferb_keeps_caller_memory.
Qed.

(** C9 at the call of [main]: the byte is 42 before and after. *)
Lemma C9_secret_unchanged_witness :
  holds_byte the_byte x2a (heap main_state) /\
  holds_byte the_byte x2a (heap (final_state (inferb still the_byte main_state))).
Proof.
  assert (H : holds_byte the_byte x2a (heap main_state)).
  { exists [x2a]. repeat split. unfold Z.le. simpl. discriminate. }
  split; [exact H|].
  exact (proj1 (C9_secret_unchanged still the_byte x2a main_state H)).
Defined.

(** ** One iteration, when nothing fails *)

(** The flush loop executes one [DC CIVAC] per cache line of the range. *)
Lemma flush_lines_count (lines : Z) :
  forall (fuel : nat) (j n : Z),
    0 <= j <= lines -> (Z.to_nat (lines - j) <= fuel)%nat ->
    flush_lines fuel (j * CACHE_LINE_SIZE) (lines * CACHE_LINE_SIZE) n =
    n + (lines - j).
Proof.
  induction fuel as [|fuel IH]; intros j n Hj Hfuel.
  - simpl. lia.
  - simpl. destruct (Z.ltb_spec (j * CACHE_LINE_SIZE) (lines * CACHE_LINE_SIZE))
      as [Hlt|Hge]; unfold CACHE_LINE_SIZE in *.
    + replace (j * 64 + 64) with ((j + 1) * 64) by lia.
      rewrite IH by lia. lia.
    + lia.
Qed.

(** The flush of a live probe array. *)
Lemma flush_cache_relaxed_array (w : world) (b : nat) (s : state) :
  heap s !! b = Some (ORaw ARRAY_SIZE) ->
  flush_cache_relaxed w (Ptr b 0) ARRAY_SIZE s = Ret tt (add_dc 65536 s).
Proof.
  intros Hb. unfold flush_cache_relaxed. rewrite Hb.
  change ((0 <=? 0) && (0 <=? ARRAY_SIZE) &&
          (0 + ARRAY_SIZE <=? size_of (ORaw ARRAY_SIZE))) with true.
  cbv iota.
  change (flush_lines (Z.to_nat (ARRAY_SIZE / CACHE_LINE_SIZE + 1)) 0 ARRAY_SIZE 0)
    with (flush_lines (Z.to_nat (ARRAY_SIZE / CACHE_LINE_SIZE + 1))
            (0 * CACHE_LINE_SIZE) (65536 * CACHE_LINE_SIZE) 0).
  rewrite (flush_lines_count 65536); [reflexivity | lia |].
  change (ARRAY_SIZE / CACHE_LINE_SIZE + 1) with 65537. lia.
Qed.

(** The flush of the array a successful [malloc] has just returned. *)
Lemma flush_fresh_array (w : world) (s : state) :
  flush_cache_relaxed w (Ptr (length (heap s)) 0) ARRAY_SIZE
    (set_heap (heap s ++ [ORaw ARRAY_SIZE]) (count_alloc s)) =
  Ret tt (add_dc 65536 (set_heap (heap s ++ [ORaw ARRAY_SIZE]) (count_alloc s))).
Proof.
  apply flush_cache_relaxed_array. cbn [heap set_heap].
  apply list_lookup_middle. reflexivity.
Qed.

Lemma malloc_ok (w : world) (size : Z) (s : state) :
  alloc_ok w (alloc_calls s) = true ->
  malloc w size s =
  Ret (Ptr (length (heap s)) 0) (set_heap (heap s ++ [ORaw size]) (count_alloc s)).
Proof. intros H. unfold malloc. rewrite H. reflexivity. Qed.

Lemma malloc_fails (w : world) (size : Z) (s : state) :
  alloc_ok w (alloc_calls s) = false ->
  malloc w size s = Ret Null (count_alloc s).
Proof. intros H. unfold malloc. rewrite H. reflexivity. Qed.

Lemma probe_read_ok (b : nat) (i : Z) (s : state) :
  heap s !! b = Some (ORaw ARRAY_SIZE) -> 0 <= i < NUM_CACHE_LINES ->
  probe_read (Ptr b 0) i s = Ret tt s.
Proof.
  intros Hb Hi. unfold probe_read. rewrite Hb.
  destruct (slot_offset_in_bounds i Hi) as [H0 H1].
  replace (0 <=? 0 + slot_offset i) with true by (symmetry; apply Z.leb_le; lia).
  replace (0 + slot_offset i <? ARRAY_SIZE) with true
    by (symmetry; apply Z.ltb_lt; lia).
  reflexivity.
Qed.

Lemma store_double_ok (b : nat) (ds : list double) (i : nat) (x : double) (s : state) :
  heap s !! b = Some (ODoubles ds) -> (i < length ds)%nat ->
  store_double (Ptr b 0) i x s =
  Ret tt (set_heap (<[b := ODoubles (<[i := x]> ds)]> (heap s)) s).
Proof.
  intros Hb Hi. unfold store_double. rewrite Hb.
  apply Nat.ltb_lt in Hi. rewrite Hi. reflexivity.
Qed.

Lemma counts_refl (s : state) : counts 0 0 [] s s.
Proof. unfold counts. rewrite app_nil_r. repeat split; lia. Qed.

Lemma counts_trans (r1 : Z) (a1 : nat) (r2 : Z) (a2 : nat) (l1 l2 : list Z)
    (s1 s2 s3 : state) :
  counts r1 a1 l1 s1 s2 -> counts r2 a2 l2 s2 s3 ->
  counts (r1 + r2) (a1 + a2) (l1 ++ l2) s1 s3.
Proof.
  intros (R1 & A1 & D1) (R2 & A2 & D2). unfold counts.
  rewrite R2, A2, D2, R1, A1, D1, app_assoc. repeat split; lia.
Qed.

Lemma counts_eq (r r' : Z) (a a' : nat) (l l' : list Z) (s s' : state) :
  counts r a l s s' -> r = r' -> a = a' -> l = l' -> counts r' a' l' s s'.
Proof. intros H -> -> ->. exact H. Qed.

Lemma nslots_eq : nslots = 256%nat.
Proof. reflexivity. Qed.

Lemma time_slot_ok (w : world) (sumb ab i : nat) (s : state) :
  sum_block sumb (heap s) ->
  heap s !! ab = Some (ORaw ARRAY_SIZE) ->
  (i < nslots)%nat ->
  exists s', time_slot w (Ptr sumb 0) (Ptr ab 0) i s = Ret tt s' /\
             counts 2 0 [] s s'.
Proof.
  intros (ds & Hds & Hlen) Hab Hi.
  assert (Hv : exists v, ds !! i = Some v).
  { apply lookup_lt_is_Some. lia. }
  destruct Hv as [v Hv].
  unfold time_slot. unfold bind at 1. rewrite startTimer_eq.
  unfold bind at 1. rewrite probe_read_ok; cycle 1.
  { exact Hab. }
  { rewrite nslots_eq in Hi. unfold NUM_CACHE_LINES, UINT8_MAX. lia. }
  unfold bind at 1. rewrite timeElapsed_eq.
  unfold bind at 1. rewrite (load_double_ok sumb ds i v); [|exact Hds|exact Hv].
  rewrite (store_double_ok sumb ds); [|exact Hds|lia].
  eexists. split; [reflexivity|].
  unfold counts. simpl. rewrite app_nil_r. repeat split; lia.
Qed.

(** A loop whose body returns and re-establishes an invariant returns. *)
Lemma for_from_returns {A} (Inv : nat -> A -> state -> Prop) (body : nat -> A -> M A) :
  forall (n i : nat) (a : A) (s : state),
    Inv i a s ->
    (forall j a1 s1, (i <= j < i + n)%nat -> Inv j a1 s1 ->
       exists a2 s2, body j a1 s1 = Ret a2 s2 /\ Inv (S j) a2 s2) ->
    exists a' s', for_from i n body a s = Ret a' s' /\ Inv (i + n)%nat a' s'.
Proof.
  induction n as [|n IH]; intros i a s Hinv Hbody.
  - exists a, s. rewrite Nat.add_0_r. split; [reflexivity | exact Hinv].
  - destruct (Hbody i a s ltac:(lia) Hinv) as (a2 & s2 & Hrun & Hinv2).
    destruct (IH (S i) a2 s2 Hinv2) as (a' & s' & Hrest & Hinv').
    { intros j a1 s1 Hj. apply Hbody. lia. }
    exists a', s'. simpl. unfold bind. rewrite Hrun.
    split; [exact Hrest|]. replace (i + S n)%nat with (S i + n)%nat by lia.
    exact Hinv'.
Qed.

Lemma raw_block_kept (sumb ab : nat) (size : Z) (h h' : list object) :
  heap_step sumb h h' -> sum_block sumb h -> h !! ab = Some (ORaw size) ->
  h' !! ab = Some (ORaw size).
Proof.
  intros (_ & Hkeep & _) (ds & Hds & _) Hab. rewrite Hkeep; [exact Hab| |].
  - intros ->. congruence.
  - eapply lookup_lt_Some; eauto.
Qed.

Lemma byte_kept (sumb : nat) (addr : pointer) (v : byte) (h h' : list object) :
  heap_step sumb h h' -> sum_block sumb h -> holds_byte addr v h ->
  holds_byte addr v h'.
Proof.
  intros (_ & Hkeep & _) (ds & Hds & _). destruct addr as [|b ofs]; simpl; [tauto|].
  intros (bs & Hb & Hofs & Hv). exists bs. split; [|auto].
  rewrite Hkeep; [exact Hb| |].
  - intros ->. congruence.
  - eapply lookup_lt_Some; eauto.
Qed.

Lemma time_slots_ok (w : world) (sumb ab : nat) (s : state) :
  sum_block sumb (heap s) ->
  heap s !! ab = Some (ORaw ARRAY_SIZE) ->
  exists s', time_slots w (Ptr sumb 0) (Ptr ab 0) s = Ret tt s' /\
             counts (2 * NUM_CACHE_LINES) 0 [] s s' /\ steps sumb s s'.
Proof.
  intros Hsum Hab. unfold time_slots, for_loop.
  destruct (for_from_returns
              (fun i (_ : unit) s' =>
                 counts (2 * Z.of_nat i) 0 [] s s' /\ steps sumb s s')
              (fun i _ => time_slot w (Ptr sumb 0) (Ptr ab 0) i)
              nslots 0%nat tt s) as ([] & s' & Hrun & Hc & Hs).
  - split; [apply counts_refl | apply steps_refl].
  - intros j [] s1 Hj (Hc & Hs).
    destruct (time_slot_ok w sumb ab j s1) as (s2 & Hrun & Hc2).
    + apply Hs. exact Hsum.
    + eapply raw_block_kept; eauto.
    + lia.
    + exists tt, s2. split; [exact Hrun|]. split.
      * eapply counts_eq;
          [exact (counts_trans _ _ _ _ _ _ _ _ _ Hc Hc2) | lia | lia | reflexivity].
      * eapply steps_trans; [exact Hs|].
        pose proof (respects_time_slot sumb w (Ptr sumb 0) (Ptr ab 0) j eq_refl s1) as Hr.
        rewrite Hrun in Hr. exact Hr.
  - exists s'. auto.
Qed.

Lemma iteration_ok (w : world) (addr : pointer) (v : byte) (sumb : nat) (s : state) :
  alloc_ok w (alloc_calls s) = true ->
  holds_byte addr v (heap s) ->
  sum_block sumb (heap s) ->
  exists s', iteration w addr (Ptr sumb 0) s = Ret tt s' /\
             counts (2 * NUM_CACHE_LINES) 1 [] s s' /\ steps sumb s s'.
Proof.
  intros Hok Hv Hsum. unfold iteration.
  unfold bind at 1. rewrite (malloc_ok w ARRAY_SIZE s Hok).
  unfold bind at 1. rewrite flush_fresh_array.
  set (s1 := add_dc 65536 (set_heap (heap s ++ [ORaw ARRAY_SIZE]) (count_alloc s))).
  assert (Hstep : steps sumb s s1) by apply heap_step_app.
  assert (Hc1 : counts 0 1 [] s s1).
  { unfold counts. simpl. rewrite app_nil_r. repeat split; lia. }
  assert (Hab : heap s1 !! length (heap s) = Some (ORaw ARRAY_SIZE)).
  { simpl. apply list_lookup_middle. reflexivity. }
  unfold bind at 1. rewrite (load_byte_ok _ addr v s1).
  2:{ eapply byte_kept; eauto. }
  unfold bind at 1. rewrite (probe_read_ok _ _ s1 Hab (byte_val_range v)).
  destruct (time_slots_ok w sumb (length (heap s)) s1) as (s' & Hrun & Hc & Hs).
  - apply Hstep. exact Hsum.
  - exact Hab.
  - exists s'. split; [exact Hrun|]. split.
    + eapply counts_eq;
        [exact (counts_trans _ _ _ _ _ _ _ _ _ Hc1 Hc) | lia | lia | reflexivity].
    + eapply steps_trans; eauto.
Qed.

Lemma measure_ok (w : world) (addr : pointer) (v : byte) (sumb : nat) (s : state) :
  (forall k, alloc_ok w k = true) ->
  holds_byte addr v (heap s) ->
  sum_block sumb (heap s) ->
  exists s', measure w addr (Ptr sumb 0) s = Ret tt s' /\
             counts reads_per_attempt ITERATIONS [] s s' /\
             steps sumb s s'.
Proof.
  intros Hok Hv Hsum. unfold measure, for_loop.
  destruct (for_from_returns
              (fun i (_ : unit) s' =>
                 counts (Z.of_nat i * (2 * NUM_CACHE_LINES)) i [] s s' /\
                 steps sumb s s')
              (fun _ _ => iteration w addr (Ptr sumb 0))
              ITERATIONS 0%nat tt s) as ([] & s' & Hrun & Hc & Hs).
  - split; [apply counts_refl | apply steps_refl].
  - intros j [] s1 Hj (Hc & Hs).
    destruct (iteration_ok w addr v sumb s1) as (s2 & Hrun & Hc2 & Hs2).
    + apply Hok.
    + eapply byte_kept; eauto.
    + apply Hs. exact Hsum.
    + exists tt, s2. split; [exact Hrun|]. split.
      * eapply counts_eq;
          [exact (counts_trans _ _ _ _ _ _ _ _ _ Hc Hc2) | lia | lia | reflexivity].
      * eapply steps_trans; eauto.
  - exists s'. auto.
Qed.

(** The decision is a slot index, or the value [bestIndex] had before. *)
Lemma scan_from_range (ds : list double) :
  forall (i : nat) (acc : Z * double),
    0 <= fst acc <= UINT8_MAX -> 0 <= fst (scan_from i ds acc) <= UINT8_MAX.
Proof.
  induction ds as [|v ds IH]; intros i acc Hacc; [exact Hacc|].
  simpl. apply IH. destruct (flt v (snd acc)); [|exact Hacc].
  simpl. unfold wrap8, UINT8_MAX.
  pose proof (Z.mod_pos_bound (Z.of_nat i) (2 ^ 8) ltac:(lia)). lia.
Qed.

Lemma attempt_ok (w : world) (addr : pointer) (v : byte) (sumb : nat) (bi : Z) (s : state) :
  (forall k, alloc_ok w k = true) ->
  holds_byte addr v (heap s) ->
  sum_block sumb (heap s) ->
  0 <= bi <= UINT8_MAX ->
  exists d s', attempt w addr (Ptr sumb 0) bi s = Ret d s' /\
               0 <= d <= UINT8_MAX /\
               counts reads_per_attempt ITERATIONS [d] s s' /\
               steps sumb s s'.
Proof.
  intros Hok Hv Hsum Hbi. unfold attempt.
  destruct (measure_ok w addr v sumb s Hok Hv Hsum) as (s1 & Hrun & Hc & Hs).
  unfold bind at 1. rewrite Hrun.
  destruct (steps_sum_block _ _ _ Hs Hsum) as (ds & Hds & Hlen).
  unfold bind at 1. rewrite (find_best_scan sumb ds bi s1 Hds Hlen).
  set (d := fst (scan_from 0 ds (bi, DBL_MAX))).
  exists d, (log d s1). split; [reflexivity|]. split.
  - apply (scan_from_range ds 0 (bi, DBL_MAX)). exact Hbi.
  - split; [|exact Hs].
    destruct Hc as (Hr & Ha & Hd). unfold counts. simpl.
    rewrite Hr, Ha, Hd, app_nil_r. repeat split; lia.
Qed.

(** ** The retry loop *)

(** [try_loop] with [n] tries left performs between 1 and [n] attempts: a
    run of attempts that decide 0, ended by the first decision that is not 0
    or by the [n]-th attempt. *)
Lemma try_loop_shape (w : world) (addr : pointer) (v : byte) (sumb : nat) :
  (forall k, alloc_ok w k = true) ->
  forall (n : nat) (bi : Z) (s : state),
    holds_byte addr v (heap s) ->
    sum_block sumb (heap s) ->
    0 <= bi <= UINT8_MAX ->
    exists (b : Z) (s' : state) (z : nat),
      try_loop w addr (Ptr sumb 0) (S n) bi s = Ret b s' /\
      0 <= b <= UINT8_MAX /\
      (z <= n)%nat /\ (b <> 0 \/ z = n) /\
      counts (Z.of_nat (S z) * reads_per_attempt) (S z * ITERATIONS)
             (repeat 0 z ++ [b]) s s'.
Proof.
  intros Hok n. induction n as [|n IH]; intros bi s Hv Hsum Hbi.
  - destruct (attempt_ok w addr v sumb bi s Hok Hv Hsum Hbi)
      as (d & s1 & Hrun & Hd & Hc & Hs).
    exists d, s1, 0%nat. split.
    + cbn [try_loop]. unfold bind. rewrite Hrun.
      destruct (d =? 0) eqn:Hz; [|reflexivity].
      apply Z.eqb_eq in Hz. subst d. reflexivity.
    + split; [exact Hd|]. split; [lia|]. split; [right; reflexivity|].
      eapply counts_eq; [exact Hc | lia | lia | reflexivity].
  - destruct (attempt_ok w addr v sumb bi s Hok Hv Hsum Hbi)
      as (d & s1 & Hrun & Hd & Hc & Hs).
    destruct (d =? 0) eqn:Hz.
    + apply Z.eqb_eq in Hz. subst d.
      destruct (IH 0 s1) as (b & s' & z & Hrest & Hb & Hzn & Hstop & Hc').
      { eapply byte_kept; eauto. }
      { eapply steps_sum_block; eauto. }
      { unfold UINT8_MAX. lia. }
      exists b, s', (S z). split.
      * change (try_loop w addr (Ptr sumb 0) (S (S n)) bi s)
          with (bind (attempt w addr (Ptr sumb 0) bi)
                  (fun bi' => if bi' =? 0
                              then try_loop w addr (Ptr sumb 0) (S n) bi'
                              else ret bi') s).
        unfold bind. rewrite Hrun. exact Hrest.
      * split; [exact Hb|]. split; [lia|]. split; [lia|].
        eapply counts_eq;
          [exact (counts_trans _ _ _ _ _ _ _ _ _ Hc Hc') | lia | lia | reflexivity].
    + exists d, s1, 0%nat. split.
      * change (try_loop w addr (Ptr sumb 0) (S (S n)) bi s)
          with (bind (attempt w addr (Ptr sumb 0) bi)
                  (fun bi' => if bi' =? 0
                              then try_loop w addr (Ptr sumb 0) (S n) bi'
                              else ret bi') s).
        unfold bind. rewrite Hrun, Hz. reflexivity.
      * split; [exact Hd|]. split; [lia|]. split.
        { left. apply Z.eqb_neq. exact Hz. }
        eapply counts_eq; [exact Hc | lia | lia | reflexivity].
Qed.

(** ** The retry ceiling, in every world *)

Lemma logged_refl (n : nat) (s : state) : logged n s s.
Proof. exists []. rewrite app_nil_r. split; [reflexivity | simpl; lia]. Qed.

Lemma logged_trans (n1 n2 : nat) (s1 s2 s3 : state) :
  logged n1 s1 s2 -> logged n2 s2 s3 -> logged (n1 + n2) s1 s3.
Proof.
  intros (l1 & H1 & L1) (l2 & H2 & L2). exists (l1 ++ l2).
  rewrite H2, H1, app_assoc, length_app. split; [reflexivity | lia].
Qed.

Lemma logged_0_trans (s1 s2 s3 : state) :
  logged 0 s1 s2 -> logged 0 s2 s3 -> logged 0 s1 s3.
Proof. apply (logged_trans 0 0). Qed.

(** Sequencing, when the two parts are related by different relations. *)
Lemma respects_bind_seq {A B} (R1 R2 R3 : state -> state -> Prop)
    (m : M A) (k : A -> M B) :
  (forall s1 s2 s3, R1 s1 s2 -> R2 s2 s3 -> R3 s1 s3) ->
  (forall s1 s2, R1 s1 s2 -> R3 s1 s2) ->
  respects R1 m -> (forall a, respects R2 (k a)) -> respects R3 (bind m k).
Proof.
  intros Hseq Hstop Hm Hk s. unfold bind. specialize (Hm s).
  destruct (m s) as [a s1|f s1]; [|apply Hstop; exact Hm].
  specialize (Hk a s1). destruct (k a s1); eapply Hseq; eauto.
Qed.

Ltac same_log :=
  intros s;
  repeat match goal with
         | |- context [match ?x with _ => _ end] =>
             lazymatch x with
             | context [match _ with _ => _ end] => fail
             | _ => destruct x
             end
         end;
  exists []; rewrite app_nil_r; (split; [reflexivity | simpl; lia]).

Lemma silent_malloc (w : world) (size : Z) : respects (logged 0) (malloc w size).
Proof. unfold malloc. same_log. Qed.

Lemma silent_flush (w : world) (p : pointer) (len : Z) :
  respects (logged 0) (flush_cache_relaxed w p len).
Proof. unfold flush_cache_relaxed, stray_flushed. same_log. Qed.

Lemma silent_load_byte (w : world) (p : pointer) :
  respects (logged 0) (load_byte w p).
Proof. unfold load_byte, stray_read. same_log. Qed.

Lemma silent_probe_read (p : pointer) (i : Z) : respects (logged 0) (probe_read p i).
Proof. unfold probe_read. same_log. Qed.

Lemma silent_load_double (p : pointer) (i : nat) :
  respects (logged 0) (load_double p i).
Proof. unfold load_double. same_log. Qed.

Lemma silent_store_double (p : pointer) (i : nat) (x : double) :
  respects (logged 0) (store_double p i x).
Proof. unfold store_double. same_log. Qed.

Lemma silent_clock (w : world) : respects (logged 0) (mach_absolute_time w).
Proof. unfold mach_absolute_time. same_log. Qed.

Ltac silent_step :=
  lazymatch goal with
  | |- respects _ (bind _ _) =>
      simple apply respects_bind; [apply logged_0_trans | | intros ?]
  | |- respects _ (for_from _ _ _ _) =>
      simple apply respects_for_from;
      [apply (logged_refl 0) | apply logged_0_trans | intros ? ?]
  | |- respects _ (ret _) => simple apply respects_ret; apply (logged_refl 0)
  | |- respects _ (malloc _ _) => simple apply silent_malloc
  | |- respects _ (flush_cache_relaxed _ _ _) => simple apply silent_flush
  | |- respects _ (load_byte _ _) => simple apply silent_load_byte
  | |- respects _ (probe_read _ _) => simple apply silent_probe_read
  | |- respects _ (load_double _ _) => simple apply silent_load_double
  | |- respects _ (store_double _ _ _) => simple apply silent_store_double
  | |- respects _ (mach_absolute_time _) => simple apply silent_clock
  end.

Lemma silent_measure (w : world) (addr sum : pointer) :
  respects (logged 0) (measure w addr sum).
Proof.
  unfold measure, for_loop, iteration, time_slots, for_loop, time_slot,
    startTimer, timeElapsed.
  repeat silent_step.
Qed.

Lemma silent_find_best (sum : pointer) (bi : Z) :
  respects (logged 0) (find_best sum bi).
Proof.
  unfold find_best, for_loop.
  silent_step; [|silent_step]. silent_step. unfold consider.
  silent_step; [silent_step|]. destruct (flt _ _); silent_step.
Qed.

(** An attempt logs at most one decision, in every world. *)
Lemma attempt_logs_one (w : world) (addr sum : pointer) (bi : Z) :
  respects (logged 1) (attempt w addr sum bi).
Proof.
  unfold attempt.
  apply (respects_bind_seq (logged 0) (logged 1) (logged 1)).
  - intros s1 s2 s3. apply (logged_trans 0 1).
  - intros s1 s2 (l & Hl & Hn). exists l. split; [exact Hl | lia].
  - apply silent_measure.
  - intros _. apply (respects_bind_seq (logged 0) (logged 1) (logged 1)).
    + intros s1 s2 s3. apply (logged_trans 0 1).
    + intros s1 s2 (l & Hl & Hn). exists l. split; [exact Hl | lia].
    + apply silent_find_best.
    + intros d s. exists [d]. split; [reflexivity | simpl; lia].
Qed.

(** The retry loop with [n] tries left logs at most [n] decisions. *)
Lemma try_loop_logs (w : world) (addr sum : pointer) :
  forall n bi, respects (logged n) (try_loop w addr sum n bi).
Proof.
  induction n as [|n IH]; intros bi.
  - intros s. apply logged_refl.
  - cbn [try_loop].
    apply (respects_bind_seq (logged 1) (logged n) (logged (S n))).
    + intros s1 s2 s3. apply (logged_trans 1 n).
    + intros s1 s2 (l & Hl & Hn). exists l. split; [exact Hl | lia].
    + apply attempt_logs_one.
    + intros d. destruct (d =? 0); [apply IH|].
      intros s. apply logged_refl.
Qed.

Lemma inferb_logs (w : world) (addr : pointer) :
  respects (logged RETRIES_IF_ZERO) (inferb w addr).
Proof.
  unfold inferb.
  apply (respects_bind_seq (logged 0) (logged RETRIES_IF_ZERO)
           (logged RETRIES_IF_ZERO)).
  - intros s1 s2 s3. apply (logged_trans 0 RETRIES_IF_ZERO).
  - intros s1 s2 (l & Hl & Hn). exists l. split; [exact Hl | lia].
  - unfold calloc_doubles. same_log.
  - intros sum. apply try_loop_logs.
Qed.

Lemma calloc_ok (w : world) (n : Z) (s : state) :
  alloc_ok w (alloc_calls s) = true ->
  calloc_doubles w n s =
  Ret (Ptr (length (heap s)) 0)
      (set_heap (heap s ++ [ODoubles (repeat dzero (Z.to_nat n))]) (count_alloc s)).
Proof. intros H. unfold calloc_doubles. rewrite H. reflexivity. Qed.

(** [inferb], when no allocation fails and the secret address is valid. *)
Lemma inferb_shape (w : world) (addr : pointer) (v : byte) (s : state) :
  (forall k, alloc_ok w k = true) ->
  holds_byte addr v (heap s) ->
  exists (b : Z) (s' : state) (z : nat),
    inferb w addr s = Ret b s' /\
    0 <= b <= UINT8_MAX /\
    (S z <= RETRIES_IF_ZERO)%nat /\ (b <> 0 \/ S z = RETRIES_IF_ZERO) /\
    counts (Z.of_nat (S z) * reads_per_attempt) (1 + S z * ITERATIONS)
           (repeat 0 z ++ [b]) s s'.
Proof.
  intros Hok Hv. unfold inferb. unfold bind at 1.
  rewrite (calloc_ok w NUM_CACHE_LINES s (Hok _)).
  set (s0 := set_heap _ (count_alloc s)).
  assert (Hsum : sum_block (length (heap s)) (heap s0)).
  { exists (repeat dzero (Z.to_nat NUM_CACHE_LINES)). split.
    - subst s0. simpl. apply list_lookup_middle. reflexivity.
    - rewrite repeat_length. reflexivity. }
  assert (Hv0 : holds_byte addr v (heap s0)).
  { eapply holds_byte_kept; [exact Hv|]. intros k Hk. subst s0. simpl.
    apply lookup_app_l. exact Hk. }
  assert (Hj : 0 <= byte_val (junk w) <= UINT8_MAX).
  { pose proof (byte_val_range (junk w)). unfold NUM_CACHE_LINES in *. lia. }
  change RETRIES_IF_ZERO with (S 49).
  destruct (try_loop_shape w addr v (length (heap s)) Hok 49
              (byte_val (junk w)) s0 Hv0 Hsum Hj)
    as (b & s' & z & Hrun & Hb & Hz & Hstop & Hc).
  exists b, s', z. split; [exact Hrun|]. split; [exact Hb|].
  split; [lia|]. split; [lia|].
  assert (Hc0 : counts 0 1 [] s s0).
  { unfold counts. subst s0. simpl. rewrite app_nil_r. repeat split; lia. }
  eapply counts_eq;
    [exact (counts_trans _ _ _ _ _ _ _ _ _ Hc0 Hc) | lia | lia | reflexivity].
Qed.

Lemma Forall_zero_last (z : nat) (b : Z) :
  Forall (fun d => d = 0) (repeat 0 z ++ [b]) -> b = 0.
Proof.
  intros H. apply Forall_app in H. destruct H as [_ H].
  inversion H. assumption.
Qed.

(** C2. [inferb] is a total function of the model, and in every world it
    makes at most [RETRIES_IF_ZERO] attempts (each attempt logs its
    decision). With a valid secret address and allocations that succeed it
    returns a byte value after at least one attempt; each attempt makes
    [ITERATIONS] probe-array allocations and reads the clock twice per slot
    and iteration. If every decision is 0 the attempts are exactly
    [RETRIES_IF_ZERO] and the value returned is 0. *)
Theorem C2_inferb_returns_within_retries
    (w : world) (addr : pointer) (v : byte) (s : state) :
  (forall k, alloc_ok w k = true) ->
  holds_byte addr v (heap s) ->
  (forall w' addr' s', logged RETRIES_IF_ZERO s' (final_state (inferb w' addr' s'))) /\
  exists (b : Z) (s' : state) (attempts : list Z),
    inferb w addr s = Ret b s' /\
    0 <= b <= UINT8_MAX /\
    decisions s' = decisions s ++ attempts /\
    (1 <= length attempts <= RETRIES_IF_ZERO)%nat /\
    alloc_calls s' = (alloc_calls s + 1 + length attempts * ITERATIONS)%nat /\
    clock_reads s' =
      clock_reads s + Z.of_nat (length attempts) * reads_per_attempt /\
    (Forall (fun d => d = 0) attempts ->
     length attempts = RETRIES_IF_ZERO /\ b = 0).
Proof.
  intros Hok Hv. split.
  { intros w' addr' s'. apply respects_final, inferb_logs. }
  destruct (inferb_shape w addr v s Hok Hv)
    as (b & s' & z & Hrun & Hb & Hz & Hstop & Hr & Ha & Hd).
  exists b, s', (repeat 0 z ++ [b]).
  assert (Hlen : length (repeat 0 z ++ [b]) = S z).
  { rewrite length_app, repeat_length. simpl. lia. }
  rewrite Hlen.
  split; [exact Hrun|]. split; [exact Hb|]. split; [exact Hd|].
  split; [lia|]. split; [lia|]. split; [lia|].
  intros Hall. apply Forall_zero_last in Hall. split; [lia | exact Hall].
Qed.

(** C2 at the call of [main] in a world where nothing fails. *)
Lemma C2_inferb_returns_within_retries_witness :
  (forall k, alloc_ok still k = true) /\
  holds_byte the_byte x2a (heap main_state) /\
  exists b s', inferb still the_byte main_state = Ret b s' /\ 0 <= b <= UINT8_MAX.
Proof.
  assert (Hok : forall k, alloc_ok still k = true) by reflexivity.
  assert (Hv : holds_byte the_byte x2a (heap main_state)).
  { exists [x2a]. repeat split. unfold Z.le. simpl. discriminate. }
  split; [exact Hok|]. split; [exact Hv|].
  destruct (C2_inferb_returns_within_retries still the_byte x2a main_state Hok Hv)
    as (_ & b & s' & l & Hrun & Hb & _).
  exists b, s'. split; [exact Hrun | exact Hb].
Defined.

(** The run of the world [early]: decisions 0 then 200, the value returned is 200,
    and the counts are those of two attempts (1 + 2 * 20 allocations,
    2 * 10240 clock reads). *)
Example early_exit_run :
  report (inferb early the_byte main_state) = (Some 200, [0; 200], 41%nat, 20480).
Proof. vm_compute. reflexivity. Qed.

(** ** The secret-dependent access *)

(** C10. The index read from the secret address is a byte, so it is below
    [NUM_CACHE_LINES = UINT8_MAX + 1 = 256]; byte [array[v].cacheLine] lies
    inside the [ARRAY_SIZE] bytes of the probe array and the access to it
    succeeds, whatever the byte [v]. (An index of 256 or more would be
    outside the array.) *)
Theorem C10_secret_index_in_bounds (v : byte) (b : nat) (s : state) :
  heap s !! b = Some (ORaw ARRAY_SIZE) ->
  0 <= byte_val v < NUM_CACHE_LINES /\
  0 <= slot_offset (byte_val v) /\
  slot_offset (byte_val v) + 1 <= ARRAY_SIZE /\
  probe_read (Ptr b 0) (byte_val v) s = Ret tt s /\
  forall i, NUM_CACHE_LINES <= i -> probe_read (Ptr b 0) i s = Crash BadAccess s.
Proof.
  intros Hb. pose proof (byte_val_range v) as Hv.
  destruct (slot_offset_in_bounds _ Hv) as [H0 H1].
  split; [exact Hv|]. split; [exact H0|]. split; [exact H1|].
  split; [apply probe_read_ok; assumption|].
  intros i Hi. unfold probe_read. rewrite Hb.
  replace (0 + slot_offset i <? ARRAY_SIZE) with false.
  - rewrite andb_false_r. reflexivity.
  - symmetry. apply Z.ltb_ge. revert Hi.
    unfold slot_offset, ARRAY_SIZE, NUM_CACHE_LINES, UINT8_MAX,
      sizeof_cache_line_t, offsetof_cacheLine, SPACING. lia.
Qed.

(** C10 for the largest byte, 255, in the probe array of a first iteration. *)
Lemma C10_secret_index_in_bounds_witness :
  heap (final_state (malloc still ARRAY_SIZE main_state)) !! 1%nat =
    Some (ORaw ARRAY_SIZE) /\
  probe_read (Ptr 1 0) (byte_val xff)
    (final_state (malloc still ARRAY_SIZE main_state)) =
    Ret tt (final_state (malloc still ARRAY_SIZE main_state)).
Proof.
  assert (H : heap (final_state (malloc still ARRAY_SIZE main_state)) !! 1%nat =
              Some (ORaw ARRAY_SIZE)) by reflexivity.
  split; [exact H|].
  exact (proj1 (proj2 (proj2 (proj2
           (C10_secret_index_in_bounds xff 1 _ H))))).
Defined.

(** ** Allocation failure *)

Lemma for_from_crash {A} (body : nat -> A -> M A) (i n : nat) (a : A)
    (s s' : state) (f : fault) :
  body i a s = Crash f s' -> for_from i (S n) body a s = Crash f s'.
Proof. intros H. simpl. unfold bind. rewrite H. reflexivity. Qed.

(** The flush of [ARRAY_SIZE] bytes from the null pointer ends at its first
    instruction. *)
Lemma flush_null_array (w : world) (s : state) :
  flush_cache_relaxed w Null ARRAY_SIZE s = Crash NullDeref s.
Proof. reflexivity. Qed.

Lemma iteration_null_flush (w : world) (addr sum : pointer) (s : state) :
  alloc_ok w (alloc_calls s) = false ->
  iteration w addr sum s = Crash NullDeref (count_alloc s).
Proof.
  intros Hfail. unfold iteration.
  unfold bind at 1. rewrite (malloc_fails w ARRAY_SIZE s Hfail).
  unfold bind at 1. rewrite flush_null_array. reflexivity.
Qed.

Lemma try_loop_crash (w : world) (addr sum : pointer) (n : nat) (bi : Z)
    (s s' : state) (f : fault) :
  iteration w addr sum s = Crash f s' ->
  try_loop w addr sum (S n) bi s = Crash f s'.
Proof.
  intros H.
  change (try_loop w addr sum (S n) bi s)
    with (bind (attempt w addr sum bi)
            (fun bi' => if bi' =? 0 then try_loop w addr sum n bi' else ret bi') s).
  unfold bind at 1. unfold attempt. unfold bind at 1. unfold measure, for_loop.
  change ITERATIONS with (S 19).
  rewrite (for_from_crash _ 0 19 tt s s' f H). reflexivity.
Qed.

(** C5 (as the code has it). [inferb] does not test what [malloc] returns.
    When a probe-array allocation fails, the iteration goes on with the null
    pointer: it is handed to [flush_cache_relaxed], whose first [DC CIVAC],
    at address 0, is an invalid access that ends the call there (line 82).
    Nothing of the measurement is done: no cache-maintenance instruction
    completes, the call ends before the access at the secret address
    (whatever that address is) and before any clock read; the rest of the
    iterations is not run, no allocation is tried again, no decision is
    taken, and no value, error or other, is returned. *)
Theorem C5_failed_allocation_is_used
    (w : world) (addr sum : pointer) (s : state) :
  alloc_ok w (alloc_calls s) = false ->
  let crashed := count_alloc s in
  malloc w ARRAY_SIZE s = Ret Null crashed /\
  flush_cache_relaxed w Null ARRAY_SIZE crashed = Crash NullDeref crashed /\
  iteration w addr sum s = Crash NullDeref crashed /\
  (forall i n, for_from i (S n) (fun _ _ => iteration w addr sum) tt s =
               Crash NullDeref crashed) /\
  (forall bi n, try_loop w addr sum (S n) bi s = Crash NullDeref crashed) /\
  heap crashed = heap s /\ clock_reads crashed = clock_reads s /\
  alloc_calls crashed = S (alloc_calls s) /\ dc_ops crashed = dc_ops s /\
  decisions crashed = decisions s.
Proof.
  intros Hfail crashed.
  pose proof (iteration_null_flush w addr sum s Hfail) as Hit.
  split; [apply malloc_fails; exact Hfail|].
  split; [apply flush_null_array|].
  split; [exact Hit|]. split.
  - intros i n. apply for_from_crash. exact Hit.
  - split; [intros bi n; apply try_loop_crash; exact Hit|].
    repeat split.
Qed.

(** C5 where [calloc] has succeeded and the first [malloc] fails. *)
Lemma C5_failed_allocation_is_used_witness :
  let s := final_state (calloc_doubles nomem NUM_CACHE_LINES main_state) in
  alloc_ok nomem (alloc_calls s) = false /\
  flush_cache_relaxed nomem Null ARRAY_SIZE (count_alloc s) =
    Crash NullDeref (count_alloc s) /\
  iteration nomem the_byte (Ptr 1 0) s = Crash NullDeref (count_alloc s).
Proof.
  intros s.
  assert (Hf : alloc_ok nomem (alloc_calls s) = false) by reflexivity.
  destruct (C5_failed_allocation_is_used nomem the_byte (Ptr 1 0) s Hf)
    as (_ & Hflush & Hit & _).
  split; [exact Hf|]. split; [exact Hflush | exact Hit].
Defined.

(** C5 as stated fails: in a world where the first [malloc] fails, [inferb]
    carries on with the failed allocation. It hands the null pointer to
    [flush_cache_relaxed] and ends in the invalid access of the first
    [DC CIVAC]: the call does not return, so no error reaches the caller. *)
Lemma C5_alloc_failure_not_propagated :
  alloc_ok nomem 1%nat = false /\
  exists s', inferb nomem the_byte main_state = Crash NullDeref s' /\
             dc_ops s' = 0 /\ alloc_calls s' = 2%nat /\ clock_reads s' = 0 /\
             decisions s' = [].
Proof.
  split; [reflexivity|].
  eexists. split.
  - unfold inferb. unfold bind at 1.
    rewrite (calloc_ok nomem NUM_CACHE_LINES main_state eq_refl).
    change RETRIES_IF_ZERO with (S 49).
    apply try_loop_crash. apply iteration_null_flush. reflexivity.
  - repeat split.
Qed.

(** ** The sample vector across attempts *)

Lemma lookup_repeat {A} (x : A) (n i : nat) :
  (i < n)%nat -> repeat x n !! i = Some x.
Proof.
  revert i. induction n as [|n IH]; intros i Hi; [lia|].
  destruct i as [|i]; [reflexivity|]. simpl. apply IH. lia.
Qed.

Lemma try_loop_retry (w : world) (addr sum : pointer) (n : nat) (bi : Z) (s s1 : state) :
  attempt w addr sum bi s = Ret 0 s1 ->
  try_loop w addr sum (S n) bi s = try_loop w addr sum n 0 s1.
Proof.
  intros H.
  change (try_loop w addr sum (S n) bi s)
    with (bind (attempt w addr sum bi)
            (fun bi' => if bi' =? 0 then try_loop w addr sum n bi' else ret bi') s).
  unfold bind. rewrite H. reflexivity.
Qed.

(** C1 (what the code does). The sample vector is zeroed once, by [calloc],
    before the first attempt. A retry starts in the very state the attempt
    before it ended in, so its sums start from the totals of the earlier
    attempts. In the world [carry]: attempt 1 decides 0; when attempt 2
    starts the total of slot 1 is 2000 ticks (83333.3 ns), not 0; attempt 2
    decides 0 on the accumulated sums, where the measurements of attempt 2
    alone, added to a cleared vector, give 200. *)
Theorem C1_sums_carried_into_retries :
  (forall w s, alloc_ok w (alloc_calls s) = true ->
     exists sum s0, calloc_doubles w NUM_CACHE_LINES s = Ret sum s0 /\
       forall i, (i < nslots)%nat -> load_double sum i s0 = Ret dzero s0) /\
  (forall w addr sum n bi s s1,
     attempt w addr sum bi s = Ret 0 s1 ->
     try_loop w addr sum (S n) bi s = try_loop w addr sum n 0 s1) /\
  carry_report =
    Some (0, Some (S754_finite false 5726623061333333 (-36)), Some 0, Some 200).
Proof.
  split; [|split].
  - intros w s Hok. rewrite (calloc_ok w NUM_CACHE_LINES s Hok).
    eexists _, _. split; [reflexivity|]. intros i Hi.
    apply (load_double_ok _ (repeat dzero (Z.to_nat NUM_CACHE_LINES))).
    + simpl. apply list_lookup_middle. reflexivity.
    + apply lookup_repeat. exact Hi.
  - intros w addr sum n bi s s1. apply try_loop_retry.
  - vm_compute. reflexivity.
Qed.

(** ** A world in which every decision is 0

    In the world [still] the clock shows the same tick count at every read,
    so every elapsed time is 0, the sample vector stays at zero and every
    attempt decides 0. *)

Lemma set_heap_same (s : state) : set_heap (heap s) s = s.
Proof. destruct s. reflexivity. Qed.

Lemma still_time_slot (sumb ab i : nat) (s : state) :
  zero_sums sumb (heap s) ->
  heap s !! ab = Some (ORaw ARRAY_SIZE) ->
  (i < nslots)%nat ->
  time_slot still (Ptr sumb 0) (Ptr ab 0) i s = Ret tt (tick (tick s)).
Proof.
  intros Hz Hab Hi. unfold zero_sums in Hz.
  unfold time_slot. unfold bind at 1. rewrite startTimer_eq.
  unfold bind at 1. rewrite probe_read_ok; cycle 1.
  { exact Hab. }
  { rewrite nslots_eq in Hi. unfold NUM_CACHE_LINES, UINT8_MAX. lia. }
  unfold bind at 1. rewrite timeElapsed_eq.
  unfold bind at 1.
  rewrite (load_double_ok sumb (repeat dzero nslots) i dzero);
    [|exact Hz|apply lookup_repeat; exact Hi].
  rewrite (store_double_ok sumb (repeat dzero nslots));
    [|exact Hz|rewrite repeat_length; exact Hi].
  change (fadd dzero _) with dzero.
  rewrite (list_insert_id (repeat dzero nslots) i dzero)
    by (apply lookup_repeat; exact Hi).
  cbn [heap tick]. rewrite (list_insert_id (heap s) sumb _ Hz).
  f_equal.
Qed.

Lemma still_iteration (addr : pointer) (v : byte) (sumb : nat) (s : state) :
  holds_byte addr v (heap s) ->
  zero_sums sumb (heap s) ->
  exists s', iteration still addr (Ptr sumb 0) s = Ret tt s' /\
             holds_byte addr v (heap s') /\ zero_sums sumb (heap s') /\
             decisions s' = decisions s.
Proof.
  intros Hv Hz. unfold iteration.
  unfold bind at 1. rewrite (malloc_ok still ARRAY_SIZE s eq_refl).
  unfold bind at 1. rewrite flush_fresh_array.
  set (s1 := add_dc 65536 (set_heap (heap s ++ [ORaw ARRAY_SIZE]) (count_alloc s))).
  assert (Hab : heap s1 !! length (heap s) = Some (ORaw ARRAY_SIZE)).
  { simpl. apply list_lookup_middle. reflexivity. }
  assert (Hz1 : zero_sums sumb (heap s1)).
  { unfold zero_sums in *. simpl. rewrite lookup_app_l; [exact Hz|].
    eapply lookup_lt_Some; eauto. }
  assert (Hv1 : holds_byte addr v (heap s1)).
  { eapply holds_byte_kept; [exact Hv|]. intros k Hk. simpl.
    apply lookup_app_l. exact Hk. }
  unfold bind at 1. rewrite (load_byte_ok _ addr v s1 Hv1).
  unfold bind at 1. rewrite (probe_read_ok _ _ s1 Hab (byte_val_range v)).
  unfold time_slots, for_loop.
  destruct (for_from_returns
              (fun (_ : nat) (_ : unit) s' =>
                 heap s' = heap s1 /\ decisions s' = decisions s1)
              (fun i _ => time_slot still (Ptr sumb 0) (Ptr (length (heap s)) 0) i)
              nslots 0%nat tt s1) as ([] & s' & Hrun & Hh & Hd).
  - split; reflexivity.
  - intros j [] s2 Hj (Hh & Hd). exists tt, (tick (tick s2)). split.
    + apply still_time_slot; [rewrite Hh; exact Hz1 | rewrite Hh; exact Hab | lia].
    + split; [exact Hh | exact Hd].
  - exists s'. split; [exact Hrun|]. rewrite Hh.
    split; [exact Hv1|]. split; [exact Hz1|]. rewrite Hd. reflexivity.
Qed.

Lemma still_attempt (addr : pointer) (v : byte) (sumb : nat) (bi : Z) (s : state) :
  holds_byte addr v (heap s) ->
  zero_sums sumb (heap s) ->
  exists s', attempt still addr (Ptr sumb 0) bi s = Ret 0 s' /\
             holds_byte addr v (heap s') /\ zero_sums sumb (heap s') /\
             decisions s' = decisions s ++ [0].
Proof.
  intros Hv Hz. unfold attempt, measure, for_loop.
  destruct (for_from_returns
              (fun (_ : nat) (_ : unit) s' =>
                 holds_byte addr v (heap s') /\ zero_sums sumb (heap s') /\
                 decisions s' = decisions s)
              (fun _ _ => iteration still addr (Ptr sumb 0))
              ITERATIONS 0%nat tt s) as ([] & s1 & Hrun & Hv1 & Hz1 & Hd1).
  - auto.
  - intros j [] s2 Hj (Hv2 & Hz2 & Hd2).
    destruct (still_iteration addr v sumb s2 Hv2 Hz2) as (s3 & Hrun & Hv3 & Hz3 & Hd3).
    exists tt, s3. split; [exact Hrun|]. rewrite Hd3. auto.
  - unfold bind at 1. rewrite Hrun.
    unfold bind at 1.
    rewrite (find_best_scan sumb (repeat dzero nslots) bi s1 Hz1)
      by apply repeat_length.
    change (fst (scan_from 0 (repeat dzero nslots) (bi, DBL_MAX))) with 0.
    exists (log 0 s1). split; [reflexivity|].
    split; [exact Hv1|]. split; [exact Hz1|]. simpl. rewrite Hd1. reflexivity.
Qed.

Lemma still_try_loop (addr : pointer) (v : byte) (sumb : nat) :
  forall (n : nat) (bi : Z) (s : state),
    holds_byte addr v (heap s) ->
    zero_sums sumb (heap s) ->
    exists s', try_loop still addr (Ptr sumb 0) (S n) bi s = Ret 0 s' /\
               decisions s' = decisions s ++ repeat 0 (S n).
Proof.
  induction n as [|n IH]; intros bi s Hv Hz;
    destruct (still_attempt addr v sumb bi s Hv Hz) as (s1 & Hrun & Hv1 & Hz1 & Hd1).
  - exists s1. split; [|exact Hd1].
    cbn [try_loop]. unfold bind. rewrite Hrun. reflexivity.
  - destruct (IH 0 s1 Hv1 Hz1) as (s' & Hrest & Hd').
    exists s'. split.
    + rewrite (try_loop_retry still addr (Ptr sumb 0) (S n) bi s s1 Hrun).
      exact Hrest.
    + rewrite Hd', Hd1, <- app_assoc. reflexivity.
Qed.

(** In the world [still], [inferb] decides 0 in each of its
    [RETRIES_IF_ZERO] attempts and returns 0. *)
Example still_run :
  exists s', inferb still the_byte main_state = Ret 0 s' /\
             decisions s' = repeat 0 RETRIES_IF_ZERO.
Proof.
  unfold inferb. unfold bind at 1.
  rewrite (calloc_ok still NUM_CACHE_LINES main_state eq_refl).
  change RETRIES_IF_ZERO with (S 49).
  destruct (still_try_loop the_byte x2a 1 49 (byte_val (junk still))
              (set_heap (heap main_state ++
                          [ODoubles (repeat dzero (Z.to_nat NUM_CACHE_LINES))])
                        (count_alloc main_state))) as (s' & Hrun & Hd).
  - exists [x2a]. repeat split. unfold Z.le. simpl. discriminate.
  - reflexivity.
  - exists s'. split; [exact Hrun | exact Hd].
Qed.

(** ** Monotonicity of the elapsed time *)

Lemma digits2_pos_size (p : positive) : digits2_pos p = Pos.size p.
Proof. induction p; simpl; congruence. Qed.

Lemma Zdigits2_ndigits (p : positive) : Zdigits2 (Zpos p) = ndigits (Zpos p).
Proof.
  unfold ndigits. simpl Zdigits2. rewrite digits2_pos_size.
  destruct p; simpl; try reflexivity; rewrite Pos2Z.inj_succ; lia.
Qed.

Lemma ndigits_bounds (M : Z) : 0 < M -> 2 ^ (ndigits M - 1) <= M < 2 ^ ndigits M.
Proof.
  intros H. unfold ndigits. replace (Z.log2 M + 1 - 1) with (Z.log2 M) by lia.
  pose proof (Z.log2_spec M H). unfold Z.succ in *. lia.
Qed.

Lemma ndigits_pos (M : Z) : 0 < M -> 0 < ndigits M.
Proof. intros H. unfold ndigits. pose proof (Z.log2_nonneg M). lia. Qed.

Lemma ndigits_shift (M k : Z) : 0 < M -> 0 <= k -> ndigits (M * 2 ^ k) = ndigits M + k.
Proof. intros HM Hk. unfold ndigits. rewrite Z.log2_mul_pow2 by lia. lia. Qed.

Lemma ndigits_mono (M1 M2 : Z) : 0 < M1 <= M2 -> ndigits M1 <= ndigits M2.
Proof. intros H. unfold ndigits. pose proof (Z.log2_le_mono M1 M2). lia. Qed.

(** One step of the shift of [binary_round_aux], on a mantissa that is not
    negative. *)
Lemma shr_1_nonneg (m : Z) (r s : bool) :
  0 <= m ->
  shr_1 {| shr_m := m; shr_r := r; shr_s := s |} =
  {| shr_m := m / 2; shr_r := Z.odd m; shr_s := r || s |}.
Proof.
  intros Hm. destruct m as [|p|p]; [reflexivity| |lia].
  destruct p as [p|p|]; simpl.
  - f_equal. rewrite Pos2Z.inj_xI.
    apply (Z.div_unique_pos _ _ _ 1); lia.
  - f_equal. rewrite Pos2Z.inj_xO.
    apply (Z.div_unique_pos _ _ _ 0); lia.
  - reflexivity.
Qed.

Lemma iter_pos_nat {A} (f : A -> A) (p : positive) :
  forall x, SpecFloat.iter_pos f p x = Nat.iter (Pos.to_nat p) f x.
Proof.
  induction p as [p IH|p IH|]; intros x.
  - rewrite Pos2Nat.inj_xI. cbn [SpecFloat.iter_pos]. rewrite !IH.
    replace (S (2 * Pos.to_nat p))%nat with (Pos.to_nat p + (Pos.to_nat p + 1))%nat by lia.
    rewrite !Nat.iter_add. reflexivity.
  - rewrite Pos2Nat.inj_xO. cbn [SpecFloat.iter_pos]. rewrite !IH.
    replace (2 * Pos.to_nat p)%nat with (Pos.to_nat p + Pos.to_nat p)%nat by lia.
    rewrite Nat.iter_add. reflexivity.
  - reflexivity.
Qed.

(** [k + 1] steps of [shr_1] from an exact record. *)
Lemma shr_iter (m : Z) (k : nat) :
  0 <= m ->
  Nat.iter (S k) shr_1 {| shr_m := m; shr_r := false; shr_s := false |} =
  {| shr_m := m / 2 ^ Z.of_nat (S k);
     shr_r := Z.testbit m (Z.of_nat k);
     shr_s := negb (m mod 2 ^ Z.of_nat k =? 0) |}.
Proof.
  intros Hm. induction k as [|k IH].
  - change (Nat.iter 1 shr_1 ?x) with (shr_1 x).
    rewrite shr_1_nonneg by exact Hm.
    change (2 ^ Z.of_nat 1) with 2. change (2 ^ Z.of_nat 0) with 1.
    rewrite Z.mod_1_r. rewrite Z.bit0_odd. reflexivity.
  - change (Nat.iter (S (S k)) shr_1 ?x) with (shr_1 (Nat.iter (S k) shr_1 x)).
    rewrite IH. rewrite shr_1_nonneg by (apply Z.div_pos; lia).
    f_equal.
    + rewrite Z.div_div by lia. f_equal.
      rewrite (Nat2Z.inj_succ (S k)). rewrite Z.pow_succ_r by lia. lia.
    + rewrite (Nat2Z.inj_succ k). rewrite Z.testbit_odd, Z.shiftr_div_pow2 by lia.
      rewrite <- (Nat2Z.inj_succ k). reflexivity.
    + (* the sticky bit: some lower bit of [m] is set *)
      rewrite (Nat2Z.inj_succ k). rewrite Z.pow_succ_r by lia.
      set (H := 2 ^ Z.of_nat k).
      assert (HH : 0 < H) by (apply Z.pow_pos_nonneg; lia).
      pose proof (Z.testbit_spec' m (Z.of_nat k) ltac:(lia)) as Hb. fold H in Hb.
      pose proof (Z.div_mod m H ltac:(lia)) as Hdm.
      pose proof (Z.mod_pos_bound m H HH) as Hr.
      pose proof (Z.div_mod (m / H) 2 ltac:(lia)) as Hd2.
      pose proof (Z.mod_pos_bound (m / H) 2 ltac:(lia)) as Hr2.
      assert (Hmod : m mod (2 * H) = H * ((m / H) mod 2) + m mod H).
      { symmetry. apply (Z.mod_unique_pos _ _ (m / H / 2)); nia. }
      rewrite Hmod, <- Hb.
      destruct (Z.testbit m (Z.of_nat k)); simpl Z.b2z; simpl orb.
      * symmetry. apply negb_true_iff, Z.eqb_neq. lia.
      * f_equal. f_equal. lia.
Qed.

Lemma rne_floor (M n : Z) :
  0 <= M -> 0 < n -> M / 2 ^ n <= rne M n <= M / 2 ^ n + 1.
Proof.
  intros HM Hn. unfold rne.
  replace (n <=? 0) with false by (symmetry; apply Z.leb_gt; lia).
  cbv zeta.
  destruct (Z.testbit M (n - 1)); [|lia].
  destruct (M mod 2 ^ (n - 1) =? 0); [|lia].
  destruct (Z.even (M / 2 ^ n)); lia.
Qed.

Lemma shr_rne (m e n : Z) :
  0 <= m -> 0 <= n ->
  round_nearest_even (shr_m (fst (shr {| shr_m := m; shr_r := false; shr_s := false |} e n)))
    (loc_of_shr_record (fst (shr {| shr_m := m; shr_r := false; shr_s := false |} e n)))
  = rne m n /\
  snd (shr {| shr_m := m; shr_r := false; shr_s := false |} e n) = e + n.
Proof.
  intros Hm Hn. destruct n as [|p|p]; [| |lia].
  - simpl. unfold rne. simpl. split; lia.
  - unfold shr. cbn [fst snd]. split; [|reflexivity].
    rewrite iter_pos_nat.
    destruct (Pos2Nat.is_succ p) as [k Hk]. rewrite Hk.
    rewrite shr_iter by exact Hm.
    assert (Hp : Z.pos p = Z.of_nat (S k)) by lia.
    unfold rne. rewrite Hp.
    replace (Z.of_nat (S k) <=? 0) with false by (symmetry; apply Z.leb_gt; lia).
    replace (Z.of_nat (S k) - 1) with (Z.of_nat k) by lia.
    cbv zeta. cbn [shr_m loc_of_shr_record].
    destruct (Z.testbit m (Z.of_nat k));
      destruct (m mod 2 ^ Z.of_nat k =? 0); reflexivity.
Qed.

Lemma dfexp_fexp (L : Z) : fexp dprec demax L = dfexp L.
Proof. reflexivity. Qed.

Lemma dfexp_ge (L : Z) : L - 53 <= dfexp L /\ -1074 <= dfexp L.
Proof. unfold dfexp, femin, dprec, demax. lia. Qed.

Lemma dfexp_cases (L : Z) : dfexp L = L - 53 \/ (dfexp L = -1074 /\ L - 53 <= -1074).
Proof. unfold dfexp, femin, dprec, demax. lia. Qed.

Lemma dfexp_mono (L1 L2 : Z) : L1 <= L2 -> dfexp L1 <= dfexp L2.
Proof. unfold dfexp. lia. Qed.

(** The rounded mantissa has at most 53 bits, or is [2 ^ 53]. *)
Lemma rne_bounds (M n : Z) :
  0 < M -> ndigits M - n <= 53 -> 0 <= rne M n <= 2 ^ 53.
Proof.
  intros HM Hd. pose proof (ndigits_bounds M HM) as [_ Hlt].
  pose proof (ndigits_pos M HM) as Hdp.
  destruct (Z_le_gt_dec n 0) as [Hn|Hn].
  - unfold rne. replace (n <=? 0) with true by (symmetry; apply Z.leb_le; lia).
    assert (M * 2 ^ (- n) < 2 ^ 53).
    { apply Z.lt_le_trans with (2 ^ ndigits M * 2 ^ (- n)).
      - apply Z.mul_lt_mono_pos_r; [apply Z.pow_pos_nonneg; lia | exact Hlt].
      - rewrite <- Z.pow_add_r by lia. apply Z.pow_le_mono_r; lia. }
    assert (0 <= M * 2 ^ (- n)) by (apply Z.mul_nonneg_nonneg; [lia | apply Z.pow_nonneg; lia]).
    lia.
  - pose proof (rne_floor M n ltac:(lia) ltac:(lia)) as [Hlo Hhi].
    assert (0 <= M / 2 ^ n) by (apply Z.div_pos; [lia | apply Z.pow_pos_nonneg; lia]).
    assert (M / 2 ^ n < 2 ^ 53).
    { apply Z.div_lt_upper_bound; [apply Z.pow_pos_nonneg; lia|].
      rewrite <- Z.pow_add_r by lia.
      apply Z.lt_le_trans with (2 ^ ndigits M); [exact Hlt|].
      apply Z.pow_le_mono_r; lia. }
    lia.
Qed.

Lemma shr_exact_id (m e n : Z) :
  n <= 0 -> shr {| shr_m := m; shr_r := false; shr_s := false |} e n =
            ({| shr_m := m; shr_r := false; shr_s := false |}, e).
Proof. intros Hn. destruct n as [|p|p]; try reflexivity. lia. Qed.

(** [binary_round_aux] on a positive mantissa that needs no shift to the
    left is [round_pair]. *)
Lemma binary_round_aux_pair (M : positive) (E : Z) :
  E <= dfexp (ndigits (Zpos M) + E) ->
  binary_round_aux dprec demax false (Zpos M) E loc_Exact =
  pack (round_pair (Zpos M) E).
Proof.
  intros Hn. unfold binary_round_aux, shr_fexp.
  rewrite Zdigits2_ndigits, dfexp_fexp.
  set (eps := dfexp (ndigits (Z.pos M) + E)) in *.
  cbn [shr_record_of_loc].
  destruct (shr_rne (Z.pos M) E (eps - E) ltac:(lia) ltac:(lia)) as [Hq He].
  destruct (shr {| shr_m := Z.pos M; shr_r := false; shr_s := false |} E (eps - E))
    as [mrs' e'] eqn:Hshr.
  cbn [fst snd] in Hq, He. rewrite Hq. subst e'.
  replace (E + (eps - E)) with eps by lia.
  pose proof (dfexp_ge (ndigits (Z.pos M) + E)) as [Hge1 Hge2]. fold eps in Hge1, Hge2.
  pose proof (rne_bounds (Z.pos M) (eps - E) ltac:(lia) ltac:(lia)) as Hb.
  unfold round_pair. fold eps.
  set (q := rne (Z.pos M) (eps - E)) in *.
  change (2 ^ dprec) with (2 ^ 53).
  destruct (q =? 2 ^ 53) eqn:Hq53.
  - apply Z.eqb_eq in Hq53. rewrite Hq53.
    change (Zdigits2 (2 ^ 53)) with 54.
    rewrite dfexp_fexp.
    assert (Hf : dfexp (54 + eps) = eps + 1)
      by (unfold dfexp, femin, dprec, demax; lia).
    rewrite Hf. replace (eps + 1 - eps) with 1 by lia.
    reflexivity.
  - apply Z.eqb_neq in Hq53.
    assert (Hn2 : fexp dprec demax (Zdigits2 q + eps) - eps <= 0).
    { rewrite dfexp_fexp. destruct q as [|p|p]; [| |lia].
      - simpl Zdigits2. unfold dfexp, femin, dprec, demax. lia.
      - rewrite Zdigits2_ndigits.
        assert (ndigits (Z.pos p) <= 53).
        { pose proof (ndigits_bounds (Z.pos p) ltac:(lia)) as [Hlo _].
          destruct (Z_le_gt_dec (ndigits (Z.pos p)) 53); [assumption|].
          assert (2 ^ 53 <= 2 ^ (ndigits (Z.pos p) - 1))
            by (apply Z.pow_le_mono_r; lia).
          lia. }
        unfold dfexp, femin, dprec, demax. lia. }
    rewrite (shr_exact_id q eps _ Hn2). cbn [shr_m]. reflexivity.
Qed.

Lemma pow2_pos (n : Z) : 0 <= n -> 0 < 2 ^ n.
Proof. intros. apply Z.pow_pos_nonneg; lia. Qed.

(** Decomposition of [M] around bit [n - 1]. *)
Lemma split_at_bit (M n : Z) :
  0 < n ->
  M = 2 * 2 ^ (n - 1) * (M / 2 ^ n)
      + 2 ^ (n - 1) * Z.b2z (Z.testbit M (n - 1))
      + M mod 2 ^ (n - 1) /\
  0 <= M mod 2 ^ (n - 1) < 2 ^ (n - 1).
Proof.
  intros Hn. set (H := 2 ^ (n - 1)).
  assert (HH : 0 < H) by (apply pow2_pos; lia).
  assert (Hpow : 2 ^ n = 2 * H).
  { unfold H. rewrite <- Z.pow_succ_r by lia. f_equal. lia. }
  rewrite Hpow. rewrite (Z.testbit_spec' M (n - 1)) by lia. fold H.
  pose proof (Z.div_mod M H ltac:(lia)) as Hdm.
  pose proof (Z.mod_pos_bound M H HH) as Hr.
  pose proof (Z.div_mod (M / H) 2 ltac:(lia)) as Hd2.
  pose proof (Z.mod_pos_bound (M / H) 2 ltac:(lia)) as Hr2.
  split; [|exact Hr].
  assert (Hq : M / (2 * H) = M / H / 2).
  { rewrite (Z.mul_comm 2 H). rewrite Z.div_div by lia. reflexivity. }
  rewrite Hq. nia.
Qed.

Lemma rne_mono (M1 M2 n : Z) :
  0 <= M1 <= M2 -> rne M1 n <= rne M2 n.
Proof.
  intros HM. destruct (Z_le_gt_dec n 0) as [Hn|Hn].
  - unfold rne. replace (n <=? 0) with true by (symmetry; apply Z.leb_le; lia).
    apply Z.mul_le_mono_nonneg_r; [apply Z.pow_nonneg; lia | lia].
  - assert (Hq : M1 / 2 ^ n <= M2 / 2 ^ n)
      by (apply Z.div_le_mono; [apply pow2_pos; lia | lia]).
    pose proof (rne_floor M1 n ltac:(lia) ltac:(lia)) as F1.
    pose proof (rne_floor M2 n ltac:(lia) ltac:(lia)) as F2.
    destruct (Z_lt_le_dec (M1 / 2 ^ n) (M2 / 2 ^ n)) as [Hlt|Hge]; [lia|].
    assert (Heq : M1 / 2 ^ n = M2 / 2 ^ n) by lia.
    destruct (split_at_bit M1 n ltac:(lia)) as [D1 R1].
    destruct (split_at_bit M2 n ltac:(lia)) as [D2 R2].
    rewrite Heq in D1.
    unfold rne. replace (n <=? 0) with false by (symmetry; apply Z.leb_gt; lia).
    cbv zeta. rewrite Heq.
    set (H := 2 ^ (n - 1)) in *. set (q := M2 / 2 ^ n) in *.
    assert (HH : 0 < H) by (apply pow2_pos; lia).
    destruct (Z.testbit M1 (n - 1)), (Z.testbit M2 (n - 1));
      cbn [Z.b2z] in D1, D2;
      destruct (Z.eqb_spec (M1 mod H) 0); destruct (Z.eqb_spec (M2 mod H) 0);
      destruct (Z.even q); lia.
Qed.

Lemma rne_align (M n k : Z) :
  0 < M -> 0 <= k -> rne (M * 2 ^ k) (n + k) = rne M n.
Proof.
  intros HM Hk. pose proof (pow2_pos k Hk) as Hpk.
  destruct (Z_le_gt_dec (n + k) 0) as [H1|H1].
  - unfold rne.
    replace (n + k <=? 0) with true by (symmetry; apply Z.leb_le; lia).
    replace (n <=? 0) with true by (symmetry; apply Z.leb_le; lia).
    replace (- n) with (k + - (n + k)) by lia.
    rewrite Z.pow_add_r by lia. lia.
  - destruct (Z_le_gt_dec n 0) as [H2|H2].
    + unfold rne.
      replace (n + k <=? 0) with false by (symmetry; apply Z.leb_gt; lia).
      replace (n <=? 0) with true by (symmetry; apply Z.leb_le; lia).
      cbv zeta.
      assert (Hsplit : M * 2 ^ k = (M * 2 ^ (- n)) * 2 ^ (n + k)).
      { rewrite <- Z.mul_assoc, <- Z.pow_add_r by lia. do 2 f_equal. lia. }
      rewrite Hsplit at 1.
      replace (n + k - 1) with ((n + k - 1)) by lia.
      rewrite Z.mul_pow2_bits_low by lia.
      rewrite Hsplit. rewrite Z.div_mul by (pose proof (pow2_pos (n + k)); lia).
      reflexivity.
    + unfold rne.
      replace (n + k <=? 0) with false by (symmetry; apply Z.leb_gt; lia).
      replace (n <=? 0) with false by (symmetry; apply Z.leb_gt; lia).
      cbv zeta.
      assert (Hq : M * 2 ^ k / 2 ^ (n + k) = M / 2 ^ n).
      { rewrite Z.pow_add_r by lia.
        apply Z.div_mul_cancel_r; pose proof (pow2_pos n); lia. }
      assert (Hb : Z.testbit (M * 2 ^ k) (n + k - 1) = Z.testbit M (n - 1)).
      { replace (n + k - 1) with (k + (n - 1)) by lia.
        apply (Z.mul_pow2_bits_add M k (n - 1)). lia. }
      assert (Hr : (M * 2 ^ k) mod 2 ^ (n + k - 1) = (M mod 2 ^ (n - 1)) * 2 ^ k).
      { replace (n + k - 1) with (n - 1 + k) by lia.
        rewrite Z.pow_add_r by lia.
        apply Z.mul_mod_distr_r; pose proof (pow2_pos (n - 1)); lia. }
      rewrite Hq, Hb, Hr.
      destruct (Z.testbit M (n - 1)); [|reflexivity].
      destruct (Z.eqb_spec (M mod 2 ^ (n - 1)) 0) as [T|T].
      * rewrite T. reflexivity.
      * replace (M mod 2 ^ (n - 1) * 2 ^ k =? 0) with false; [reflexivity|].
        symmetry. apply Z.eqb_neq. nia.
Qed.

Lemma round_pair_align (M E k : Z) :
  0 < M -> 0 <= k -> round_pair (M * 2 ^ k) (E - k) = round_pair M E.
Proof.
  intros HM Hk. unfold round_pair.
  rewrite ndigits_shift by assumption.
  replace (ndigits M + k + (E - k)) with (ndigits M + E) by lia.
  replace (dfexp (ndigits M + E) - (E - k))
    with (dfexp (ndigits M + E) - E + k) by lia.
  rewrite rne_align by assumption. reflexivity.
Qed.

Lemma rne_normal_lower (M n : Z) :
  0 < M -> ndigits M - n = 53 -> 2 ^ 52 <= rne M n.
Proof.
  intros HM Hd. pose proof (ndigits_bounds M HM) as [Hlo _].
  destruct (Z_le_gt_dec n 0) as [Hn|Hn].
  - unfold rne. replace (n <=? 0) with true by (symmetry; apply Z.leb_le; lia).
    replace 52 with (ndigits M - 1 + - n) by lia.
    rewrite Z.pow_add_r by (pose proof (ndigits_pos M HM); lia).
    apply Z.mul_le_mono_nonneg_r; [apply Z.pow_nonneg; lia | exact Hlo].
  - pose proof (rne_floor M n ltac:(lia) ltac:(lia)) as [F _].
    apply Z.le_trans with (M / 2 ^ n); [|exact F].
    apply Z.div_le_lower_bound; [apply pow2_pos; lia|].
    rewrite <- Z.pow_add_r by lia.
    replace (n + 52) with (ndigits M - 1) by lia. exact Hlo.
Qed.

Lemma round_pair_mono (M1 M2 E : Z) :
  0 < M1 <= M2 -> ple (round_pair M1 E) (round_pair M2 E).
Proof.
  intros HM. unfold round_pair.
  pose proof (ndigits_mono M1 M2 HM) as Hd.
  pose proof (dfexp_mono (ndigits M1 + E) (ndigits M2 + E) ltac:(lia)) as He.
  set (e1 := dfexp (ndigits M1 + E)) in *.
  set (e2 := dfexp (ndigits M2 + E)) in *.
  pose proof (dfexp_ge (ndigits M1 + E)) as [G1 G1']. fold e1 in G1, G1'.
  pose proof (dfexp_ge (ndigits M2 + E)) as [G2 G2']. fold e2 in G2, G2'.
  pose proof (rne_bounds M1 (e1 - E) ltac:(lia) ltac:(lia)) as B1.
  pose proof (rne_bounds M2 (e2 - E) ltac:(lia) ltac:(lia)) as B2.
  change (2 ^ dprec) with (2 ^ 53). change (2 ^ (dprec - 1)) with (2 ^ 52).
  assert (P52 : 0 < 2 ^ 52 < 2 ^ 53) by (split; reflexivity).
  destruct (Z_lt_le_dec e1 e2) as [Hlt|Hge].
  - (* the second operand is in a higher binade, hence normal *)
    assert (Hn2 : ndigits M2 - (e2 - E) = 53).
    { destruct (dfexp_cases (ndigits M2 + E)) as [Hc|[Hc _]]; fold e2 in Hc; lia. }
    pose proof (rne_normal_lower M2 (e2 - E) ltac:(lia) Hn2) as L2.
    set (q1 := rne M1 (e1 - E)) in *. set (q2 := rne M2 (e2 - E)) in *.
    unfold ple.
    destruct (Z.eqb_spec q1 (2 ^ 53)); destruct (Z.eqb_spec q2 (2 ^ 53));
      cbn [fst snd]; lia.
  - assert (Heq : e1 = e2) by lia.
    pose proof (rne_mono M1 M2 (e2 - E) ltac:(lia)) as Hm.
    rewrite Heq in *.
    set (q1 := rne M1 (e2 - E)) in *. set (q2 := rne M2 (e2 - E)) in *.
    unfold ple.
    destruct (Z.eqb_spec q1 (2 ^ 53)); destruct (Z.eqb_spec q2 (2 ^ 53));
      cbn [fst snd]; lia.
Qed.

Lemma pack_le (p1 p2 : Z * Z) : ple p1 p2 -> fle (pack p1) (pack p2) = true.
Proof.
  destruct p1 as [q1 e1], p2 as [q2 e2]. unfold ple, pack. cbn [fst snd].
  intros [[H1 H2]|(H1 & H2 & H3)].
  - subst q1. destruct q2 as [|m2|m2]; [reflexivity| |lia].
    destruct (e2 <=? demax - dprec); reflexivity.
  - destruct q1 as [|m1|m1]; [lia| |lia]. destruct q2 as [|m2|m2]; [lia| |lia].
    destruct (Z.leb_spec e1 (demax - dprec)) as [O1|O1];
      destruct (Z.leb_spec e2 (demax - dprec)) as [O2|O2];
      try reflexivity; [|lia].
    unfold fle, SFleb, SFcompare.
    destruct H3 as [H3|[H3 H4]].
    + apply Z.compare_lt_iff in H3. rewrite H3. reflexivity.
    + subst e2. rewrite Z.compare_refl.
      change (PosDef.Pos.compare_cont Eq m1 m2) with (Pos.compare m1 m2).
      destruct (Pos.compare_spec m1 m2); try reflexivity. lia.
Qed.

Lemma iter_xO_pow (m d : positive) :
  Zpos (Pos.iter xO m d) = Zpos m * 2 ^ Zpos d.
Proof.
  induction d as [|d IH] using Pos.peano_ind.
  - simpl. lia.
  - rewrite Pos.iter_succ, Pos2Z.inj_xO, IH, Pos2Z.inj_succ, Z.pow_succ_r by lia.
    lia.
Qed.

(** [binary_round] is [round_pair], whatever the exponent. *)
Lemma binary_round_pair (M : positive) (E : Z) :
  binary_round dprec demax false M E = pack (round_pair (Zpos M) E).
Proof.
  unfold binary_round, shl_align.
  change (Zpos (digits2_pos M)) with (Zdigits2 (Zpos M)).
  rewrite Zdigits2_ndigits, dfexp_fexp.
  set (eps := dfexp (ndigits (Z.pos M) + E)).
  destruct (eps - E) as [|d|d] eqn:Hd.
  - apply binary_round_aux_pair. fold eps. lia.
  - apply binary_round_aux_pair. fold eps. lia.
  - rewrite binary_round_aux_pair.
    + rewrite iter_xO_pow.
      replace eps with (E - Zpos d) at 1 by lia.
      rewrite round_pair_align by lia. reflexivity.
    + rewrite iter_xO_pow, ndigits_shift by lia.
      replace (ndigits (Z.pos M) + Z.pos d + eps) with (ndigits (Z.pos M) + E) by lia.
      fold eps. lia.
Qed.

Lemma double_of_Z_pair (d : positive) :
  double_of_Z (Zpos d) = pack (round_pair (Zpos d) 0).
Proof. apply binary_round_pair. Qed.

(** The conversion of an integer from 1 to [2 ^ 64 - 1] is a normal double. *)
Lemma round_pair_u64 (d : Z) :
  0 < d < 2 ^ 64 ->
  2 ^ 52 <= fst (round_pair d 0) < 2 ^ 53 /\ snd (round_pair d 0) <= 12.
Proof.
  intros Hd. unfold round_pair.
  pose proof (ndigits_pos d ltac:(lia)) as Hp.
  assert (Hn : ndigits d <= 64).
  { pose proof (ndigits_bounds d ltac:(lia)) as [Hlo _].
    destruct (Z_le_gt_dec (ndigits d) 64); [assumption|].
    assert (2 ^ 64 <= 2 ^ (ndigits d - 1)) by (apply Z.pow_le_mono_r; lia). lia. }
  rewrite Z.add_0_r, Z.sub_0_r.
  assert (He : dfexp (ndigits d) = ndigits d - 53)
    by (unfold dfexp, femin, dprec, demax; lia).
  rewrite He.
  pose proof (rne_normal_lower d (ndigits d - 53) ltac:(lia) ltac:(lia)) as Hlo.
  pose proof (rne_bounds d (ndigits d - 53) ltac:(lia) ltac:(lia)) as Hhi.
  change (2 ^ dprec) with (2 ^ 53). change (2 ^ (dprec - 1)) with (2 ^ 52).
  assert (P52 : 0 < 2 ^ 52 < 2 ^ 53) by (split; reflexivity).
  destruct (Z.eqb_spec (rne d (ndigits d - 53)) (2 ^ 53)); cbn [fst snd]; lia.
Qed.

Lemma pack_normal (p : Z * Z) :
  0 < fst p -> snd p <= demax - dprec ->
  pack p = S754_finite false (Z.to_pos (fst p)) (snd p).
Proof.
  destruct p as [q e]. cbn [fst snd]. intros Hq He. unfold pack. cbn [fst snd].
  destruct q as [|m|m]; try lia.
  replace (e <=? demax - dprec) with true by (symmetry; apply Z.leb_le; lia).
  reflexivity.
Qed.

(** The product of the conversion of [d] and a positive finite double, as
    a rounding. *)
Lemma fmul_of_Z_pair (d : Z) (m : positive) (e : Z) :
  0 < d < 2 ^ 64 ->
  fmul (double_of_Z d) (S754_finite false m e) =
  pack (round_pair (fst (round_pair d 0) * Z.pos m) (snd (round_pair d 0) + e)).
Proof.
  intros Hd. destruct (round_pair_u64 d Hd) as [[L U] X].
  assert (P52 : 0 < 2 ^ 52) by reflexivity.
  destruct d as [|p|p]; try lia.
  rewrite double_of_Z_pair.
  rewrite pack_normal by (unfold demax, dprec; lia).
  destruct (round_pair (Z.pos p) 0) as [q ee]. cbn [fst snd] in *.
  unfold fmul, SFmul. cbn [xorb].
  replace (Z.pos (Z.to_pos q * m)) with (q * Z.pos m)
    by (rewrite Pos2Z.inj_mul, Z2Pos.id by lia; reflexivity).
  assert (Hnd : 53 <= ndigits (q * Z.pos m)).
  { unfold ndigits. assert (52 <= Z.log2 (q * Z.pos m)); [|lia].
    apply Z.log2_le_pow2; nia. }
  destruct (q * Z.pos m) as [|pm|pm] eqn:Hpm; try nia.
  apply binary_round_aux_pair.
  pose proof (dfexp_ge (ndigits (Z.pos pm) + (ee + e))) as [G _]. lia.
Qed.

(** Multiplying the conversions of [d1 <= d2] by a positive finite double
    gives results in the same order. *)
Lemma fmul_of_Z_mono (d1 d2 : Z) (m : positive) (e : Z) :
  0 < d1 <= d2 -> d2 < 2 ^ 64 ->
  fle (fmul (double_of_Z d1) (S754_finite false m e))
      (fmul (double_of_Z d2) (S754_finite false m e)) = true.
Proof.
  intros Hd Hd2.
  rewrite !fmul_of_Z_pair by lia.
  destruct (round_pair_u64 d1 ltac:(lia)) as [[L1 U1] X1].
  destruct (round_pair_u64 d2 ltac:(lia)) as [[L2 U2] X2].
  pose proof (round_pair_mono d1 d2 0 Hd) as Hple.
  assert (P52 : 0 < 2 ^ 52) by reflexivity.
  destruct (round_pair d1 0) as [q1 e1].
  destruct (round_pair d2 0) as [q2 e2].
  cbn [fst snd] in *.
  apply pack_le.
  unfold ple in Hple. cbn [fst snd] in Hple.
  destruct Hple as [[Hz _]|(_ & _ & [Hlt|[Heq Hle]])]; [lia| |].
  - (* different binades: align the second operand on the first *)
    rewrite <- (round_pair_align (q2 * Z.pos m) (e2 + e) (e2 - e1)) by nia.
    replace (e2 + e - (e2 - e1)) with (e1 + e) by lia.
    apply round_pair_mono. split; [nia|].
    assert (HK : 2 <= 2 ^ (e2 - e1)).
    { change 2 with (2 ^ 1) at 1. apply Z.pow_le_mono_r; lia. }
    assert (H53 : 2 ^ 53 = 2 * 2 ^ 52) by reflexivity.
    apply Z.le_trans with (q2 * Z.pos m * 2); [nia|].
    apply Z.mul_le_mono_nonneg_l; [nia | exact HK].
  - subst e2. apply round_pair_mono. nia.
Qed.

Lemma round_pair_nonneg (M E : Z) : 0 < M -> 0 <= fst (round_pair M E).
Proof.
  intros HM. unfold round_pair.
  pose proof (dfexp_ge (ndigits M + E)) as [G _].
  pose proof (rne_bounds M (dfexp (ndigits M + E) - E) HM ltac:(lia)) as B.
  change (2 ^ dprec) with (2 ^ 53). change (2 ^ (dprec - 1)) with (2 ^ 52).
  assert (P52 : 0 < 2 ^ 52) by reflexivity.
  destruct (Z.eqb_spec (rne M (dfexp (ndigits M + E) - E)) (2 ^ 53));
    cbn [fst]; lia.
Qed.

Lemma fmul_of_Z_nonneg (d : Z) (m : positive) (e : Z) :
  0 < d < 2 ^ 64 ->
  fle (S754_zero false) (fmul (double_of_Z d) (S754_finite false m e)) = true.
Proof.
  intros Hd. rewrite fmul_of_Z_pair by exact Hd.
  destruct (round_pair_u64 d Hd) as [[L U] X].
  assert (P52 : 0 < 2 ^ 52) by reflexivity.
  change (S754_zero false) with (pack (0, 0)).
  apply pack_le. left. cbn [fst]. split; [reflexivity|].
  apply round_pair_nonneg. nia.
Qed.

(** The elapsed time as a function of the tick difference is monotone, for
    a rate that is finite and not negative. *)
Lemma elapsed_mono (d1 d2 : Z) (r : double) :
  nonneg_rate r = true -> 0 <= d1 <= d2 -> d2 < 2 ^ 64 ->
  fle (fmul (double_of_Z d1) r) (fmul (double_of_Z d2) r) = true.
Proof.
  intros Hr Hd Hd2. unfold nonneg_rate in Hr.
  apply andb_true_iff in Hr. destruct Hr as [Hfin Hpos].
  destruct r as [sr|sr| |sr m e]; try discriminate.
  - (* a zero rate: every product is a zero *)
    destruct d1 as [|p1|p1]; [| |lia]; destruct d2 as [|p2|p2]; try lia;
      try reflexivity; rewrite ?double_of_Z_pair.
    + destruct (round_pair_u64 (Z.pos p2) ltac:(lia)) as [[L U] X].
      rewrite pack_normal by
        (assert (0 < 2 ^ 52) by reflexivity; unfold demax, dprec; lia).
      destruct sr; reflexivity.
    + destruct (round_pair_u64 (Z.pos p1) ltac:(lia)) as [[L1 U1] X1].
      destruct (round_pair_u64 (Z.pos p2) ltac:(lia)) as [[L2 U2] X2].
      rewrite !pack_normal by
        (assert (0 < 2 ^ 52) by reflexivity; unfold demax, dprec; lia).
      destruct sr; reflexivity.
  - destruct sr; [discriminate|].
    destruct (Z.eq_dec d1 0) as [->|Hnz].
    + destruct (Z.eq_dec d2 0) as [->|Hnz2]; [reflexivity|].
      change (fmul (double_of_Z 0) (S754_finite false m e)) with (S754_zero false).
      apply fmul_of_Z_nonneg. lia.
    + apply fmul_of_Z_mono; lia.
Qed.

Lemma wrap64_small (n : Z) : 0 <= n < 2 ^ 64 -> wrap64 n = n.
Proof. intros H. unfold wrap64. apply Z.mod_small. exact H. Qed.

(** C8. For a handle whose rate is a finite double that is not negative,
    and whose start is not after the first query (it was read from the same
    monotonic tick source), a query made at tick count [t1] and a query
    made at a tick count [t2 >= t1] return [e1] and [e2] with [e1 <= e2]. *)
Theorem C8_elapsed_monotone (w : world) (h : timer_t) (s1 s2 : state) :
  nonneg_rate (rate h) = true ->
  0 <= start h <= ticks w (clock_reads s1) ->
  ticks w (clock_reads s1) <= ticks w (clock_reads s2) ->
  ticks w (clock_reads s2) < 2 ^ 64 ->
  exists e1 e2,
    timeElapsed w h s1 = Ret e1 (tick s1) /\
    timeElapsed w h s2 = Ret e2 (tick s2) /\
    fle e1 e2 = true.
Proof.
  intros Hr Hs H12 H2.
  rewrite !timeElapsed_eq. eexists _, _.
  split; [reflexivity|]. split; [reflexivity|].
  rewrite (wrap64_small (ticks w (clock_reads s1))) by lia.
  rewrite (wrap64_small (ticks w (clock_reads s2))) by lia.
  rewrite !wrap64_small by lia.
  apply elapsed_mono; [exact Hr | lia | lia].
Qed.

(** C8 for a handle started at tick 100 and queried at ticks 350 and 900. *)
Lemma C8_elapsed_monotone_witness :
  nonneg_rate (rate handle_100) = true /\
  exists e1 e2,
    timeElapsed two_reads handle_100 (initial []) = Ret e1 (tick (initial [])) /\
    timeElapsed two_reads handle_100 (tick (initial [])) =
      Ret e2 (tick (tick (initial []))) /\
    fle e1 e2 = true.
Proof.
  assert (Hr : nonneg_rate (rate handle_100) = true) by reflexivity.
  split; [exact Hr|].
  apply (C8_elapsed_monotone two_reads handle_100 (initial []) (tick (initial [])) Hr).
  - simpl. lia.
  - simpl. lia.
  - simpl. lia.
Defined.

(** Outside these hypotheses the order can fail: a handle whose start is
    after the query makes the [uint64_t] subtraction wrap around, and an
    infinite rate makes the product at the start a NaN. *)
Example elapsed_wraps_before_start :
  fle (fmul (double_of_Z (wrap64 (5 - 10))) (double_of_Z 1))
      (fmul (double_of_Z (wrap64 (10 - 10))) (double_of_Z 1)) = false.
Proof. vm_compute. reflexivity. Qed.

Example elapsed_nan_with_infinite_rate :
  fmul (double_of_Z (wrap64 (10 - 10))) (S754_infinity false) = S754_nan.
Proof. reflexivity. Qed.

(** * Further properties of the code *)

(** ** The flush loop *)

Lemma lines_of_spec (len j : Z) :
  0 <= len -> (j * CACHE_LINE_SIZE < len <-> j < lines_of len).
Proof.
  unfold lines_of, CACHE_LINE_SIZE. intros H.
  pose proof (Z.div_mod (len + (64 - 1)) 64 ltac:(lia)).
  pose proof (Z.mod_pos_bound (len + (64 - 1)) 64 ltac:(lia)). lia.
Qed.

Lemma lines_of_bounds (len : Z) :
  0 <= len -> 0 <= lines_of len /\ lines_of len <= len / CACHE_LINE_SIZE + 1 /\
  len <= lines_of len * CACHE_LINE_SIZE < len + CACHE_LINE_SIZE.
Proof.
  unfold lines_of, CACHE_LINE_SIZE. intros H.
  pose proof (Z.div_mod (len + (64 - 1)) 64 ltac:(lia)).
  pose proof (Z.mod_pos_bound (len + (64 - 1)) 64 ltac:(lia)).
  pose proof (Z.div_mod len 64 ltac:(lia)).
  pose proof (Z.mod_pos_bound len 64 ltac:(lia)). lia.
Qed.

Lemma flush_lines_general (len : Z) :
  0 <= len ->
  forall (fuel : nat) (j n : Z),
    0 <= j <= lines_of len -> (Z.to_nat (lines_of len - j) <= fuel)%nat ->
    flush_lines fuel (j * CACHE_LINE_SIZE) len n = n + (lines_of len - j).
Proof.
  intros Hlen. induction fuel as [|fuel IH]; intros j n Hj Hfuel.
  - simpl. lia.
  - simpl. pose proof (lines_of_spec len j Hlen) as Hs.
    destruct (Z.ltb_spec (j * CACHE_LINE_SIZE) len) as [Hlt|Hge].
    + replace (j * CACHE_LINE_SIZE + CACHE_LINE_SIZE)
        with ((j + 1) * CACHE_LINE_SIZE) by lia.
      rewrite IH by lia. lia.
    + lia.
Qed.

(** The flush of a range inside a live object. *)
Lemma flush_in_object (w : world) (b : nat) (ofs len : Z) (o : object) (s : state) :
  heap s !! b = Some o -> 0 <= ofs -> 0 <= len -> ofs + len <= size_of o ->
  flush_cache_relaxed w (Ptr b ofs) len s = Ret tt (add_dc (lines_of len) s).
Proof.
  intros Hb Hofs Hlen Hfit. unfold flush_cache_relaxed. rewrite Hb.
  replace ((0 <=? ofs) && (0 <=? len) && (ofs + len <=? size_of o)) with true.
  2:{ symmetry. rewrite !andb_true_iff, !Z.leb_le. auto. }
  change 0 with (0 * CACHE_LINE_SIZE) at 1.
  pose proof (lines_of_bounds len Hlen) as Hbd.
  rewrite (flush_lines_general len Hlen) by lia.
  do 2 f_equal. lia.
Qed.

(** X1. On a range that lies inside a live object (as the probe array a
    successful [malloc] returned), [flush_cache_relaxed(start, len)]
    returns after one [DC CIVAC] per cache line of [len] bytes, the last
    line counted when it is partial: [ceil(len / CACHE_LINE_SIZE)]
    instructions; a length of 0 executes none, any other length at least
    one; it changes no memory. On the null pointer with a length that is
    not 0 it does not return: its first instruction, at address 0, is an
    invalid access. *)
Theorem X1_flush_one_instruction_per_line
    (w : world) (b : nat) (ofs len : Z) (o : object) (s : state) :
  heap s !! b = Some o -> 0 <= ofs -> 0 <= len -> ofs + len <= size_of o ->
  flush_cache_relaxed w (Ptr b ofs) len s = Ret tt (add_dc (lines_of len) s) /\
  heap (add_dc (lines_of len) s) = heap s /\
  (len = 0 -> lines_of len = 0) /\
  (0 < len -> 0 < lines_of len) /\
  len <= lines_of len * CACHE_LINE_SIZE < len + CACHE_LINE_SIZE /\
  forall n, 0 < n < 2 ^ 64 -> flush_cache_relaxed w Null n s = Crash NullDeref s.
Proof.
  intros Hb Hofs Hlen Hfit.
  split; [exact (flush_in_object w b ofs len o s Hb Hofs Hlen Hfit)|].
  split; [reflexivity|].
  pose proof (lines_of_bounds len Hlen) as Hbd.
  split; [unfold CACHE_LINE_SIZE in *; intros; lia|].
  split; [unfold CACHE_LINE_SIZE in *; intros; lia|].
  split; [lia|].
  intros n Hn. unfold flush_cache_relaxed.
  rewrite (wrap64_small n) by lia.
  replace (0 <? n) with true by (symmetry; apply Z.ltb_lt; lia).
  reflexivity.
Qed.

(** X1 for the first 100 bytes of a probe array: two instructions. *)
Lemma X1_flush_one_instruction_per_line_witness :
  flush_cache_relaxed still (Ptr 1 0) 100 first_pass = Ret tt (add_dc 2 first_pass).
Proof.
  exact (proj1 (X1_flush_one_instruction_per_line still 1 0 100
                  (ORaw ARRAY_SIZE) first_pass eq_refl ltac:(lia) ltac:(lia)
                  ltac:(vm_compute; discriminate))).
Defined.

Lemma flush_addrs_spec (start len : Z) :
  0 <= start -> 0 <= len -> start + len <= 2 ^ 64 - CACHE_LINE_SIZE ->
  forall (fuel : nat) (j : Z),
    0 <= j <= lines_of len -> (Z.to_nat (lines_of len - j) <= fuel)%nat ->
    flush_addrs fuel (start + j * CACHE_LINE_SIZE) (start + len) =
    map (fun k => start + Z.of_nat k * CACHE_LINE_SIZE)
        (seq (Z.to_nat j) (Z.to_nat (lines_of len - j))).
Proof.
  intros Hs Hlen Hfit. induction fuel as [|fuel IH]; intros j Hj Hfuel.
  - replace (Z.to_nat (lines_of len - j)) with 0%nat by lia. reflexivity.
  - simpl. pose proof (lines_of_spec len j Hlen) as Hspec.
    destruct (Z.ltb_spec (start + j * CACHE_LINE_SIZE) (start + len)) as [Hlt|Hge].
    + assert (Hw : wrap64 (start + j * CACHE_LINE_SIZE + CACHE_LINE_SIZE) =
                   start + (j + 1) * CACHE_LINE_SIZE).
      { unfold wrap64. rewrite Z.mod_small; unfold CACHE_LINE_SIZE in *; lia. }
      rewrite Hw, IH by lia.
      replace (Z.to_nat (lines_of len - j))
        with (S (Z.to_nat (lines_of len - (j + 1)))) by lia.
      replace (Z.to_nat (j + 1)) with (S (Z.to_nat j)) by lia.
      cbn [seq map]. rewrite Z2Nat.id by lia. reflexivity.
    + replace (Z.to_nat (lines_of len - j)) with 0%nat by lia. reflexivity.
Qed.

Lemma flushed_spec (start len : Z) :
  0 <= start -> 0 <= len -> start + len <= 2 ^ 64 - CACHE_LINE_SIZE ->
  flushed start len =
  map (fun k => start + Z.of_nat k * CACHE_LINE_SIZE)
      (seq 0 (Z.to_nat (lines_of len))).
Proof.
  intros Hs Hlen Hfit. unfold flushed.
  assert (H64 : 0 < 2 ^ 64 - CACHE_LINE_SIZE) by reflexivity.
  rewrite (wrap64_small start) by (unfold CACHE_LINE_SIZE in *; lia).
  rewrite (wrap64_small (start + len)) by (unfold CACHE_LINE_SIZE in *; lia).
  pose proof (lines_of_bounds len Hlen) as Hb.
  replace start with (start + 0 * CACHE_LINE_SIZE) at 1 by lia.
  rewrite (flush_addrs_spec start len Hs Hlen Hfit) by lia.
  rewrite Z.sub_0_r. reflexivity.
Qed.

Lemma in_flushed (start len a : Z) :
  0 <= start -> 0 <= len -> start + len <= 2 ^ 64 - CACHE_LINE_SIZE ->
  (In a (flushed start len) <->
   exists k, 0 <= k < lines_of len /\ a = start + k * CACHE_LINE_SIZE).
Proof.
  intros Hs Hlen Hfit. rewrite flushed_spec by assumption.
  rewrite in_map_iff. split.
  - intros (k & Hk & Hin). apply in_seq in Hin. exists (Z.of_nat k).
    split; [lia | symmetry; exact Hk].
  - intros (k & Hk & ->). exists (Z.to_nat k).
    split; [rewrite Z2Nat.id by lia; reflexivity|].
    apply in_seq. lia.
Qed.

(** The cache lines cleaned are those from the line of [start] on, as many
    as [len] has lines. *)
Lemma line_cleaned_iff (start len a : Z) :
  0 <= start -> 0 <= len -> start + len <= 2 ^ 64 - CACHE_LINE_SIZE ->
  (In (cache_line_of a) (map cache_line_of (flushed start len)) <->
   cache_line_of start <= cache_line_of a < cache_line_of start + lines_of len).
Proof.
  intros Hs Hlen Hfit.
  assert (Hline : forall k, cache_line_of (start + k * CACHE_LINE_SIZE) =
                            cache_line_of start + k).
  { intros k. unfold cache_line_of. apply Z.div_add. discriminate. }
  rewrite in_map_iff. split.
  - intros (x & Hx & Hin). apply in_flushed in Hin; try assumption.
    destruct Hin as (k & Hk & ->). rewrite Hline in Hx. lia.
  - intros Hr. exists (start + (cache_line_of a - cache_line_of start) * CACHE_LINE_SIZE).
    split; [rewrite Hline; lia|]. apply in_flushed; try assumption.
    eexists. split; [|reflexivity]. lia.
Qed.

(** X2. The addresses at which the loop of [flush_cache_relaxed] executes
    [DC CIVAC], for a range that does not reach the top of the address
    space: [start], [start + 64], [start + 128], ... as long as they are
    below [start + len], each once and in this order; there are
    [ceil(len / 64)] of them, the number of instructions the model counts
    for a flush of [len] bytes inside a live object. *)
Theorem X2_flush_addresses (start len : Z) :
  0 <= start -> 0 <= len -> start + len <= 2 ^ 64 - CACHE_LINE_SIZE ->
  (forall a, In a (flushed start len) <->
             exists k, 0 <= k /\ a = start + k * CACHE_LINE_SIZE /\ a < start + len) /\
  List.NoDup (flushed start len) /\
  Z.of_nat (length (flushed start len)) = lines_of len /\
  forall w b ofs o s,
    heap s !! b = Some o -> 0 <= ofs -> ofs + len <= size_of o ->
    flush_cache_relaxed w (Ptr b ofs) len s =
    Ret tt (add_dc (Z.of_nat (length (flushed start len))) s).
Proof.
  intros Hs Hlen Hfit.
  pose proof (lines_of_bounds len Hlen) as Hb.
  assert (Hn : Z.of_nat (length (flushed start len)) = lines_of len).
  { rewrite flushed_spec by assumption. rewrite length_map, length_seq. lia. }
  split.
  - intros a. rewrite (in_flushed start len a Hs Hlen Hfit). split.
    + intros (k & Hk & ->). exists k. split; [lia|]. split; [reflexivity|].
      pose proof (proj2 (lines_of_spec len k Hlen) (proj2 Hk)). lia.
    + intros (k & Hk & -> & Hlt). exists k. split; [|reflexivity].
      split; [exact Hk|]. apply (lines_of_spec len k Hlen). lia.
  - split.
    + rewrite flushed_spec by assumption.
      apply Finite.Injective_map_NoDup; [|apply seq_NoDup].
      intros x y Hxy. unfold CACHE_LINE_SIZE in Hxy. lia.
    + split; [exact Hn|]. intros w b ofs o s Hblk Hofs Hin. rewrite Hn.
      exact (flush_in_object w b ofs len o s Hblk Hofs Hlen Hin).
Qed.

(** X2 for 100 bytes from address 4128: the instruction is executed at
    4128 and at 4192. *)
Lemma X2_flush_addresses_witness :
  In 4192 (flushed 4128 100) /\ Z.of_nat (length (flushed 4128 100)) = 2.
Proof.
  pose proof (X2_flush_addresses 4128 100 ltac:(lia) ltac:(lia) ltac:(vm_compute; discriminate))
    as (Hin & _ & Hlen & _).
  split; [|exact Hlen].
  apply Hin. exists 1. unfold CACHE_LINE_SIZE. lia.
Defined.

(** X3. When [start] is a multiple of the cache line size, every byte of
    [start, start + len) lies in a cache line the loop cleans: for such a
    range the function does what its comment says. *)
Theorem X3_flush_covers_aligned_range (start len a : Z) :
  0 <= start -> 0 <= len -> start + len <= 2 ^ 64 - CACHE_LINE_SIZE ->
  start mod CACHE_LINE_SIZE = 0 ->
  start <= a < start + len ->
  In (cache_line_of a) (map cache_line_of (flushed start len)).
Proof.
  intros Hs Hlen Hfit Hal Ha. apply line_cleaned_iff; try assumption.
  pose proof (lines_of_bounds len Hlen) as Hb.
  unfold cache_line_of, CACHE_LINE_SIZE in *.
  pose proof (Z.div_mod start 64 ltac:(lia)).
  pose proof (Z.div_mod a 64 ltac:(lia)).
  pose proof (Z.mod_pos_bound a 64 ltac:(lia)). lia.
Qed.

(** X3 for 130 bytes from address 4096: the line of byte 4224 is cleaned. *)
Lemma X3_flush_covers_aligned_range_witness :
  In (cache_line_of 4224) (map cache_line_of (flushed 4096 130)).
Proof.
  apply (X3_flush_covers_aligned_range 4096 130 4224);
    [lia | lia | vm_compute; discriminate | reflexivity | lia].
Defined.

(** X4. When [start] is not a multiple of the cache line size and [len] is
    one, the cache line of the last byte of the range is not cleaned: the
    loop steps from [start], so it stops one line short of the end of the
    range, which then straddles one line more than [len / 64]. *)
Theorem X4_flush_misses_last_line (start len : Z) :
  0 <= start -> 0 < len -> start + len <= 2 ^ 64 - CACHE_LINE_SIZE ->
  start mod CACHE_LINE_SIZE <> 0 ->
  len mod CACHE_LINE_SIZE = 0 ->
  ~ In (cache_line_of (start + len - 1)) (map cache_line_of (flushed start len)).
Proof.
  intros Hs Hlen Hfit Hal Hmul Hin.
  apply line_cleaned_iff in Hin; try assumption; [|lia].
  pose proof (lines_of_bounds len ltac:(lia)) as Hb.
  unfold cache_line_of, CACHE_LINE_SIZE in *.
  pose proof (Z.div_mod start 64 ltac:(lia)).
  pose proof (Z.mod_pos_bound start 64 ltac:(lia)).
  pose proof (Z.div_mod len 64 ltac:(lia)).
  pose proof (Z.div_mod (start + len - 1) 64 ltac:(lia)).
  pose proof (Z.mod_pos_bound (start + len - 1) 64 ltac:(lia)). lia.
Qed.

(** X4 for 64 bytes from address 32: byte 95 is in a line left as it was. *)
Lemma X4_flush_misses_last_line_witness :
  ~ In (cache_line_of 95) (map cache_line_of (flushed 32 64)).
Proof.
  apply (X4_flush_misses_last_line 32 64);
    [lia | lia | vm_compute; discriminate | discriminate | reflexivity].
Defined.

(** X5. The flush of the probe array ([flush_cache_relaxed(array,
    ARRAY_SIZE)]) executes [DC CIVAC] at the address of the distinguishing
    byte of every slot, whatever the alignment of the array: the slots are
    [SPACING] bytes apart, a multiple of the step of the loop. It executes
    65536 instructions, 256 per slot. *)
Theorem X5_every_slot_is_flushed (base i : Z) :
  0 <= base -> base + ARRAY_SIZE <= 2 ^ 64 - CACHE_LINE_SIZE ->
  0 <= i < NUM_CACHE_LINES ->
  In (base + slot_offset i) (flushed base ARRAY_SIZE) /\
  Z.of_nat (length (flushed base ARRAY_SIZE)) = NUM_CACHE_LINES * (SPACING / CACHE_LINE_SIZE).
Proof.
  intros Hb Hfit Hi. split.
  - apply in_flushed; [assumption | discriminate | assumption |].
    exists (i * 256). change (lines_of ARRAY_SIZE) with 65536.
    unfold slot_offset, sizeof_cache_line_t, offsetof_cacheLine, SPACING,
      CACHE_LINE_SIZE, NUM_CACHE_LINES, UINT8_MAX in *. lia.
  - rewrite flushed_spec; [|assumption|discriminate|assumption].
    rewrite length_map, length_seq. change (lines_of ARRAY_SIZE) with 65536.
    change (NUM_CACHE_LINES * (SPACING / CACHE_LINE_SIZE)) with 65536. lia.
Qed.

(** X5 for an array at address 4112 (16-byte aligned) and slot 255. *)
Lemma X5_every_slot_is_flushed_witness :
  In (4112 + slot_offset 255) (flushed 4112 ARRAY_SIZE).
Proof.
  apply (X5_every_slot_is_flushed 4112 255);
    [lia | vm_compute; discriminate | unfold NUM_CACHE_LINES, UINT8_MAX; lia].
Defined.

(** ** The order of doubles *)

Lemma SFcompare_key (x y : double) :
  is_nan x = false -> is_nan y = false ->
  match SFcompare x y with
  | Some Lt => key_lt (order_key x) (order_key y)
  | Some Eq => order_key x = order_key y
  | Some Gt => key_lt (order_key y) (order_key x)
  | None => False
  end.
Proof.
  intros Hx Hy.
  destruct x as [sx|sx| |sx mx ex]; try discriminate;
    destruct y as [sy|sy| |sy my ey]; try discriminate;
    try destruct sx; try destruct sy; unfold key_lt; simpl; try lia;
    try reflexivity.
  - destruct (Z.compare_spec ex ey); simpl; try lia.
    subst. change (PosDef.Pos.compare_cont Eq mx my) with (Pos.compare mx my).
    destruct (Pos.compare_spec mx my); simpl; try lia. subst. reflexivity.
  - destruct (Z.compare_spec ex ey); simpl; try lia.
    subst. change (PosDef.Pos.compare_cont Eq mx my) with (Pos.compare mx my).
    destruct (Pos.compare_spec mx my); simpl; try lia. subst. reflexivity.
Qed.

Lemma flt_key (x y : double) :
  flt x y = true <->
  is_nan x = false /\ is_nan y = false /\ key_lt (order_key x) (order_key y).
Proof.
  split.
  - intros H. destruct (flt_not_nan x y H) as [Hx Hy].
    split; [exact Hx|]. split; [exact Hy|].
    pose proof (SFcompare_key x y Hx Hy) as K. unfold flt, SFltb in H.
    destruct (SFcompare x y) as [[| |]|]; try discriminate. exact K.
  - intros (Hx & Hy & K). pose proof (SFcompare_key x y Hx Hy) as K'.
    unfold flt, SFltb. unfold key_lt in *.
    destruct (SFcompare x y) as [[| |]|]; try reflexivity; try contradiction.
    + rewrite K' in K. lia.
    + lia.
Qed.

Lemma fle_key (x y : double) :
  fle x y = true <->
  is_nan x = false /\ is_nan y = false /\
  (key_lt (order_key x) (order_key y) \/ order_key x = order_key y).
Proof.
  split.
  - intros H.
    assert (Hn : is_nan x = false /\ is_nan y = false).
    { unfold fle, SFleb in H. destruct x, y; simpl in *; auto; discriminate. }
    destruct Hn as [Hx Hy]. split; [exact Hx|]. split; [exact Hy|].
    pose proof (SFcompare_key x y Hx Hy) as K. unfold fle, SFleb in H.
    destruct (SFcompare x y) as [[| |]|]; try discriminate; auto.
  - intros (Hx & Hy & K). pose proof (SFcompare_key x y Hx Hy) as K'.
    unfold fle, SFleb. unfold key_lt in *.
    destruct (SFcompare x y) as [[| |]|]; try reflexivity; try contradiction.
    destruct K as [K|K]; [lia | rewrite K in K'; lia].
Qed.

(** [<] on doubles is transitive, also after a [<=], and irreflexive. *)
Lemma flt_trans (x y z : double) :
  flt x y = true -> flt y z = true -> flt x z = true.
Proof.
  rewrite !flt_key. unfold key_lt. intros (Hx & Hy & K1) (_ & Hz & K2).
  repeat split; try assumption. lia.
Qed.

Lemma fle_flt_trans (x y z : double) :
  fle x y = true -> flt y z = true -> flt x z = true.
Proof.
  rewrite fle_key, !flt_key. unfold key_lt.
  intros (Hx & Hy & K1) (_ & Hz & K2).
  repeat split; try assumption. destruct K1 as [K1|K1]; [lia | rewrite K1; lia].
Qed.

Lemma flt_irrefl (x : double) : flt x x = false.
Proof.
  destruct (flt x x) eqn:E; [|reflexivity].
  apply flt_key in E. destruct E as (_ & _ & K). unfold key_lt in K. lia.
Qed.

Lemma fle_zero_sign (s : bool) (y : double) :
  fle (S754_zero s) y = fle dzero y.
Proof. destruct y; reflexivity. Qed.

Lemma fle_zero_not_below (e : double) :
  fle dzero e = true -> flt e dzero = false /\ is_nan e = false.
Proof.
  intros H. apply fle_key in H. destruct H as (_ & Hn & K).
  split; [|exact Hn].
  destruct (flt e dzero) eqn:E; [|reflexivity].
  apply flt_key in E. destruct E as (_ & _ & K').
  unfold key_lt in *.
  destruct K as [K|K]; [lia | rewrite <- K in K'; simpl in K'; lia].
Qed.

(** ** The elapsed time is not negative *)

Lemma fmul_zero_l (r : double) :
  is_finite r = true -> exists s, fmul (double_of_Z 0) r = S754_zero s.
Proof.
  destruct r as [s|s| |s m e]; try discriminate; intros _; eexists; reflexivity.
Qed.

Lemma wrap32_range (n : Z) : 0 <= wrap32 n < 2 ^ 64.
Proof.
  unfold wrap32. pose proof (Z.mod_pos_bound n (2 ^ 32) ltac:(reflexivity)).
  assert (2 ^ 32 < 2 ^ 64) by reflexivity. lia.
Qed.

Lemma wrap64_range (n : Z) : 0 <= wrap64 n < 2 ^ 64.
Proof. unfold wrap64. apply Z.mod_pos_bound. reflexivity. Qed.

Lemma elapsed_nonneg (d : Z) (r : double) :
  nonneg_rate r = true -> 0 <= d < 2 ^ 64 ->
  fle dzero (fmul (double_of_Z d) r) = true.
Proof.
  intros Hr Hd.
  pose proof (elapsed_mono 0 d r Hr ltac:(lia) ltac:(lia)) as H.
  assert (Hfin : is_finite r = true).
  { unfold nonneg_rate in Hr. apply andb_true_iff in Hr. tauto. }
  destruct (fmul_zero_l r Hfin) as [z Hz].
  rewrite Hz, fle_zero_sign in H. exact H.
Qed.

(** X6. For a handle whose rate is a finite double that is not negative,
    [timeElapsed] returns a number that is not negative and not NaN,
    whatever the clock shows and whatever the handle's start is: the tick
    difference is taken in [uint64_t], so a start after the query wraps to
    a large count and never to a negative one. *)
Theorem X6_timeElapsed_not_negative (w : world) (h : timer_t) (s : state) :
  nonneg_rate (rate h) = true ->
  exists e,
    timeElapsed w h s = Ret e (tick s) /\
    fle dzero e = true /\ flt e dzero = false /\ is_nan e = false.
Proof.
  intros Hr. rewrite timeElapsed_eq. eexists. split; [reflexivity|].
  assert (H : fle dzero
                (fmul (double_of_Z
                         (wrap64 (wrap64 (ticks w (clock_reads s)) - start h)))
                      (rate h)) = true).
  { apply elapsed_nonneg; [exact Hr | apply wrap64_range]. }
  split; [exact H|]. apply fle_zero_not_below. exact H.
Qed.

(** X6 for a handle started at tick 100 and queried at tick 350. *)
Lemma X6_timeElapsed_not_negative_witness :
  exists e,
    timeElapsed two_reads handle_100 (initial []) = Ret e (tick (initial [])) /\
    fle dzero e = true /\ flt e dzero = false /\ is_nan e = false.
Proof. apply X6_timeElapsed_not_negative. reflexivity. Defined.

(** ** The decision, for every sample vector *)

Lemma scan_from_argmin (bi : Z) (ds : list double) :
  (Forall (fun v => flt v DBL_MAX = false) ds /\
   scan_from 0 ds (bi, DBL_MAX) = (bi, DBL_MAX)) \/
  (exists (k : nat) (m : double),
     scan_from 0 ds (bi, DBL_MAX) = (wrap8 (Z.of_nat k), m) /\
     ds !! k = Some m /\ flt m DBL_MAX = true /\
     Forall (fun v => flt v m = false) ds /\
     Forall (fun v => fle v m = false) (take k ds)).
Proof.
  induction ds as [|v ds IH] using rev_ind.
  - left. split; [constructor | reflexivity].
  - rewrite scan_from_app. cbn [scan_from]. rewrite Nat.add_0_l.
    destruct IH as [[Hall ->] | (k & m & -> & Hk & Hm & Hmin & Hfirst)]; cbn [snd].
    + destruct (flt v DBL_MAX) eqn:Hv.
      * right. exists (length ds), v.
        split; [reflexivity|]. split; [apply list_lookup_middle; reflexivity|].
        split; [exact Hv|]. rewrite take_app_length. split.
        -- apply Forall_app. split.
           ++ eapply Forall_impl; [exact Hall|]. intros u Hu. cbn in Hu.
              destruct (flt u v) eqn:E; [|reflexivity].
              rewrite (flt_trans u v DBL_MAX E Hv) in Hu. discriminate.
           ++ constructor; [apply flt_irrefl | constructor].
        -- eapply Forall_impl; [exact Hall|]. intros u Hu. cbn in Hu.
           destruct (fle u v) eqn:E; [|reflexivity].
           rewrite (fle_flt_trans u v DBL_MAX E Hv) in Hu. discriminate.
      * left. split; [|reflexivity]. apply Forall_app. split; [exact Hall|].
        constructor; [exact Hv | constructor].
    + right. destruct (flt v m) eqn:Hv.
      * exists (length ds), v.
        split; [reflexivity|]. split; [apply list_lookup_middle; reflexivity|].
        split; [exact (flt_trans v m DBL_MAX Hv Hm)|].
        rewrite take_app_length. split.
        -- apply Forall_app. split.
           ++ eapply Forall_impl; [exact Hmin|]. intros u Hu. cbn in Hu.
              destruct (flt u v) eqn:E; [|reflexivity].
              rewrite (flt_trans u v m E Hv) in Hu. discriminate.
           ++ constructor; [apply flt_irrefl | constructor].
        -- eapply Forall_impl; [exact Hmin|]. intros u Hu. cbn in Hu.
           destruct (fle u v) eqn:E; [|reflexivity].
           rewrite (fle_flt_trans u v m E Hv) in Hu. discriminate.
      * exists k, m. pose proof (lookup_lt_Some _ _ _ Hk) as Hlt.
        split; [reflexivity|].
        split; [rewrite lookup_app_l by exact Hlt; exact Hk|].
        split; [exact Hm|]. split.
        -- apply Forall_app. split; [exact Hmin|].
           constructor; [exact Hv | constructor].
        -- rewrite take_app_le by lia. exact Hfirst.
Qed.

(** X7. The decision loop on any sample vector of 256 doubles, NaN and
    infinities included, returns without a fault and leaves the state as it
    was, and its result is one of two things. Either no entry is below
    [DBL_MAX] (each is [DBL_MAX], positive infinity or NaN): then
    [bestIndex] is never assigned and the value it had before is returned.
    Or the result is the index [k] of an entry [m] below [DBL_MAX] such that
    no entry is below [m] and no entry before [k] is below or equal to [m]:
    the first minimum. *)
Theorem X7_decision_on_any_vector (b : nat) (ds : list double) (bi : Z) (s : state) :
  heap s !! b = Some (ODoubles ds) ->
  length ds = nslots ->
  exists r,
    find_best (Ptr b 0) bi s = Ret r s /\
    ((Forall (fun v => flt v DBL_MAX = false) ds /\ r = bi) \/
     (exists (k : nat) (m : double),
        r = Z.of_nat k /\ ds !! k = Some m /\ flt m DBL_MAX = true /\
        Forall (fun v => flt v m = false) ds /\
        Forall (fun v => fle v m = false) (take k ds))).
Proof.
  intros Hb Hlen. rewrite (find_best_scan b ds bi s Hb Hlen).
  eexists. split; [reflexivity|].
  destruct (scan_from_argmin bi ds)
    as [[Hall ->] | (k & m & -> & Hk & Hm & Hmin & Hfirst)]; cbn [fst].
  - left. split; [exact Hall | reflexivity].
  - right. exists k, m. split; [|tauto].
    apply lookup_lt_Some in Hk. rewrite Hlen in Hk. unfold nslots in Hk.
    change (Z.to_nat NUM_CACHE_LINES) with 256%nat in Hk.
    unfold wrap8. apply Z.mod_small. lia.
Qed.

(** X7 on the vector in which slots 5 and 9 are tied at the minimum. *)
Lemma X7_decision_on_any_vector_witness :
  exists r,
    find_best (Ptr 1 0) 7 tie_state = Ret r tie_state /\
    ((Forall (fun v => flt v DBL_MAX = false) tie_5_9 /\ r = 7) \/
     (exists (k : nat) (m : double),
        r = Z.of_nat k /\ tie_5_9 !! k = Some m /\ flt m DBL_MAX = true /\
        Forall (fun v => flt v m = false) tie_5_9 /\
        Forall (fun v => fle v m = false) (take k tie_5_9))).
Proof.
  exact (X7_decision_on_any_vector 1 tie_5_9 7 tie_state eq_refl eq_refl).
Defined.

(** ** The measurement as a function of the clock *)

Lemma main_state_holds : holds_byte the_byte x2a (heap main_state).
Proof. exists [x2a]. repeat split. unfold Z.le. simpl. discriminate. Qed.

Lemma length_add_samples (w : world) (c : Z) (ds : list double) :
  length (add_samples w c ds) = length ds.
Proof. apply length_imap. Qed.

Lemma length_sums_after (w : world) (n : nat) (c : Z) (ds : list double) :
  length (sums_after w n c ds) = length ds.
Proof.
  induction n as [|n IH]; [reflexivity|].
  cbn [sums_after]. rewrite length_add_samples. exact IH.
Qed.

Lemma lookup_add_samples (w : world) (c : Z) (ds : list double) (i : nat) (v : double) :
  ds !! i = Some v ->
  add_samples w c ds !! i = Some (fadd v (sample w (c + 2 * Z.of_nat i))).
Proof. intros H. unfold add_samples. rewrite list_lookup_imap, H. reflexivity. Qed.

(** One timed access: the total of slot [i] grows by the sample taken at the
    two clock reads of the access; nothing else changes. *)
Lemma time_slot_spec (w : world) (sumb ab i : nat) (ds : list double) (v : double)
    (s : state) :
  heap s !! sumb = Some (ODoubles ds) ->
  heap s !! ab = Some (ORaw ARRAY_SIZE) ->
  (i < nslots)%nat ->
  ds !! i = Some v ->
  time_slot w (Ptr sumb 0) (Ptr ab 0) i s =
  Ret tt (set_heap (<[sumb := ODoubles (<[i := fadd v (sample w (clock_reads s))]> ds)]>
                      (heap s))
                   (tick (tick s))).
Proof.
  intros Hds Hab Hi Hv.
  unfold time_slot. unfold bind at 1. rewrite startTimer_eq.
  unfold bind at 1. rewrite probe_read_ok; cycle 1.
  { exact Hab. }
  { rewrite nslots_eq in Hi. unfold NUM_CACHE_LINES, UINT8_MAX. lia. }
  unfold bind at 1. rewrite timeElapsed_eq.
  unfold bind at 1. rewrite (load_double_ok sumb ds i v); [|exact Hds|exact Hv].
  rewrite (store_double_ok sumb ds);
    [|exact Hds|eapply lookup_lt_Some; exact Hv].
  reflexivity.
Qed.

Lemma samples_step (A ds : list double) (i : nat) (v x : double) :
  length A = length ds -> ds !! i = Some v -> A !! i = Some x ->
  <[i := x]> (take i A ++ drop i ds) = take (S i) A ++ drop (S i) ds.
Proof.
  intros Hlen Hv Hx.
  pose proof (lookup_lt_Some _ _ _ Hv) as Hi.
  assert (Ht : length (take i A) = i) by (rewrite length_take; lia).
  rewrite insert_app_r_alt by lia. rewrite Ht, Nat.sub_diag.
  rewrite (drop_S ds v i Hv). cbn [insert list_insert].
  rewrite (take_S_r A i x Hx), <- app_assoc. reflexivity.
Qed.

Lemma time_slots_spec (w : world) (sumb ab : nat) (ds : list double) (s : state) :
  heap s !! sumb = Some (ODoubles ds) ->
  length ds = nslots ->
  heap s !! ab = Some (ORaw ARRAY_SIZE) ->
  exists s',
    time_slots w (Ptr sumb 0) (Ptr ab 0) s = Ret tt s' /\
    advanced (2 * NUM_CACHE_LINES) 0 0
      (<[sumb := ODoubles (add_samples w (clock_reads s) ds)]> (heap s)) s s'.
Proof.
  intros Hds Hlen Hab. unfold time_slots, for_loop.
  set (A := add_samples w (clock_reads s) ds).
  assert (HA : length A = length ds) by apply length_add_samples.
  assert (Hne : ab <> sumb) by (intros ->; congruence).
  assert (Hlt : (sumb < length (heap s))%nat) by (eapply lookup_lt_Some; eauto).
  destruct (for_from_returns
              (fun i (_ : unit) s' =>
                 advanced (2 * Z.of_nat i) 0 0
                   (<[sumb := ODoubles (take i A ++ drop i ds)]> (heap s)) s s')
              (fun i _ => time_slot w (Ptr sumb 0) (Ptr ab 0) i)
              nslots 0%nat tt s) as ([] & s' & Hrun & Hinv).
  - unfold advanced. rewrite take_0, drop_0. cbn [app].
    rewrite (list_insert_id _ _ _ Hds). repeat split; lia.
  - intros j [] s1 Hj (Hh & Hr & Ha & Hd & Hl).
    assert (Hv : exists v, ds !! j = Some v) by (apply lookup_lt_is_Some; lia).
    destruct Hv as [v Hv].
    assert (Htj : length (take j A) = j) by (rewrite length_take; lia).
    eexists tt, _. split.
    + apply (time_slot_spec w sumb ab j (take j A ++ drop j ds) v).
      * rewrite Hh. apply list_lookup_insert_eq. exact Hlt.
      * rewrite Hh, list_lookup_insert_ne by (intros E; apply Hne; auto).
        exact Hab.
      * lia.
      * rewrite lookup_app_r by lia. rewrite Htj, Nat.sub_diag.
        rewrite lookup_drop, Nat.add_0_r. exact Hv.
    + unfold advanced. cbn [heap set_heap tick clock_reads alloc_calls dc_ops decisions].
      rewrite Hh, list_insert_insert_eq.
      rewrite (samples_step A ds j v _ HA Hv).
      2:{ subst A. rewrite Hr.
          apply lookup_add_samples. exact Hv. }
      repeat split; try lia; assumption.
  - exists s'. split; [exact Hrun|].
    destruct Hinv as (Hh & Hr & Ha & Hd & Hl).
    rewrite Nat.add_0_l in *. unfold advanced.
    rewrite Hh, take_ge, drop_ge, app_nil_r by lia.
    repeat split; assumption.
Qed.

(** X8. The timing loop of one iteration (lines 153-157), on a sample
    vector of 256 doubles and a probe array of [ARRAY_SIZE] bytes, returns
    without a fault after reading the clock twice per slot, and adds to the
    total of every slot [i] one sample: the time elapsed between clock read
    [2 i] and clock read [2 i + 1] of the loop, computed as [timeElapsed]
    does. The totals are accumulated, never overwritten; nothing else in
    memory changes, nothing is allocated and no decision is taken. *)
Theorem X8_timing_pass_adds_one_sample_per_slot
    (w : world) (sumb ab : nat) (ds : list double) (s : state) :
  heap s !! sumb = Some (ODoubles ds) ->
  length ds = nslots ->
  heap s !! ab = Some (ORaw ARRAY_SIZE) ->
  exists (s' : state) (ds' : list double),
    time_slots w (Ptr sumb 0) (Ptr ab 0) s = Ret tt s' /\
    heap s' = <[sumb := ODoubles ds']> (heap s) /\
    length ds' = nslots /\
    (forall i v, ds !! i = Some v ->
       ds' !! i =
       Some (fadd v
               (fmul (double_of_Z
                        (wrap64 (wrap64 (ticks w (clock_reads s + 2 * Z.of_nat i + 1))
                                 - wrap64 (ticks w (clock_reads s + 2 * Z.of_nat i)))))
                     (rate_of w)))) /\
    clock_reads s' = clock_reads s + 2 * NUM_CACHE_LINES /\
    alloc_calls s' = alloc_calls s /\
    dc_ops s' = dc_ops s /\
    decisions s' = decisions s.
Proof.
  intros Hds Hlen Hab.
  destruct (time_slots_spec w sumb ab ds s Hds Hlen Hab)
    as (s' & Hrun & Hh & Hr & Ha & Hd & Hl).
  exists s', (add_samples w (clock_reads s) ds).
  split; [exact Hrun|]. split; [exact Hh|].
  split; [rewrite length_add_samples; exact Hlen|].
  split.
  { intros i v Hv. rewrite (lookup_add_samples w (clock_reads s) ds i v Hv).
    reflexivity. }
  split; [exact Hr|]. split; [lia|]. split; [lia | exact Hl].
Qed.

(** X8 on the zeroed sample vector and a probe array: 512 clock reads. *)
Lemma X8_timing_pass_adds_one_sample_per_slot_witness :
  exists s', time_slots still (Ptr 0 0) (Ptr 1 0) first_pass = Ret tt s' /\
             clock_reads s' = 512.
Proof.
  destruct (X8_timing_pass_adds_one_sample_per_slot still 0 1
              (repeat dzero nslots) first_pass eq_refl eq_refl eq_refl)
    as (s' & ds' & Hrun & _ & _ & _ & Hr & _).
  exists s'. split; [exact Hrun | exact Hr].
Defined.

Lemma iteration_spec (w : world) (addr : pointer) (v : byte) (sumb : nat)
    (ds : list double) (s : state) :
  alloc_ok w (alloc_calls s) = true ->
  holds_byte addr v (heap s) ->
  heap s !! sumb = Some (ODoubles ds) ->
  length ds = nslots ->
  exists s',
    iteration w addr (Ptr sumb 0) s = Ret tt s' /\
    advanced (2 * NUM_CACHE_LINES) 1 65536
      (<[sumb := ODoubles (add_samples w (clock_reads s) ds)]>
         (heap s ++ [ORaw ARRAY_SIZE])) s s'.
Proof.
  intros Hok Hv Hds Hlen. unfold iteration.
  unfold bind at 1. rewrite (malloc_ok w ARRAY_SIZE s Hok).
  unfold bind at 1. rewrite flush_fresh_array.
  set (s1 := add_dc 65536 (set_heap (heap s ++ [ORaw ARRAY_SIZE]) (count_alloc s))).
  assert (Hlt : (sumb < length (heap s))%nat) by (eapply lookup_lt_Some; eauto).
  assert (Hab : heap s1 !! length (heap s) = Some (ORaw ARRAY_SIZE)).
  { simpl. apply list_lookup_middle. reflexivity. }
  assert (Hds1 : heap s1 !! sumb = Some (ODoubles ds)).
  { simpl. rewrite lookup_app_l by exact Hlt. exact Hds. }
  assert (Hv1 : holds_byte addr v (heap s1)).
  { eapply holds_byte_kept; [exact Hv|]. intros k Hk. simpl.
    apply lookup_app_l. exact Hk. }
  unfold bind at 1. rewrite (load_byte_ok _ addr v s1 Hv1).
  unfold bind at 1. rewrite (probe_read_ok _ _ s1 Hab (byte_val_range v)).
  destruct (time_slots_spec w sumb (length (heap s)) ds s1 Hds1 Hlen Hab)
    as (s' & Hrun & Hh & Hr & Ha & Hd & Hl).
  exists s'. split; [exact Hrun|]. unfold advanced.
  rewrite Hh, Hr, Ha, Hd, Hl. cbn. repeat split; lia.
Qed.

Lemma holds_byte_grow (addr : pointer) (v : byte) (h l : list object) (sumb : nat)
    (ds : list double) (o : object) :
  holds_byte addr v h -> h !! sumb = Some (ODoubles ds) ->
  holds_byte addr v (<[sumb := o]> (h ++ l)).
Proof.
  destruct addr as [|b ofs]; simpl; [tauto|].
  intros (bs & Hb & Hofs & Hv) Hds. exists bs. split; [|auto].
  rewrite list_lookup_insert_ne by (intros ->; congruence).
  rewrite lookup_app_l by (eapply lookup_lt_Some; eauto). exact Hb.
Qed.

Lemma repeat_snoc {A} (x : A) (n : nat) : repeat x (S n) = repeat x n ++ [x].
Proof. cbn [repeat]. apply repeat_cons. Qed.

Lemma measure_spec (w : world) (addr : pointer) (v : byte) (sumb : nat)
    (ds : list double) (s : state) :
  (forall k, alloc_ok w k = true) ->
  holds_byte addr v (heap s) ->
  heap s !! sumb = Some (ODoubles ds) ->
  length ds = nslots ->
  exists s',
    measure w addr (Ptr sumb 0) s = Ret tt s' /\
    advanced reads_per_attempt ITERATIONS (Z.of_nat ITERATIONS * 65536)
      (<[sumb := ODoubles (sums_after w ITERATIONS (clock_reads s) ds)]>
         (heap s ++ repeat (ORaw ARRAY_SIZE) ITERATIONS)) s s'.
Proof.
  intros Hok Hv Hds Hlen. unfold measure, for_loop.
  assert (Hlt : (sumb < length (heap s))%nat) by (eapply lookup_lt_Some; eauto).
  destruct (for_from_returns
              (fun i (_ : unit) s' =>
                 advanced (Z.of_nat i * (2 * NUM_CACHE_LINES)) i (Z.of_nat i * 65536)
                   (<[sumb := ODoubles (sums_after w i (clock_reads s) ds)]>
                      (heap s ++ repeat (ORaw ARRAY_SIZE) i)) s s')
              (fun _ _ => iteration w addr (Ptr sumb 0))
              ITERATIONS 0%nat tt s) as ([] & s' & Hrun & Hinv).
  - unfold advanced. cbn [sums_after repeat]. rewrite app_nil_r.
    rewrite (list_insert_id _ _ _ Hds). repeat split; lia.
  - intros j [] s1 Hj (Hh & Hr & Ha & Hd & Hl).
    assert (Hlt' : (sumb < length (heap s ++ repeat (ORaw ARRAY_SIZE) j))%nat).
    { rewrite length_app. lia. }
    destruct (iteration_spec w addr v sumb (sums_after w j (clock_reads s) ds) s1)
      as (s2 & Hrun & Hh2 & Hr2 & Ha2 & Hd2 & Hl2).
    + apply Hok.
    + rewrite Hh. eapply holds_byte_grow; eauto.
    + rewrite Hh. apply list_lookup_insert_eq. exact Hlt'.
    + rewrite length_sums_after. exact Hlen.
    + exists tt, s2. split; [exact Hrun|]. unfold advanced.
      rewrite Hh2, Hr2, Ha2, Hd2, Hl2, Hh, Hr, Ha, Hd, Hl.
      split.
      * rewrite <- insert_app_l by exact Hlt'.
        rewrite list_insert_insert_eq, <- app_assoc, <- repeat_snoc.
        cbn [sums_after]. reflexivity.
      * repeat split; lia.
  - exists s'. split; [exact Hrun|]. exact Hinv.
Qed.

Lemma sums_after_add (w : world) (m n : nat) (c : Z) (ds : list double) :
  sums_after w (m + n) c ds =
  sums_after w m (c + Z.of_nat n * (2 * NUM_CACHE_LINES)) (sums_after w n c ds).
Proof.
  induction m as [|m IH]; [reflexivity|].
  cbn [sums_after Nat.add]. rewrite IH. f_equal. lia.
Qed.

Lemma attempt_spec (w : world) (addr : pointer) (v : byte) (sumb : nat)
    (ds : list double) (bi : Z) (s : state) :
  (forall k, alloc_ok w k = true) ->
  holds_byte addr v (heap s) ->
  heap s !! sumb = Some (ODoubles ds) ->
  length ds = nslots ->
  exists s',
    attempt w addr (Ptr sumb 0) bi s =
      Ret (fst (scan_from 0 (sums_after w ITERATIONS (clock_reads s) ds) (bi, DBL_MAX)))
          s' /\
    heap s' = <[sumb := ODoubles (sums_after w ITERATIONS (clock_reads s) ds)]>
                (heap s ++ repeat (ORaw ARRAY_SIZE) ITERATIONS) /\
    clock_reads s' = clock_reads s + reads_per_attempt /\
    alloc_calls s' = (alloc_calls s + ITERATIONS)%nat /\
    dc_ops s' = dc_ops s + Z.of_nat ITERATIONS * 65536 /\
    decisions s' =
      decisions s ++
      [fst (scan_from 0 (sums_after w ITERATIONS (clock_reads s) ds) (bi, DBL_MAX))].
Proof.
  intros Hok Hv Hds Hlen. unfold attempt.
  destruct (measure_spec w addr v sumb ds s Hok Hv Hds Hlen)
    as (s1 & Hrun & Hh & Hr & Ha & Hd & Hl).
  unfold bind at 1. rewrite Hrun.
  assert (Hlt : (sumb < length (heap s ++ repeat (ORaw ARRAY_SIZE) ITERATIONS))%nat).
  { rewrite length_app. apply lookup_lt_Some in Hds. lia. }
  unfold bind at 1.
  rewrite (find_best_scan sumb (sums_after w ITERATIONS (clock_reads s) ds) bi s1).
  2:{ rewrite Hh. apply list_lookup_insert_eq. exact Hlt. }
  2:{ rewrite length_sums_after. exact Hlen. }
  eexists. split; [reflexivity|].
  cbn [heap log clock_reads alloc_calls dc_ops decisions].
  rewrite Hl. repeat split; assumption.
Qed.

Lemma sums_after_retry (w : world) (j : nat) (c c1 : Z) (ds : list double) :
  c1 = c + reads_per_attempt ->
  sums_after w (S j * ITERATIONS) c1 (sums_after w ITERATIONS c ds) =
  sums_after w (S (S j) * ITERATIONS) c ds.
Proof.
  intros ->.
  replace (S (S j) * ITERATIONS)%nat with (S j * ITERATIONS + ITERATIONS)%nat by lia.
  rewrite sums_after_add. reflexivity.
Qed.

(** The retry loop: the attempts it makes, the state it leaves and the
    value it returns. *)
Lemma try_loop_full (w : world) (addr : pointer) (v : byte) (sumb : nat) :
  (forall k, alloc_ok w k = true) ->
  forall (n : nat) (bi : Z) (ds : list double) (s : state),
    holds_byte addr v (heap s) ->
    heap s !! sumb = Some (ODoubles ds) ->
    length ds = nslots ->
    exists (b : Z) (s' : state) (k : nat),
      try_loop w addr (Ptr sumb 0) (S n) bi s = Ret b s' /\
      (k <= n)%nat /\ (b <> 0 \/ k = n) /\
      heap s' =
        <[sumb := ODoubles (sums_after w (S k * ITERATIONS) (clock_reads s) ds)]>
          (heap s ++ repeat (ORaw ARRAY_SIZE) (S k * ITERATIONS)) /\
      clock_reads s' = clock_reads s + Z.of_nat (S k) * reads_per_attempt /\
      dc_ops s' = dc_ops s + Z.of_nat (S k * ITERATIONS) * 65536 /\
      decisions s' = decisions s ++ repeat 0 k ++ [b] /\
      b = decision_from w (clock_reads s) ds bi k /\
      alloc_calls s' = (alloc_calls s + S k * ITERATIONS)%nat /\
      forall j, (j < k)%nat -> decision_from w (clock_reads s) ds bi j = 0.
Proof.
  intros Hok n. induction n as [|n IH]; intros bi ds s Hv Hds Hlen;
    destruct (attempt_spec w addr v sumb ds bi s Hok Hv Hds Hlen)
      as (s1 & Hrun & Hh & Hr & Ha & Hd & Hl);
    set (d := fst (scan_from 0 (sums_after w ITERATIONS (clock_reads s) ds)
                     (bi, DBL_MAX))) in *.
  - exists d, s1, 0%nat. split.
    + cbn [try_loop]. unfold bind. rewrite Hrun.
      destruct (Z.eqb_spec d 0) as [E|E]; [rewrite E|]; reflexivity.
    + split; [lia|]. split; [right; reflexivity|].
      split; [exact Hh|]. split; [rewrite Hr; lia|].
      split; [exact Hd|]. split; [exact Hl|]. split; [reflexivity|].
      split; [rewrite Ha; lia|]. intros j Hj. lia.
  - destruct (Z.eqb_spec d 0) as [Hz|Hz].
    + assert (Hlt : (sumb < length (heap s ++ repeat (ORaw ARRAY_SIZE) ITERATIONS))%nat).
      { rewrite length_app. apply lookup_lt_Some in Hds. lia. }
      destruct (IH 0 (sums_after w ITERATIONS (clock_reads s) ds) s1)
        as (b & s' & k & Hrest & Hk & Hstop & Hh' & Hr' & Hd' & Hl' & Hb & Ha' & Hz').
      { rewrite Hh. eapply holds_byte_grow; eauto. }
      { rewrite Hh. apply list_lookup_insert_eq. exact Hlt. }
      { rewrite length_sums_after. exact Hlen. }
      unfold decision_from in Hb.
      rewrite (sums_after_retry w k (clock_reads s) (clock_reads s1) ds Hr) in Hh', Hb.
      exists b, s', (S k). split.
      * rewrite (try_loop_retry w addr (Ptr sumb 0) (S n) bi s s1);
          [exact Hrest|]. rewrite Hrun, Hz. reflexivity.
      * split; [lia|]. split; [lia|]. split.
        { rewrite Hh', Hh, <- insert_app_l by exact Hlt.
          rewrite list_insert_insert_eq, <- app_assoc, <- repeat_app.
          reflexivity. }
        split; [rewrite Hr', Hr; lia|].
        split.
        { rewrite Hd', Hd. change ITERATIONS with 20%nat. lia. }
        split.
        { rewrite Hl', Hl, Hz, <- app_assoc. reflexivity. }
        split.
        { unfold decision_from. rewrite Hb. destruct k; reflexivity. }
        split.
        { rewrite Ha', Ha. change ITERATIONS with 20%nat. lia. }
        intros [|j] Hj.
        { exact Hz. }
        specialize (Hz' j ltac:(lia)). unfold decision_from in Hz' |- *.
        rewrite (sums_after_retry w j (clock_reads s) (clock_reads s1) ds Hr) in Hz'.
        destruct j; exact Hz'.
    + exists d, s1, 0%nat. split.
      * cbn [try_loop]. unfold bind. rewrite Hrun.
        destruct (Z.eqb_spec d 0) as [E|E]; [contradiction | reflexivity].
      * split; [lia|]. split; [left; exact Hz|].
        split; [exact Hh|]. split; [rewrite Hr; lia|].
        split; [exact Hd|]. split; [exact Hl|]. split; [reflexivity|].
        split; [rewrite Ha; lia|]. intros j Hj. lia.
Qed.

Lemma try_loop_spec (w : world) (addr : pointer) (v : byte) (sumb : nat) :
  (forall k, alloc_ok w k = true) ->
  forall (n : nat) (bi : Z) (ds : list double) (s : state),
    holds_byte addr v (heap s) ->
    heap s !! sumb = Some (ODoubles ds) ->
    length ds = nslots ->
    exists (b : Z) (s' : state) (k : nat),
      try_loop w addr (Ptr sumb 0) (S n) bi s = Ret b s' /\
      (k <= n)%nat /\ (b <> 0 \/ k = n) /\
      heap s' =
        <[sumb := ODoubles (sums_after w (S k * ITERATIONS) (clock_reads s) ds)]>
          (heap s ++ repeat (ORaw ARRAY_SIZE) (S k * ITERATIONS)) /\
      clock_reads s' = clock_reads s + Z.of_nat (S k) * reads_per_attempt /\
      dc_ops s' = dc_ops s + Z.of_nat (S k * ITERATIONS) * 65536 /\
      decisions s' = decisions s ++ repeat 0 k ++ [b] /\
      b = fst (scan_from 0 (sums_after w (S k * ITERATIONS) (clock_reads s) ds)
                 (match k with O => bi | S _ => 0 end, DBL_MAX)).
Proof.
  intros Hok n bi ds s Hv Hds Hlen.
  destruct (try_loop_full w addr v sumb Hok n bi ds s Hv Hds Hlen)
    as (b & s' & k & Hrun & Hk & Hstop & Hh & Hr & Hd & Hl & Hb & _).
  exists b, s', k. repeat (split; [assumption|]). exact Hb.
Qed.

(** ** [inferb] as a function of the clock *)

Lemma inferb_spec (w : world) (addr : pointer) (v : byte) (s : state) :
  (forall k, alloc_ok w k = true) ->
  holds_byte addr v (heap s) ->
  exists (b : Z) (s' : state) (k : nat),
    inferb w addr s = Ret b s' /\
    (S k <= RETRIES_IF_ZERO)%nat /\ (b <> 0 \/ S k = RETRIES_IF_ZERO) /\
    heap s' =
      heap s ++
      ODoubles (sums_after w (S k * ITERATIONS) (clock_reads s) (repeat dzero nslots))
      :: repeat (ORaw ARRAY_SIZE) (S k * ITERATIONS) /\
    clock_reads s' = clock_reads s + Z.of_nat (S k) * reads_per_attempt /\
    dc_ops s' = dc_ops s + Z.of_nat (S k * ITERATIONS) * 65536 /\
    decisions s' = decisions s ++ repeat 0 k ++ [b] /\
    b = fst (scan_from 0
               (sums_after w (S k * ITERATIONS) (clock_reads s) (repeat dzero nslots))
               (match k with O => byte_val (junk w) | S _ => 0 end, DBL_MAX)).
Proof.
  intros Hok Hv. unfold inferb. unfold bind at 1.
  rewrite (calloc_ok w NUM_CACHE_LINES s (Hok _)).
  set (s0 := set_heap _ (count_alloc s)).
  assert (Hds : heap s0 !! length (heap s) = Some (ODoubles (repeat dzero nslots))).
  { subst s0. simpl. apply list_lookup_middle. reflexivity. }
  assert (Hv0 : holds_byte addr v (heap s0)).
  { eapply holds_byte_kept; [exact Hv|]. intros k Hk. subst s0. simpl.
    apply lookup_app_l. exact Hk. }
  change RETRIES_IF_ZERO with (S 49).
  destruct (try_loop_spec w addr v (length (heap s)) Hok 49
              (byte_val (junk w)) (repeat dzero nslots) s0 Hv0 Hds
              (repeat_length _ _))
    as (b & s' & k & Hrun & Hk & Hstop & Hh & Hr & Hd & Hl & Hb).
  exists b, s', k. split; [exact Hrun|]. split; [lia|]. split; [lia|].
  split; [|auto].
  rewrite Hh. subst s0. cbn [heap set_heap count_alloc clock_reads].
  rewrite <- app_assoc, insert_app_r_alt by lia.
  rewrite Nat.sub_diag. reflexivity.
Qed.

(** ** The first decision that is not 0 *)

Lemma inferb_full (w : world) (addr : pointer) (v : byte) (s : state) :
  (forall k, alloc_ok w k = true) ->
  holds_byte addr v (heap s) ->
  exists (b : Z) (s' : state) (k : nat),
    inferb w addr s = Ret b s' /\
    (S k <= RETRIES_IF_ZERO)%nat /\ (b <> 0 \/ S k = RETRIES_IF_ZERO) /\
    clock_reads s' = clock_reads s + Z.of_nat (S k) * reads_per_attempt /\
    alloc_calls s' = (alloc_calls s + 1 + S k * ITERATIONS)%nat /\
    decisions s' = decisions s ++ repeat 0 k ++ [b] /\
    b = decision_of w (clock_reads s) k /\
    forall j, (j < k)%nat -> decision_of w (clock_reads s) j = 0.
Proof.
  intros Hok Hv. unfold inferb. unfold bind at 1.
  rewrite (calloc_ok w NUM_CACHE_LINES s (Hok _)).
  set (s0 := set_heap _ (count_alloc s)).
  assert (Hds : heap s0 !! length (heap s) = Some (ODoubles (repeat dzero nslots))).
  { subst s0. simpl. apply list_lookup_middle. reflexivity. }
  assert (Hv0 : holds_byte addr v (heap s0)).
  { eapply holds_byte_kept; [exact Hv|]. intros k Hk. subst s0. simpl.
    apply lookup_app_l. exact Hk. }
  change RETRIES_IF_ZERO with (S 49).
  destruct (try_loop_full w addr v (length (heap s)) Hok 49
              (byte_val (junk w)) (repeat dzero nslots) s0 Hv0 Hds
              (repeat_length _ _))
    as (b & s' & k & Hrun & Hk & Hstop & _ & Hr & _ & Hl & Hb & Ha & Hz).
  exists b, s', k. split; [exact Hrun|]. split; [lia|]. split; [lia|].
  split; [exact Hr|]. split.
  { rewrite Ha. subst s0. cbn [alloc_calls set_heap count_alloc]. lia. }
  split; [exact Hl|]. split; [exact Hb | exact Hz].
Qed.

Lemma lookup_zeros_last (z k : nat) (b d : Z) :
  (repeat 0 z ++ [b]) !! k = Some d ->
  ((k < z)%nat /\ d = 0) \/ (k = z /\ d = b).
Proof.
  intros Hk. destruct (lt_dec k z) as [Hlt|Hge].
  - left. split; [exact Hlt|].
    rewrite lookup_app_l in Hk by (rewrite repeat_length; exact Hlt).
    apply list_elem_of_lookup_2, list_elem_of_In, repeat_spec in Hk. exact Hk.
  - right.
    assert (Hlen : (k < length (repeat 0%Z z ++ [b]))%nat)
      by (eapply lookup_lt_Some; eauto).
    rewrite length_app, repeat_length in Hlen. simpl in Hlen.
    assert (k = z) by lia. subst k. split; [reflexivity|].
    rewrite list_lookup_middle in Hk by (rewrite repeat_length; reflexivity).
    congruence.
Qed.

(** C4. The retry loop returns at the first decision that is not 0. An
    attempt that decides [d <> 0] ends the loop at once: [d] is returned in
    the state that attempt left, and no further attempt is made; an attempt
    that decides 0 is followed by the next try. For a call of [inferb] with
    a valid secret address and allocations that succeed: at least one
    attempt is made, every logged decision is the decision of the attempt of
    its rank, the value returned is the last of them, and the allocations
    and clock reads are those of the attempts logged. If the decision of
    attempt [k + 1] is a value [d] other than 0, that attempt is the last
    one and [inferb] returns [d]; so if attempts 1 to [k] decide 0 and
    attempt [k + 1] decides [d <> 0], the attempts made are exactly these
    [k + 1] and the value returned is [d]. *)
Theorem C4_first_nonzero_decision_returned
    (w : world) (addr : pointer) (v : byte) (s : state) :
  (forall k, alloc_ok w k = true) ->
  holds_byte addr v (heap s) ->
  (forall sum n bi s0 d s1,
     attempt w addr sum bi s0 = Ret d s1 -> d <> 0 ->
     try_loop w addr sum (S n) bi s0 = Ret d s1) /\
  (forall sum n bi s0 s1,
     attempt w addr sum bi s0 = Ret 0 s1 ->
     try_loop w addr sum (S n) bi s0 = try_loop w addr sum n 0 s1) /\
  exists (b : Z) (s' : state) (attempts : list Z),
    inferb w addr s = Ret b s' /\
    decisions s' = decisions s ++ attempts /\
    (1 <= length attempts <= RETRIES_IF_ZERO)%nat /\
    last attempts = Some b /\
    (forall k d, attempts !! k = Some d -> d = decision_of w (clock_reads s) k) /\
    alloc_calls s' = (alloc_calls s + 1 + length attempts * ITERATIONS)%nat /\
    clock_reads s' =
      clock_reads s + Z.of_nat (length attempts) * reads_per_attempt /\
    (forall (k : nat) (d : Z),
      attempts !! k = Some d -> d <> 0 ->
      b = d /\
      length attempts = S k /\
      alloc_calls s' = (alloc_calls s + 1 + S k * ITERATIONS)%nat /\
      clock_reads s' = clock_reads s + Z.of_nat (S k) * reads_per_attempt) /\
    (forall (k : nat) (d : Z),
      (k < RETRIES_IF_ZERO)%nat ->
      (forall j, (j < k)%nat -> decision_of w (clock_reads s) j = 0) ->
      decision_of w (clock_reads s) k = d -> d <> 0 ->
      b = d /\ attempts = repeat 0 k ++ [d]).
Proof.
  intros Hok Hv. split.
  { intros sum n bi s0 d s1 Hrun Hd.
    change (try_loop w addr sum (S n) bi s0)
      with (bind (attempt w addr sum bi)
              (fun bi' => if bi' =? 0 then try_loop w addr sum n bi' else ret bi')
              s0).
    unfold bind. rewrite Hrun.
    destruct (Z.eqb_spec d 0) as [E|E]; [contradiction | reflexivity]. }
  split.
  { intros sum n bi s0 s1 Hrun. apply try_loop_retry. exact Hrun. }
  destruct (inferb_full w addr v s Hok Hv)
    as (b & s' & z & Hrun & Hz & Hstop & Hr & Ha & Hl & Hb & Hzero).
  exists b, s', (repeat 0 z ++ [b]).
  assert (Hlen : length (repeat 0 z ++ [b]) = S z).
  { rewrite length_app, repeat_length. simpl. lia. }
  rewrite Hlen.
  split; [exact Hrun|]. split; [exact Hl|]. split; [lia|].
  split; [apply last_snoc|].
  split.
  { intros k d Hk. destruct (lookup_zeros_last z k b d Hk) as [[Hlt ->]|[-> ->]].
    - symmetry. apply Hzero. exact Hlt.
    - exact Hb. }
  split; [exact Ha|]. split; [exact Hr|].
  split.
  { intros k d Hk Hnz.
    destruct (lookup_zeros_last z k b d Hk) as [[_ ->]|[-> ->]]; [contradiction|].
    repeat split; assumption. }
  intros k d Hk Hbefore Hdec Hnz.
  assert (z = k).
  { destruct (Nat.lt_trichotomy z k) as [Hlt|[Heq|Hgt]]; [|exact Heq|].
    - exfalso. rewrite (Hbefore z Hlt) in Hb.
      destruct Hstop as [Hstop|Hstop]; [contradiction | lia].
    - exfalso. apply Hnz. rewrite <- Hdec. apply Hzero. exact Hgt. }
  subst z. split; [congruence|]. rewrite Hb, Hdec. reflexivity.
Qed.

(** C4 in the world [early], where attempt 1 decides 0 and attempt 2
    decides 200: [inferb] returns 200 and the second attempt is the last. *)
Lemma C4_first_nonzero_decision_returned_witness :
  exists s',
    inferb early the_byte main_state = Ret 200 s' /\
    decisions s' = [0; 200] /\
    alloc_calls s' = 41%nat /\
    clock_reads s' = 20480.
Proof.
  destruct (C4_first_nonzero_decision_returned early the_byte x2a main_state
              (fun _ => eq_refl) main_state_holds)
    as (_ & _ & b & s' & l & Hrun & Hd & _ & _ & _ & _ & _ & Hfirst & _).
  pose proof early_exit_run as E. rewrite Hrun in E.
  unfold report in E. cbn [final_state] in E.
  injection E as Eb El Ea Ec.
  change (decisions main_state ++ l) with l in Hd.
  rewrite El in Hd. subst l.
  destruct (Hfirst 1%nat 200 eq_refl ltac:(discriminate)) as (Hb & _ & Ha & Hc).
  exists s'.
  split; [rewrite <- Hb; exact Hrun|]. split; [exact El|].
  split; [exact Ha | exact Hc].
Defined.

(** X9. [inferb] frees nothing. With a valid secret address and
    allocations that succeed, the heap it returns in is the caller's heap
    followed by the sample vector and by [ITERATIONS] probe arrays of
    [ARRAY_SIZE] bytes for every attempt made (20 to 1000 arrays of 4 MiB),
    all still allocated; the flush executed [ARRAY_SIZE / CACHE_LINE_SIZE]
    cache-maintenance instructions for each of them. *)
Theorem X9_inferb_frees_nothing
    (w : world) (addr : pointer) (v : byte) (s : state) :
  (forall k, alloc_ok w k = true) ->
  holds_byte addr v (heap s) ->
  exists (b : Z) (s' : state) (attempts : nat) (totals : list double),
    inferb w addr s = Ret b s' /\
    (1 <= attempts <= RETRIES_IF_ZERO)%nat /\
    length (decisions s') = (length (decisions s) + attempts)%nat /\
    length totals = nslots /\
    heap s' =
      heap s ++ ODoubles totals :: repeat (ORaw ARRAY_SIZE) (attempts * ITERATIONS) /\
    dc_ops s' =
      dc_ops s + Z.of_nat (attempts * ITERATIONS) * (ARRAY_SIZE / CACHE_LINE_SIZE).
Proof.
  intros Hok Hv.
  destruct (inferb_spec w addr v s Hok Hv)
    as (b & s' & k & Hrun & Hk & Hstop & Hh & Hr & Hd & Hl & Hb).
  exists b, s', (S k),
    (sums_after w (S k * ITERATIONS) (clock_reads s) (repeat dzero nslots)).
  split; [exact Hrun|]. split; [lia|]. split.
  { rewrite Hl, !length_app, repeat_length. simpl. lia. }
  split; [|split; [exact Hh | exact Hd]].
  rewrite length_sums_after. apply repeat_length.
Qed.

(** X9 at the call of [main] in a world where nothing fails. *)
Lemma X9_inferb_frees_nothing_witness :
  exists (b : Z) (s' : state) (attempts : nat),
    inferb still the_byte main_state = Ret b s' /\
    length (heap s') = (2 + attempts * ITERATIONS)%nat.
Proof.
  destruct (X9_inferb_frees_nothing still the_byte x2a main_state
              (fun _ => eq_refl) main_state_holds)
    as (b & s' & n & totals & Hrun & _ & _ & _ & Hh & _).
  exists b, s', n. split; [exact Hrun|].
  rewrite Hh, length_app. cbn [length]. rewrite repeat_length. reflexivity.
Defined.

(** X10. What [inferb] returns, with a valid secret address and
    allocations that succeed: after [attempts] attempts the sample vector
    holds, for every slot, the sum of the samples of all
    [attempts * ITERATIONS] timing passes made since the call (the clock
    reads of consecutive passes follow each other), and the value returned
    is the decision on these running totals: the index of their first
    minimum, or, when no total is below [DBL_MAX], the value [bestIndex]
    had: the indeterminate initial value in attempt 1, and 0 in a retry. *)
Theorem X10_inferb_decides_on_running_totals
    (w : world) (addr : pointer) (v : byte) (s : state) :
  (forall k, alloc_ok w k = true) ->
  holds_byte addr v (heap s) ->
  exists (b : Z) (s' : state) (attempts : nat),
    inferb w addr s = Ret b s' /\
    (1 <= attempts <= RETRIES_IF_ZERO)%nat /\
    length (decisions s') = (length (decisions s) + attempts)%nat /\
    let totals :=
      sums_after w (attempts * ITERATIONS) (clock_reads s) (repeat dzero nslots) in
    (Forall (fun x => flt x DBL_MAX = false) totals /\
     b = if (attempts =? 1)%nat then byte_val (junk w) else 0) \/
    (exists (i : nat) (m : double),
       b = Z.of_nat i /\ totals !! i = Some m /\ flt m DBL_MAX = true /\
       Forall (fun x => flt x m = false) totals /\
       Forall (fun x => fle x m = false) (take i totals)).
Proof.
  intros Hok Hv.
  destruct (inferb_spec w addr v s Hok Hv)
    as (b & s' & k & Hrun & Hk & Hstop & Hh & Hr & Hd & Hl & Hb).
  exists b, s', (S k). split; [exact Hrun|]. split; [lia|]. split.
  { rewrite Hl, !length_app, repeat_length. simpl. lia. }
  intros totals. fold totals in Hb.
  destruct (scan_from_argmin (match k with O => byte_val (junk w) | S _ => 0 end) totals)
    as [[Hall E] | (i & m & E & Hi & Hm & Hmin & Hfirst)]; rewrite E in Hb; cbn [fst] in Hb.
  - left. split; [exact Hall|]. rewrite Hb. destruct k; reflexivity.
  - right. exists i, m. split; [|tauto]. rewrite Hb.
    apply lookup_lt_Some in Hi. unfold totals in Hi.
    rewrite length_sums_after, repeat_length, nslots_eq in Hi.
    unfold wrap8. apply Z.mod_small. lia.
Qed.

(** X10 at the call of [main] in a world where nothing fails. *)
Lemma X10_inferb_decides_on_running_totals_witness :
  exists (b : Z) (s' : state) (attempts : nat),
    inferb still the_byte main_state = Ret b s' /\
    (1 <= attempts <= RETRIES_IF_ZERO)%nat.
Proof.
  destruct (X10_inferb_decides_on_running_totals still the_byte x2a main_state
              (fun _ => eq_refl) main_state_holds)
    as (b & s' & n & Hrun & Hn & _).
  exists b, s', n. split; [exact Hrun | exact Hn].
Defined.

(** ** The totals are numbers *)

Lemma fadd_nonneg (v e : double) :
  fle dzero v = true -> fle dzero e = true -> fle dzero (fadd v e) = true.
Proof.
  intros Hv He.
  destruct v as [sv|[|]| |[|] mv ev]; try discriminate;
    destruct e as [se|[|]| |[|] me ee]; try discriminate;
    try reflexivity; try (destruct sv; try destruct se; reflexivity).
  unfold fadd, SFadd. cbn [cond_Zopp].
  set (a := fst (shl_align mv ev (Z.min ev ee))).
  set (b := fst (shl_align me ee (Z.min ev ee))).
  change (Z.pos a + Z.pos b) with (Z.pos (a + b)).
  cbn [binary_normalize]. rewrite binary_round_pair.
  change dzero with (pack (0, 0)). apply pack_le. left. cbn [fst].
  split; [reflexivity|]. apply round_pair_nonneg. lia.
Qed.

Lemma sample_nonneg (w : world) (c : Z) :
  nonneg_rate (rate_of w) = true -> fle dzero (sample w c) = true.
Proof.
  intros Hr. unfold sample. apply elapsed_nonneg; [exact Hr|].
  apply wrap64_range.
Qed.

Lemma add_samples_nonneg (w : world) (c : Z) (ds : list double) :
  nonneg_rate (rate_of w) = true ->
  Forall (fun x => fle dzero x = true) ds ->
  Forall (fun x => fle dzero x = true) (add_samples w c ds).
Proof.
  intros Hr Hall. apply Forall_lookup. intros i x Hx.
  unfold add_samples in Hx. rewrite list_lookup_imap in Hx.
  destruct (ds !! i) as [v|] eqn:Hv; [|discriminate].
  injection Hx as <-. apply fadd_nonneg.
  - exact (proj1 (Forall_lookup _ _) Hall i v Hv).
  - apply sample_nonneg. exact Hr.
Qed.

Lemma sums_after_nonneg (w : world) (n : nat) (c : Z) (ds : list double) :
  nonneg_rate (rate_of w) = true ->
  Forall (fun x => fle dzero x = true) ds ->
  Forall (fun x => fle dzero x = true) (sums_after w n c ds).
Proof.
  intros Hr Hall. induction n as [|n IH]; [exact Hall|].
  cbn [sums_after]. apply add_samples_nonneg; assumption.
Qed.

(** X11. When the rate of the time base is a finite double that is not
    negative, with a valid secret address and allocations that succeed,
    every total in the sample vector [inferb] leaves behind is a number
    that is not negative: no total is NaN or below zero, so each comparison
    [sum[i] < best] of the decision compares two numbers. *)
Theorem X11_totals_are_nonnegative_numbers
    (w : world) (addr : pointer) (v : byte) (s : state) :
  (forall k, alloc_ok w k = true) ->
  holds_byte addr v (heap s) ->
  nonneg_rate (rate_of w) = true ->
  exists (b : Z) (s' : state) (totals : list double),
    inferb w addr s = Ret b s' /\
    heap s' !! length (heap s) = Some (ODoubles totals) /\
    length totals = nslots /\
    Forall (fun x => fle dzero x = true /\ flt x dzero = false /\ is_nan x = false)
           totals.
Proof.
  intros Hok Hv Hr.
  destruct (inferb_spec w addr v s Hok Hv)
    as (b & s' & k & Hrun & Hk & Hstop & Hh & _).
  exists b, s', (sums_after w (S k * ITERATIONS) (clock_reads s) (repeat dzero nslots)).
  split; [exact Hrun|]. split.
  { rewrite Hh. apply list_lookup_middle. reflexivity. }
  split.
  { rewrite length_sums_after. apply repeat_length. }
  eapply Forall_impl.
  - apply sums_after_nonneg; [exact Hr|].
    apply Forall_forall. intros x Hx.
    apply list_elem_of_In, repeat_spec in Hx. rewrite Hx. reflexivity.
  - intros x Hx. cbn beta. split; [exact Hx|]. apply fle_zero_not_below. exact Hx.
Qed.

(** X11 at the call of [main] with the time base 125/3. *)
Lemma X11_totals_are_nonnegative_numbers_witness :
  exists (b : Z) (s' : state) (totals : list double),
    inferb still the_byte main_state = Ret b s' /\
    heap s' !! length (heap main_state) = Some (ODoubles totals) /\
    length totals = nslots /\
    Forall (fun x => fle dzero x = true /\ flt x dzero = false /\ is_nan x = false)
           totals.
Proof.
  exact (X11_totals_are_nonnegative_numbers still the_byte x2a main_state
           (fun _ => eq_refl) main_state_holds eq_refl).
Defined.

(** ** A time base without a rate *)

Lemma double_of_Z_class (n : Z) :
  0 <= n < 2 ^ 64 ->
  double_of_Z n = S754_zero false \/
  exists m e, double_of_Z n = S754_finite false m e.
Proof.
  intros Hn. destruct n as [|p|p]; [left; reflexivity | | lia].
  right. rewrite double_of_Z_pair.
  destruct (round_pair_u64 (Z.pos p) ltac:(lia)) as [[L U] X].
  rewrite pack_normal by
    (assert (0 < 2 ^ 52) by reflexivity; unfold demax, dprec; lia).
  eauto.
Qed.

Lemma rate_of_no_denominator (w : world) :
  wrap32 (tb_denom w) = 0 -> no_time (rate_of w) = true.
Proof.
  intros H. unfold rate_of. rewrite H.
  destruct (double_of_Z_class _ (wrap32_range (tb_numer w))) as [-> | (m & e & ->)];
    reflexivity.
Qed.

Lemma sample_no_time (w : world) (c : Z) :
  no_time (rate_of w) = true -> no_time (sample w c) = true.
Proof.
  intros H. unfold sample.
  destruct (double_of_Z_class _
              (wrap64_range (wrap64 (ticks w (c + 1)) - wrap64 (ticks w c))))
    as [-> | (m & e & ->)];
    destruct (rate_of w) as [[|]|[|]| |]; try discriminate; reflexivity.
Qed.

Lemma fadd_no_time (v e : double) :
  v = dzero \/ no_time v = true -> no_time e = true -> no_time (fadd v e) = true.
Proof.
  intros [-> | Hv] He.
  - destruct e as [[|]|[|]| |]; try discriminate; reflexivity.
  - destruct v as [[|]|[|]| |]; try discriminate;
      destruct e as [[|]|[|]| |]; try discriminate; reflexivity.
Qed.

Lemma add_samples_no_time (w : world) (c : Z) (ds : list double) :
  no_time (rate_of w) = true ->
  Forall (fun x => x = dzero \/ no_time x = true) ds ->
  Forall (fun x => no_time x = true) (add_samples w c ds).
Proof.
  intros Hr Hall. apply Forall_lookup. intros i x Hx.
  unfold add_samples in Hx. rewrite list_lookup_imap in Hx.
  destruct (ds !! i) as [v|] eqn:Hv; [|discriminate].
  injection Hx as <-. apply fadd_no_time.
  - exact (proj1 (Forall_lookup _ _) Hall i v Hv).
  - apply sample_no_time. exact Hr.
Qed.

Lemma sums_after_no_time (w : world) (n : nat) (c : Z) (ds : list double) :
  no_time (rate_of w) = true ->
  Forall (fun x => x = dzero \/ no_time x = true) ds ->
  Forall (fun x => no_time x = true) (sums_after w (S n) c ds).
Proof.
  intros Hr Hall. induction n as [|n IH].
  - cbn [sums_after]. apply add_samples_no_time; assumption.
  - change (sums_after w (S (S n)) c ds)
      with (add_samples w (c + Z.of_nat (S n) * (2 * NUM_CACHE_LINES))
              (sums_after w (S n) c ds)).
    apply add_samples_no_time; [exact Hr|].
    eapply Forall_impl; [exact IH|]. intros x Hx. right. exact Hx.
Qed.

Lemma no_time_not_below (x : double) : no_time x = true -> flt x DBL_MAX = false.
Proof. destruct x as [[|]|[|]| |]; try discriminate; reflexivity. Qed.

Lemma try_loop_no_candidate (w : world) (addr : pointer) (v : byte) (sumb : nat) :
  (forall k, alloc_ok w k = true) ->
  no_time (rate_of w) = true ->
  forall (n : nat) (bi : Z) (ds : list double) (s : state),
    holds_byte addr v (heap s) ->
    heap s !! sumb = Some (ODoubles ds) ->
    length ds = nslots ->
    Forall (fun x => x = dzero \/ no_time x = true) ds ->
    exists s', try_loop w addr (Ptr sumb 0) n bi s = Ret bi s' /\
               decisions s' = decisions s ++ repeat bi (if bi =? 0 then n else Nat.min 1 n).
Proof.
  intros Hok Hr n. induction n as [|n IH]; intros bi ds s Hv Hds Hlen Hall.
  - exists s. split; [reflexivity|]. destruct (bi =? 0); simpl; rewrite app_nil_r; reflexivity.
  - destruct (attempt_spec w addr v sumb ds bi s Hok Hv Hds Hlen)
      as (s1 & Hrun & Hh & _ & _ & _ & Hl).
    change ITERATIONS with (S 19) in Hrun, Hh, Hl.
    pose proof (sums_after_no_time w 19 (clock_reads s) ds Hr Hall) as Hbad.
    rewrite (scan_from_keep DBL_MAX) in Hrun, Hl.
    2,3: intros x Hin; apply no_time_not_below;
         rewrite Forall_forall in Hbad; apply Hbad, list_elem_of_In; exact Hin.
    cbn [fst] in Hrun, Hl.
    destruct (Z.eqb_spec bi 0) as [Hz|Hz].
    + subst bi.
      destruct (IH 0 (sums_after w (S 19) (clock_reads s) ds) s1)
        as (s' & Hrest & Hl').
      * rewrite Hh. eapply holds_byte_grow; eauto.
      * rewrite Hh. apply list_lookup_insert_eq. rewrite length_app.
        apply lookup_lt_Some in Hds. lia.
      * rewrite length_sums_after. exact Hlen.
      * eapply Forall_impl; [exact Hbad|]. intros x Hx. right. exact Hx.
      * exists s'. split.
        -- rewrite (try_loop_retry w addr (Ptr sumb 0) n 0 s s1 Hrun). exact Hrest.
        -- rewrite Hl', Hl. cbn [Z.eqb]. rewrite <- app_assoc. reflexivity.
    + exists s1. split.
      * cbn [try_loop]. unfold bind. rewrite Hrun.
        destruct (Z.eqb_spec bi 0); [contradiction | reflexivity].
      * rewrite Hl. destruct n; reflexivity.
Qed.

(** X12. [startTimer] divides by the denominator of the time base without
    testing it. When that denominator is 0 the rate is an infinity or NaN,
    every sample and every total is positive infinity or NaN, and no total
    is ever below [DBL_MAX]: the decision assigns nothing, and [inferb]
    returns the value its uninitialised variable [bestIndex] happened to
    hold, whatever the byte at the secret address is and whatever the clock
    shows: after one attempt when that value is not 0, after
    [RETRIES_IF_ZERO] attempts when it is. *)
Theorem X12_inferb_without_time_base
    (w : world) (addr : pointer) (v : byte) (s : state) :
  (forall k, alloc_ok w k = true) ->
  holds_byte addr v (heap s) ->
  wrap32 (tb_denom w) = 0 ->
  exists s',
    inferb w addr s = Ret (byte_val (junk w)) s' /\
    decisions s' =
      decisions s ++
      repeat (byte_val (junk w))
             (if byte_val (junk w) =? 0 then RETRIES_IF_ZERO else 1%nat).
Proof.
  intros Hok Hv Hden. unfold inferb. unfold bind at 1.
  rewrite (calloc_ok w NUM_CACHE_LINES s (Hok _)).
  set (s0 := set_heap _ (count_alloc s)).
  destruct (try_loop_no_candidate w addr v (length (heap s)) Hok
              (rate_of_no_denominator w Hden) RETRIES_IF_ZERO
              (byte_val (junk w)) (repeat dzero nslots) s0)
    as (s' & Hrun & Hl).
  - eapply holds_byte_kept; [exact Hv|]. intros k Hk. subst s0. simpl.
    apply lookup_app_l. exact Hk.
  - subst s0. simpl. apply list_lookup_middle. reflexivity.
  - apply repeat_length.
  - apply Forall_forall. intros x Hx. left.
    apply list_elem_of_In, repeat_spec in Hx. exact Hx.
  - exists s'. split; [exact Hrun|]. rewrite Hl. reflexivity.
Qed.

(** X12 in a world with time base 125/0 where [bestIndex] starts as 7. *)
Lemma X12_inferb_without_time_base_witness :
  exists s',
    inferb no_rate the_byte main_state = Ret 7 s' /\
    decisions s' = [7].
Proof.
  exact (X12_inferb_without_time_base no_rate the_byte x2a main_state
           (fun _ => eq_refl) main_state_holds eq_refl).
Defined.

(** ** The null address and a failed [calloc] *)

Lemma iteration_null_address (w : world) (sum : pointer) (s : state) :
  exists s', iteration w Null sum s = Crash NullDeref s' /\
             clock_reads s' = clock_reads s /\ decisions s' = decisions s /\
             alloc_calls s' = S (alloc_calls s).
Proof.
  destruct (alloc_ok w (alloc_calls s)) eqn:E.
  - unfold iteration. unfold bind at 1. rewrite (malloc_ok w ARRAY_SIZE s E).
    unfold bind at 1. rewrite flush_fresh_array.
    unfold bind at 1. eexists. split; [reflexivity|]. repeat split.
  - rewrite (iteration_null_flush w Null sum s E).
    eexists. split; [reflexivity|]. repeat split.
Qed.

(** X13. [inferb] called with the null pointer never returns: in every
    world it ends in a null dereference in the first iteration, after its
    two allocation calls, before the clock is read and before any decision
    is taken: at [*addr] when the probe array was allocated, in the flush
    before it when that allocation failed. *)
Theorem X13_inferb_null_address (w : world) (s : state) :
  exists s',
    inferb w Null s = Crash NullDeref s' /\
    clock_reads s' = clock_reads s /\
    decisions s' = decisions s /\
    alloc_calls s' = (alloc_calls s + 2)%nat.
Proof.
  unfold inferb. unfold bind at 1. unfold calloc_doubles.
  change RETRIES_IF_ZERO with (S 49).
  destruct (alloc_ok w (alloc_calls s)).
  - match goal with |- context [try_loop w Null ?sum _ _ ?s0] =>
      destruct (iteration_null_address w sum s0) as (s' & Hrun & Hr & Hl & Ha)
    end.
    exists s'. split; [apply try_loop_crash; exact Hrun|].
    rewrite Hr, Hl, Ha. simpl. repeat split. lia.
  - match goal with |- context [try_loop w Null ?sum _ _ ?s0] =>
      destruct (iteration_null_address w sum s0) as (s' & Hrun & Hr & Hl & Ha)
    end.
    exists s'. split; [apply try_loop_crash; exact Hrun|].
    rewrite Hr, Hl, Ha. simpl. repeat split. lia.
Qed.

(** X14. [inferb] does not test the result of [calloc] either. When
    [calloc] fails and the first [malloc] succeeds, the first iteration
    allocates and flushes its probe array, makes the secret-dependent
    access, times the access to slot 0 (two clock reads), and then ends in
    a null dereference at [sum[0] += ...]: no value is returned, no
    decision is taken, and the probe array stays allocated. *)
Theorem X14_inferb_calloc_failure (w : world) (addr : pointer) (v : byte) (s : state) :
  holds_byte addr v (heap s) ->
  alloc_ok w (alloc_calls s) = false ->
  alloc_ok w (S (alloc_calls s)) = true ->
  exists s',
    inferb w addr s = Crash NullDeref s' /\
    heap s' = heap s ++ [ORaw ARRAY_SIZE] /\
    clock_reads s' = clock_reads s + 2 /\
    alloc_calls s' = (alloc_calls s + 2)%nat /\
    decisions s' = decisions s.
Proof.
  intros Hv Hfail Hok. unfold inferb. unfold bind at 1. unfold calloc_doubles.
  rewrite Hfail. change RETRIES_IF_ZERO with (S 49).
  eexists. split.
  - apply try_loop_crash. unfold iteration.
    unfold bind at 1. rewrite (malloc_ok w ARRAY_SIZE (count_alloc s) Hok).
    unfold bind at 1. rewrite flush_fresh_array.
    change (heap (count_alloc s)) with (heap s).
    set (s1 := add_dc 65536 _).
    assert (Hab : heap s1 !! length (heap s) = Some (ORaw ARRAY_SIZE)).
    { simpl. apply list_lookup_middle. reflexivity. }
    assert (Hv1 : holds_byte addr v (heap s1)).
    { eapply holds_byte_kept; [exact Hv|]. intros k Hk. simpl.
      apply lookup_app_l. exact Hk. }
    unfold bind at 1. rewrite (load_byte_ok _ addr v s1 Hv1).
    unfold bind at 1.
    rewrite (probe_read_ok (length (heap s)) (byte_val v) s1 Hab (byte_val_range v)).
    unfold time_slots, for_loop. change nslots with (S 255).
    apply for_from_crash. unfold time_slot.
    unfold bind at 1. rewrite startTimer_eq.
    unfold bind at 1. rewrite (probe_read_ok (length (heap s)) (Z.of_nat 0) (tick s1)).
    2:{ exact Hab. }
    2:{ unfold NUM_CACHE_LINES, UINT8_MAX. simpl. lia. }
    unfold bind at 1. rewrite timeElapsed_eq.
    reflexivity.
  - simpl. repeat split; lia.
Qed.

(** X14 in a world where only [calloc] fails. *)
Lemma X14_inferb_calloc_failure_witness :
  exists s',
    inferb nosum the_byte main_state = Crash NullDeref s' /\
    heap s' = heap main_state ++ [ORaw ARRAY_SIZE] /\
    clock_reads s' = clock_reads main_state + 2 /\
    alloc_calls s' = (alloc_calls main_state + 2)%nat /\
    decisions s' = decisions main_state.
Proof.
  exact (X14_inferb_calloc_failure nosum the_byte x2a main_state
           main_state_holds eq_refl eq_refl).
Defined.

(** ** [main] *)

(** X15. [main], in a world where the allocations succeed, returns after
    1 to [RETRIES_IF_ZERO] attempts of [inferb]. The value it reports is
    the last decision of [inferb], a byte value; the verdict is the check
    mark exactly when that value is [VALUE] (the byte compared with is
    [theByte] read again after the call, which [inferb] left unchanged);
    the clock was read [2 + attempts * 10240] times; and the seconds
    reported are the [uint64_t] tick difference between the last and the
    first of these reads, times the rate of the time base, divided by
    [10^9], all in [double]. *)
Theorem X15_main_reports (w : world) :
  (forall k, alloc_ok w k = true) ->
  exists (p : printed) (s' : state) (attempts : nat),
    main w main_state = Ret p s' /\
    (1 <= attempts <= RETRIES_IF_ZERO)%nat /\
    length (decisions s') = attempts /\
    last (decisions s') = Some (inferredValue p) /\
    0 <= inferredValue p <= UINT8_MAX /\
    result p = (inferredValue p =? VALUE) /\
    clock_reads s' = 2 + Z.of_nat attempts * reads_per_attempt /\
    secs p =
      fdiv (fmul (double_of_Z
                    (wrap64 (wrap64 (ticks w (1 + Z.of_nat attempts * reads_per_attempt))
                             - wrap64 (ticks w 0))))
                 (rate_of w))
           (double_of_Z 1000000000).
Proof.
  intros Hok. unfold main. unfold bind at 1. rewrite startTimer_eq.
  destruct (inferb_spec w the_byte x2a (tick main_state) Hok main_state_holds)
    as (b & s1 & k & Hrun & Hk & Hstop & Hh & Hr & Hd & Hl & Hb).
  unfold bind at 1. rewrite Hrun.
  unfold bind at 1. rewrite timeElapsed_eq.
  assert (Hv : holds_byte the_byte x2a (heap (tick s1))).
  { cbn [heap tick]. rewrite Hh. exists [x2a]. repeat split. unfold Z.le. simpl. discriminate. }
  unfold bind at 1. rewrite (load_byte_ok _ the_byte x2a (tick s1) Hv).
  eexists _, _, (S k). split; [reflexivity|].
  cbn [result inferredValue secs decisions clock_reads tick].
  split; [lia|]. split.
  { rewrite Hl. cbn. rewrite length_app, repeat_length. simpl. lia. }
  split.
  { rewrite Hl. cbn [decisions tick main_state initial app].
    apply last_snoc. }
  split.
  { rewrite Hb. apply scan_from_range. cbn [fst].
    destruct k; [|unfold UINT8_MAX; lia].
    pose proof (byte_val_range (junk w)). unfold NUM_CACHE_LINES in *. lia. }
  split; [reflexivity|].
  rewrite Hr. cbn [clock_reads tick main_state initial start rate].
  split; [lia|].
  replace (0 + 1 + Z.of_nat (S k) * reads_per_attempt)
    with (1 + Z.of_nat (S k) * reads_per_attempt) by lia.
  reflexivity.
Qed.

(** X15 in a world where the clock stands still. *)
Lemma X15_main_reports_witness :
  exists (p : printed) (s' : state) (attempts : nat),
    main still main_state = Ret p s' /\
    (1 <= attempts <= RETRIES_IF_ZERO)%nat /\
    length (decisions s') = attempts /\
    last (decisions s') = Some (inferredValue p) /\
    0 <= inferredValue p <= UINT8_MAX /\
    result p = (inferredValue p =? VALUE) /\
    clock_reads s' = 2 + Z.of_nat attempts * reads_per_attempt /\
    secs p =
      fdiv (fmul (double_of_Z
                    (wrap64 (wrap64 (ticks still (1 + Z.of_nat attempts * reads_per_attempt))
                             - wrap64 (ticks still 0))))
                 (rate_of still))
           (double_of_Z 1000000000).
Proof. exact (X15_main_reports still (fun _ => eq_refl)). Defined.
